(** * The interpreter booking backend: request lifecycle and matching

    A shallow embedding of the request/interpreter endpoints of [main.py]
    over the tables of [models.py], and the properties of the lifecycle
    engine proved on it.

    Conventions of the embedding:
    - a table is the list of its rows, in storage order;
      [Query.filter(p).first()] is [List.find p];
    - an endpoint is a [Handler]: a function of the database that returns
      either its response or the [HTTPException] it raises, and the database
      it leaves behind;
    - [datetime.utcnow()] and [uuid.uuid4()] are inputs of the endpoint that
      calls them ([now], [new_id]);
    - the [created_at] / [updated_at] audit columns and the
      [login_information] table are not represented: the endpoints receive
      the authenticated user's id ([current_user.id]) directly;
    - the directory server is a function from an identifier to the parsed
      patient it returns, if any. *)

From Stdlib Require Import List String ZArith Bool Lia.
From Stdlib Require Import Permutation Sorted Orders Mergesort.
Import ListNotations.

Local Open Scope string_scope.
Local Open Scope Z_scope.

(** ** Enumerations of [models.py] *)

Inductive RequestStatus := PENDING | ACCEPTED | COMPLETED | CANCELLED.

Inductive InterpreterAvailability := AVAILABLE | UNAVAILABLE | BUSY.

Inductive DeliveryMethod := ONSITE | TELEPHONE | TELEHEALTH.

Definition RequestStatus_eqb (a b : RequestStatus) : bool :=
  match a, b with
  | PENDING, PENDING | ACCEPTED, ACCEPTED
  | COMPLETED, COMPLETED | CANCELLED, CANCELLED => true
  | _, _ => false
  end.

Definition InterpreterAvailability_eqb (a b : InterpreterAvailability) : bool :=
  match a, b with
  | AVAILABLE, AVAILABLE | UNAVAILABLE, UNAVAILABLE | BUSY, BUSY => true
  | _, _ => false
  end.

(** A timestamp, as a number of clock ticks. *)
Definition datetime := Z.

(** ** Rows of the tables *)

Module PatientData.
Record t := mk {
    id : string;
    fhir_id : string;
    name : string;
    location : option string;
    birthdate : option string;
    gender : option string;
    address : option string;
    phone_number : option string;
    email : option string;
    language : string
  }.
End PatientData.

Module InterpreterData.
Record t := mk {
    id : string;
    login_id : string;
    name : string;
    phone_number : option string;
    email : option string;
    language : string;
    gender : option string;
    gender_preference : option string;
    availability_status : InterpreterAvailability
  }.

Definition set_availability_status (v : InterpreterAvailability) (i : t) : t :=
  mk (id i) (login_id i) (name i) (phone_number i) (email i) (language i)
     (gender i) (gender_preference i) v.

Definition set_phone_number (v : option string) (i : t) : t :=
  mk (id i) (login_id i) (name i) v (email i) (language i)
     (gender i) (gender_preference i) (availability_status i).

Definition set_email (v : option string) (i : t) : t :=
  mk (id i) (login_id i) (name i) (phone_number i) v (language i)
     (gender i) (gender_preference i) (availability_status i).
End InterpreterData.

Module InterpreterRequest.
Record t := mk {
    id : string;
    requested_by : string;
    patient_id : string;
    interpreter_id : option string;
    location_method : string;
    delivery_method : DeliveryMethod;
    language : string;
    status : RequestStatus;
    patient_type : option string;
    is_stat : bool;
    duration_minutes : option string;
    request_notes : option string;
    encounter_notes : option string;
    requested_at : datetime;
    accepted_at : option datetime;
    completed_at : option datetime
  }.

Definition set_interpreter_id (v : option string) (r : t) : t :=
  mk (id r) (requested_by r) (patient_id r) v (location_method r)
     (delivery_method r) (language r) (status r) (patient_type r) (is_stat r)
     (duration_minutes r) (request_notes r) (encounter_notes r)
     (requested_at r) (accepted_at r) (completed_at r).

Definition set_status (v : RequestStatus) (r : t) : t :=
  mk (id r) (requested_by r) (patient_id r) (interpreter_id r)
     (location_method r) (delivery_method r) (language r) v (patient_type r)
     (is_stat r) (duration_minutes r) (request_notes r) (encounter_notes r)
     (requested_at r) (accepted_at r) (completed_at r).

Definition set_accepted_at (v : option datetime) (r : t) : t :=
  mk (id r) (requested_by r) (patient_id r) (interpreter_id r)
     (location_method r) (delivery_method r) (language r) (status r)
     (patient_type r) (is_stat r) (duration_minutes r) (request_notes r)
     (encounter_notes r) (requested_at r) v (completed_at r).

Definition set_completed_at (v : option datetime) (r : t) : t :=
  mk (id r) (requested_by r) (patient_id r) (interpreter_id r)
     (location_method r) (delivery_method r) (language r) (status r)
     (patient_type r) (is_stat r) (duration_minutes r) (request_notes r)
     (encounter_notes r) (requested_at r) (accepted_at r) v.

Definition set_encounter_notes (v : option string) (r : t) : t :=
  mk (id r) (requested_by r) (patient_id r) (interpreter_id r)
     (location_method r) (delivery_method r) (language r) (status r)
     (patient_type r) (is_stat r) (duration_minutes r) (request_notes r)
     v (requested_at r) (accepted_at r) (completed_at r).
End InterpreterRequest.

(** ** Request bodies of [schemas.py] *)

Module RequestCreate.
Record t := mk {
    patient_id : string;
    location_method : string;
    delivery_method : DeliveryMethod;
    language : string;
    patient_type : option string;
    is_stat : bool;
    duration_minutes : option string;
    request_notes : option string
  }.
End RequestCreate.

Module RequestUpdate.
Record t := mk {
    status : option RequestStatus;
    encounter_notes : option string
  }.
End RequestUpdate.

Module InterpreterUpdate.
Record t := mk {
    availability_status : option InterpreterAvailability;
    phone_number : option string;
    email : option string
  }.
End InterpreterUpdate.

(** ** The database and the handler monad *)

Record DB := mkDB {
  patient_data : list PatientData.t;
  interpreter_data : list InterpreterData.t;
  interpreter_requests : list InterpreterRequest.t
}.

Record HTTPException := mkHTTP { status_code : Z; detail : string }.

Inductive Result (A : Type) : Type :=
| Ok (a : A)
| Raised (e : HTTPException).
Arguments Ok {A} a.
Arguments Raised {A} e.

Definition Handler (A : Type) : Type := DB -> Result A * DB.

Definition ret {A} (a : A) : Handler A := fun db => (Ok a, db).

Definition raise {A} (e : HTTPException) : Handler A := fun db => (Raised e, db).

Definition bind {A B} (m : Handler A) (k : A -> Handler B) : Handler B :=
  fun db =>
    match m db with
    | (Ok a, db') => k a db'
    | (Raised e, db') => (Raised e, db')
    end.

(** A read of the session: the database is left as it is. *)
Definition query {A} (q : DB -> A) : Handler A := fun db => (Ok (q db), db).

(** [db.commit()] of the pending changes [f]. *)
Definition commit (f : DB -> DB) : Handler unit := fun db => (Ok tt, f db).

Declare Scope handler_scope.
Delimit Scope handler_scope with handler.
Notation "x <- m ;; k" := (bind m (fun x => k))
  (at level 61, m at next level, right associativity) : handler_scope.
Notation "m ;;; k" := (bind m (fun _ => k))
  (at level 61, right associativity) : handler_scope.

(** [row = db.query(...).first()] followed by
    [if not row: raise HTTPException(...)]. *)
Definition first_or_raise {A} (q : DB -> option A) (e : HTTPException) : Handler A :=
  fun db =>
    match q db with
    | Some a => (Ok a, db)
    | None => (Raised e, db)
    end.

(** [if cond: raise HTTPException(...)]. *)
Definition raise_if (cond : bool) (e : HTTPException) : Handler unit :=
  if cond then raise e else ret tt.

(** ** Queries and updates *)

(** [UPDATE table SET ... WHERE <pk> = key]: what the unit of work flushes for
    a modified object. *)
Definition update_where {A} (p : A -> bool) (f : A -> A) (rows : list A) : list A :=
  map (fun r => if p r then f r else r) rows.

Definition interpreter_by_login (login : string) (db : DB) : option InterpreterData.t :=
  find (fun i => InterpreterData.login_id i =? login)%string (interpreter_data db).

Definition request_by_id (request_id : string) (db : DB) : option InterpreterRequest.t :=
  find (fun r => InterpreterRequest.id r =? request_id)%string (interpreter_requests db).

Definition option_string_eqb (a : option string) (b : string) : bool :=
  match a with
  | Some s => (s =? b)%string
  | None => false
  end.

(** The request with this id that is assigned to this interpreter. *)
Definition request_by_id_assigned (request_id interpreter_id : string) (db : DB)
  : option InterpreterRequest.t :=
  find (fun r => (InterpreterRequest.id r =? request_id)%string
                 && option_string_eqb (InterpreterRequest.interpreter_id r) interpreter_id)
     (interpreter_requests db).

Definition patient_by_id (patient_id : string) (db : DB) : option PatientData.t :=
  find (fun p => PatientData.id p =? patient_id)%string (patient_data db).

Definition patient_by_fhir_id (fhir_id : string) (db : DB) : option PatientData.t :=
  find (fun p => PatientData.fhir_id p =? fhir_id)%string (patient_data db).

Definition set_interpreters (f : list InterpreterData.t -> list InterpreterData.t) (db : DB) : DB :=
  mkDB (patient_data db) (f (interpreter_data db)) (interpreter_requests db).

Definition set_requests (f : list InterpreterRequest.t -> list InterpreterRequest.t) (db : DB) : DB :=
  mkDB (patient_data db) (interpreter_data db) (f (interpreter_requests db)).

Definition set_patients (f : list PatientData.t -> list PatientData.t) (db : DB) : DB :=
  mkDB (f (patient_data db)) (interpreter_data db) (interpreter_requests db).

(** ** The exceptions the endpoints raise, under the names of the design *)

Definition InterpreterProfileNotFound := mkHTTP 404 "Interpreter profile not found".
Definition NotAvailable := mkHTTP 400 "You must be available to accept requests".
Definition RequestNotFound := mkHTTP 404 "Request not found".
Definition RequestNotPending := mkHTTP 400 "Request is not pending".
Definition LanguageMismatch := mkHTTP 400 "Request language does not match your language".
Definition NotYourRequest := mkHTTP 404 "Request not found or not assigned to you".
Definition RequestNotAccepted := mkHTTP 400 "Request is not in accepted status".
Definition PatientNotFound := mkHTTP 404 "Patient not found".
Definition PatientNotFoundInFHIR := mkHTTP 404 "Patient not found in FHIR server".
(** An [IntegrityError] of the store, or a [ValidationError] of a response
    model, is caught by no endpoint: the framework answers 500. *)
Definition InternalServerError := mkHTTP 500 "Internal Server Error".

(** ** Endpoints of [main.py] *)

Local Open Scope handler_scope.

(** *** [POST /api/requests] *)

(** [InterpreterRequest(requested_by=current_user.id, **request.dict())]: the
    columns the body does not give take their defaults ([status] PENDING,
    [requested_at] the time of the insert, the others NULL). *)
Definition new_interpreter_request (request : RequestCreate.t) (new_id : string)
    (now : datetime) (current_user : string) : InterpreterRequest.t :=
  InterpreterRequest.mk new_id current_user
    (RequestCreate.patient_id request)
    None
    (RequestCreate.location_method request)
    (RequestCreate.delivery_method request)
    (RequestCreate.language request)
    PENDING
    (RequestCreate.patient_type request)
    (RequestCreate.is_stat request)
    (RequestCreate.duration_minutes request)
    (RequestCreate.request_notes request)
    None now None None.

(** [db.add(row); db.commit()]: the insert is refused when the primary key
    is already taken. *)
Definition add_request (row : InterpreterRequest.t) : Handler unit :=
  fun db =>
    if existsb (fun r => InterpreterRequest.id r =? InterpreterRequest.id row)%string
               (interpreter_requests db)
    then (Raised InternalServerError, db)
    else (Ok tt, set_requests (fun rows => (rows ++ [row])%list) db).

Definition create_request (request : RequestCreate.t) (new_id : string)
    (now : datetime) (current_user : string) : Handler InterpreterRequest.t :=
  _ <- first_or_raise (patient_by_id (RequestCreate.patient_id request)) PatientNotFound ;;
  let new_request := new_interpreter_request request new_id now current_user in
  add_request new_request ;;;
  ret new_request.

(** *** [POST /api/interpreter/requests/{request_id}/accept] *)

(** The reads and the four checks (the statements before the first
    assignment). *)
Definition accept_check (request_id current_user : string)
  : Handler (InterpreterData.t * InterpreterRequest.t) :=
  interpreter <- first_or_raise (interpreter_by_login current_user) InterpreterProfileNotFound ;;
  raise_if (negb (InterpreterAvailability_eqb
                    (InterpreterData.availability_status interpreter) AVAILABLE))
           NotAvailable ;;;
  request <- first_or_raise (request_by_id request_id) RequestNotFound ;;
  raise_if (negb (RequestStatus_eqb (InterpreterRequest.status request) PENDING))
           RequestNotPending ;;;
  raise_if (negb (InterpreterRequest.language request
                  =? InterpreterData.language interpreter)%string)
           LanguageMismatch ;;;
  ret (interpreter, request).

(** The three assignments to the request. *)
Definition accept_fields (interpreter_id : string) (now : datetime)
    (request : InterpreterRequest.t) : InterpreterRequest.t :=
  InterpreterRequest.set_accepted_at (Some now)
    (InterpreterRequest.set_status ACCEPTED
     (InterpreterRequest.set_interpreter_id (Some interpreter_id) request)).

(** What the commit flushes: one UPDATE of the request row and one of the
    interpreter row, each by primary key. *)
Definition accept_changes (now : datetime) (interpreter : InterpreterData.t)
    (request : InterpreterRequest.t) (db : DB) : DB :=
  set_interpreters
    (update_where
       (fun i => InterpreterData.id i =? InterpreterData.id interpreter)%string
       (InterpreterData.set_availability_status BUSY))
    (set_requests
       (update_where
          (fun r => InterpreterRequest.id r =? InterpreterRequest.id request)%string
          (accept_fields (InterpreterData.id interpreter) now))
       db).

(** The assignments and the commit. The response is the refreshed request. *)
Definition accept_write (now : datetime)
    (loaded : InterpreterData.t * InterpreterRequest.t)
  : Handler InterpreterRequest.t :=
  let (interpreter, request) := loaded in
  commit (accept_changes now interpreter request) ;;;
  ret (accept_fields (InterpreterData.id interpreter) now request).

Definition accept_request (request_id : string) (now : datetime)
    (current_user : string) : Handler InterpreterRequest.t :=
  loaded <- accept_check request_id current_user ;;
  accept_write now loaded.

(** *** [POST /api/interpreter/requests/{request_id}/complete] *)

(** [if updates.encounter_notes:] holds for a string that is present and not
    empty. *)
Definition truthy (s : option string) : bool :=
  match s with
  | Some EmptyString => false
  | Some _ => true
  | None => false
  end.

Definition complete_fields (updates : RequestUpdate.t) (now : datetime)
    (request : InterpreterRequest.t) : InterpreterRequest.t :=
  let request := InterpreterRequest.set_completed_at (Some now)
                   (InterpreterRequest.set_status COMPLETED request) in
  if truthy (RequestUpdate.encounter_notes updates)
  then InterpreterRequest.set_encounter_notes (RequestUpdate.encounter_notes updates) request
  else request.

Definition complete_check (request_id current_user : string)
  : Handler (InterpreterData.t * InterpreterRequest.t) :=
  interpreter <- first_or_raise (interpreter_by_login current_user) InterpreterProfileNotFound ;;
  request <- first_or_raise
               (request_by_id_assigned request_id (InterpreterData.id interpreter))
               NotYourRequest ;;
  raise_if (negb (RequestStatus_eqb (InterpreterRequest.status request) ACCEPTED))
           RequestNotAccepted ;;;
  ret (interpreter, request).

Definition complete_changes (updates : RequestUpdate.t) (now : datetime)
    (interpreter : InterpreterData.t) (request : InterpreterRequest.t) (db : DB) : DB :=
  set_interpreters
    (update_where
       (fun i => InterpreterData.id i =? InterpreterData.id interpreter)%string
       (InterpreterData.set_availability_status AVAILABLE))
    (set_requests
       (update_where
          (fun r => InterpreterRequest.id r =? InterpreterRequest.id request)%string
          (complete_fields updates now))
       db).

Definition complete_write (updates : RequestUpdate.t) (now : datetime)
    (loaded : InterpreterData.t * InterpreterRequest.t)
  : Handler InterpreterRequest.t :=
  let (interpreter, request) := loaded in
  commit (complete_changes updates now interpreter request) ;;;
  ret (complete_fields updates now request).

Definition complete_request (request_id : string) (updates : RequestUpdate.t)
    (now : datetime) (current_user : string) : Handler InterpreterRequest.t :=
  loaded <- complete_check request_id current_user ;;
  complete_write updates now loaded.

(** *** [PATCH /api/interpreters/me] *)

Definition profile_fields (updates : InterpreterUpdate.t)
    (interpreter : InterpreterData.t) : InterpreterData.t :=
  let interpreter :=
    match InterpreterUpdate.availability_status updates with
    | Some a => InterpreterData.set_availability_status a interpreter
    | None => interpreter
    end in
  let interpreter :=
    match InterpreterUpdate.phone_number updates with
    | Some p => InterpreterData.set_phone_number (Some p) interpreter
    | None => interpreter
    end in
  match InterpreterUpdate.email updates with
  | Some e => InterpreterData.set_email (Some e) interpreter
  | None => interpreter
  end.

Definition update_my_interpreter_profile (updates : InterpreterUpdate.t)
    (current_user : string) : Handler InterpreterData.t :=
  interpreter <- first_or_raise (interpreter_by_login current_user) InterpreterProfileNotFound ;;
  commit (set_interpreters
            (update_where
               (fun i => InterpreterData.id i =? InterpreterData.id interpreter)%string
               (profile_fields updates))) ;;;
  ret (profile_fields updates interpreter).

(** *** [GET /api/interpreter/requests/pending] *)

(** [ORDER BY is_stat DESC, requested_at]: [leb a b] when [a] may come before
    [b]. *)
Module PendingOrder <: TotalLeBool.
Definition t := InterpreterRequest.t.
Definition leb (a b : t) : bool :=
  match InterpreterRequest.is_stat a, InterpreterRequest.is_stat b with
  | true, false => true
  | false, true => false
  | _, _ => InterpreterRequest.requested_at a <=? InterpreterRequest.requested_at b
  end.
Theorem leb_total : forall a b, leb a b = true \/ leb b a = true.
Proof.
  intros a b. unfold leb.
  destruct (InterpreterRequest.is_stat a), (InterpreterRequest.is_stat b); auto;
    rewrite !Z.leb_le; lia.
Qed.
End PendingOrder.

Module PendingSort := Sort PendingOrder.

Definition is_pending_in (language : string) (r : InterpreterRequest.t) : bool :=
  (InterpreterRequest.language r =? language)%string
  && RequestStatus_eqb (InterpreterRequest.status r) PENDING.

(** The query of the endpoint: filter on language and status, then order.
    Between two rows that agree on both sort keys the store fixes no order;
    the sort used here keeps one. *)
Definition pending_requests (language : string) (db : DB) : list InterpreterRequest.t :=
  PendingSort.sort (filter (is_pending_in language) (interpreter_requests db)).

Module RequestWithDetails.
Record t := mk {
  request : InterpreterRequest.t;
  patient : PatientData.t;
  interpreter : option InterpreterData.t
}.
End RequestWithDetails.

(** The loop that joins each request with its patient; the response model
    requires a patient, so a request whose patient row is missing fails its
    validation. *)
Fixpoint with_patient (db : DB) (requests : list InterpreterRequest.t)
  : Result (list RequestWithDetails.t) :=
  match requests with
  | [] => Ok []
  | req :: rest =>
      match patient_by_id (InterpreterRequest.patient_id req) db with
      | None => Raised InternalServerError
      | Some patient =>
          match with_patient db rest with
          | Ok result => Ok (RequestWithDetails.mk req patient None :: result)
          | Raised e => Raised e
          end
      end
  end.

Definition get_pending_requests_for_interpreter (current_user : string)
  : Handler (list RequestWithDetails.t) :=
  interpreter <- first_or_raise (interpreter_by_login current_user) InterpreterProfileNotFound ;;
  fun db => (with_patient db (pending_requests (InterpreterData.language interpreter) db), db).

(** *** [POST /api/patients/sync/{fhir_id}] *)

(** What [parse_patient_resource] extracts from a Patient resource. *)
Module ParsedPatient.
Record t := mk {
  fhir_id : option string;
  name : string;
  gender : option string;
  birthdate : option string;
  phone_number : option string;
  email : option string;
  address : option string;
  language : string
}.
End ParsedPatient.

Definition add_patient (row : PatientData.t) : Handler unit :=
  fun db =>
    if existsb (fun p => (PatientData.id p =? PatientData.id row)%string
                         || (PatientData.fhir_id p =? PatientData.fhir_id row)%string)
               (patient_data db)
    then (Raised InternalServerError, db)
    else (Ok tt, set_patients (fun rows => (rows ++ [row])%list) db).

Section Directory.

(** The directory server: [fhir_client.get_patient] followed by
    [parse_patient_resource]; [None] when the server has no such patient or
    cannot be reached. *)
Variable get_patient : string -> option ParsedPatient.t.

Definition sync_patient_from_fhir (fhir_id new_id : string) : Handler PatientData.t :=
  existing <- query (patient_by_fhir_id fhir_id) ;;
  match existing with
  | Some existing => ret existing
  | None =>
      match get_patient fhir_id with
      | None => raise PatientNotFoundInFHIR
      | Some patient_data =>
          match ParsedPatient.fhir_id patient_data with
          | None => raise InternalServerError (* fhir_id is NOT NULL *)
          | Some parsed_id =>
              let new_patient :=
                PatientData.mk new_id parsed_id
                  (ParsedPatient.name patient_data) None
                  (ParsedPatient.birthdate patient_data)
                  (ParsedPatient.gender patient_data)
                  (ParsedPatient.address patient_data)
                  (ParsedPatient.phone_number patient_data)
                  (ParsedPatient.email patient_data)
                  (ParsedPatient.language patient_data) in
              add_patient new_patient ;;;
              ret new_patient
          end
      end
  end.

End Directory.

(** *** [GET /api/requests/{request_id}] *)

Definition interpreter_by_id (interpreter_id : string) (db : DB)
  : option InterpreterData.t :=
  find (fun i => InterpreterData.id i =? interpreter_id)%string (interpreter_data db).

(** [if req.interpreter_id:] and the lookup of the interpreter row. *)
Definition assigned_interpreter (req : InterpreterRequest.t) (db : DB)
  : option InterpreterData.t :=
  match InterpreterRequest.interpreter_id req with
  | Some assigned =>
      if truthy (Some assigned) then interpreter_by_id assigned db else None
  | None => None
  end.

(** The response model of one request: its patient, which the model requires,
    and the interpreter that [interpreter_of] gives. *)
Definition with_details (interpreter_of : InterpreterRequest.t -> option InterpreterData.t)
    (db : DB) (req : InterpreterRequest.t) : Result RequestWithDetails.t :=
  match patient_by_id (InterpreterRequest.patient_id req) db with
  | None => Raised InternalServerError
  | Some patient => Ok (RequestWithDetails.mk req patient (interpreter_of req))
  end.

(** The [for req in requests] loop that builds the list of responses. *)
Fixpoint with_all_details (interpreter_of : InterpreterRequest.t -> option InterpreterData.t)
    (db : DB) (requests : list InterpreterRequest.t)
  : Result (list RequestWithDetails.t) :=
  match requests with
  | [] => Ok []
  | req :: rest =>
      match with_details interpreter_of db req with
      | Raised e => Raised e
      | Ok details =>
          match with_all_details interpreter_of db rest with
          | Ok result => Ok (details :: result)
          | Raised e => Raised e
          end
      end
  end.

Definition get_request (request_id : string) : Handler RequestWithDetails.t :=
  request <- first_or_raise (request_by_id request_id) RequestNotFound ;;
  fun db => (with_details (fun req => assigned_interpreter req db) db request, db).

(** *** [GET /api/requests] *)

(** [ORDER BY is_stat DESC, requested_at DESC]. *)
Definition urgent_newest_leb (a b : InterpreterRequest.t) : bool :=
  match InterpreterRequest.is_stat a, InterpreterRequest.is_stat b with
  | true, false => true
  | false, true => false
  | _, _ => InterpreterRequest.requested_at b <=? InterpreterRequest.requested_at a
  end.

Lemma urgent_newest_leb_total a b :
  urgent_newest_leb a b = true \/ urgent_newest_leb b a = true.
Proof.
  unfold urgent_newest_leb.
  destruct (InterpreterRequest.is_stat a), (InterpreterRequest.is_stat b); auto;
    rewrite !Z.leb_le; lia.
Qed.

Module UrgentNewestOrder <: TotalLeBool.
Definition t := InterpreterRequest.t.
Definition leb := urgent_newest_leb.
Definition leb_total := urgent_newest_leb_total.
End UrgentNewestOrder.

Module UrgentNewestSort := Sort UrgentNewestOrder.

(** [if status_filter: query = query.filter(status == status_filter)]. *)
Definition filter_status (status_filter : option RequestStatus)
    (rows : list InterpreterRequest.t) : list InterpreterRequest.t :=
  match status_filter with
  | Some wanted =>
      filter (fun r => RequestStatus_eqb (InterpreterRequest.status r) wanted) rows
  | None => rows
  end.

(** The query of the endpoint, for [skip] and [limit] that are not negative:
    [.offset(skip).limit(limit)] on the ordered rows. *)
Definition all_requests (skip limit : nat) (status_filter : option RequestStatus)
    (db : DB) : list InterpreterRequest.t :=
  firstn limit
    (skipn skip
       (UrgentNewestSort.sort (filter_status status_filter (interpreter_requests db)))).

Definition get_all_requests (skip limit : nat) (status_filter : option RequestStatus)
  : Handler (list RequestWithDetails.t) :=
  fun db =>
    (with_all_details (fun req => assigned_interpreter req db) db
       (all_requests skip limit status_filter db), db).

(** *** [GET /api/interpreter/requests/my] *)

(** [ORDER BY accepted_at DESC]; a row without [accepted_at] sorts as the
    smallest value, so it comes last. *)
Definition latest_accepted_leb (a b : InterpreterRequest.t) : bool :=
  match InterpreterRequest.accepted_at a, InterpreterRequest.accepted_at b with
  | Some ta, Some tb => tb <=? ta
  | Some _, None => true
  | None, Some _ => false
  | None, None => true
  end.

Lemma latest_accepted_leb_total a b :
  latest_accepted_leb a b = true \/ latest_accepted_leb b a = true.
Proof.
  unfold latest_accepted_leb.
  destruct (InterpreterRequest.accepted_at a), (InterpreterRequest.accepted_at b); auto.
  rewrite !Z.leb_le. lia.
Qed.

Module LatestAcceptedOrder <: TotalLeBool.
Definition t := InterpreterRequest.t.
Definition leb := latest_accepted_leb.
Definition leb_total := latest_accepted_leb_total.
End LatestAcceptedOrder.

Module LatestAcceptedSort := Sort LatestAcceptedOrder.

(** [interpreter_id == interpreter.id] and [status.in_([ACCEPTED])]. *)
Definition is_held_by (interpreter_id : string) (r : InterpreterRequest.t) : bool :=
  option_string_eqb (InterpreterRequest.interpreter_id r) interpreter_id
  && existsb (RequestStatus_eqb (InterpreterRequest.status r)) [ACCEPTED].

Definition my_requests (interpreter_id : string) (db : DB) : list InterpreterRequest.t :=
  LatestAcceptedSort.sort (filter (is_held_by interpreter_id) (interpreter_requests db)).

Definition get_my_requests (current_user : string)
  : Handler (list RequestWithDetails.t) :=
  interpreter <- first_or_raise (interpreter_by_login current_user) InterpreterProfileNotFound ;;
  fun db =>
    (with_all_details (fun _ => Some interpreter) db
       (my_requests (InterpreterData.id interpreter) db), db).

(** *** [GET /api/interpreters], [GET /api/interpreters/me] *)

Definition interpreters_query (language : option string) (available_only : bool)
    (db : DB) : list InterpreterData.t :=
  let rows := interpreter_data db in
  let rows :=
    if truthy language
    then filter (fun i => option_string_eqb language (InterpreterData.language i)) rows
    else rows in
  if available_only
  then filter (fun i => InterpreterAvailability_eqb
                          (InterpreterData.availability_status i) AVAILABLE) rows
  else rows.

Definition get_interpreters (language : option string) (available_only : bool)
  : Handler (list InterpreterData.t) :=
  query (interpreters_query language available_only).

Definition get_my_interpreter_profile (current_user : string)
  : Handler InterpreterData.t :=
  first_or_raise (interpreter_by_login current_user) InterpreterProfileNotFound.

(** *** [GET /api/patients/{patient_id}] *)

Definition get_patient (patient_id : string) : Handler PatientData.t :=
  first_or_raise (patient_by_id patient_id) PatientNotFound.

(** *** [GET /api/dashboard/stats] *)

Module AvailabilityStats.
Record t := mk { language : string; available_count : nat }.
End AvailabilityStats.

Module DashboardStats.
Record t := mk {
  available_interpreters : nat;
  pending_requests : nat;
  total_languages : nat;
  availability_by_language : list AvailabilityStats.t
}.
End DashboardStats.

Definition is_available (i : InterpreterData.t) : bool :=
  InterpreterAvailability_eqb (InterpreterData.availability_status i) AVAILABLE.

Definition is_pending (r : InterpreterRequest.t) : bool :=
  RequestStatus_eqb (InterpreterRequest.status r) PENDING.

(** [db.query(InterpreterData.language).distinct().all()]. *)
Definition distinct_languages (db : DB) : list string :=
  nodup string_dec (map InterpreterData.language (interpreter_data db)).

Definition available_in (language : string) (db : DB) : nat :=
  List.length
    (filter (fun i => (InterpreterData.language i =? language)%string && is_available i)
            (interpreter_data db)).

Definition get_dashboard_stats : Handler DashboardStats.t :=
  query (fun db =>
    let languages := distinct_languages db in
    DashboardStats.mk
      (List.length (filter is_available (interpreter_data db)))
      (List.length (filter is_pending (interpreter_requests db)))
      (List.length languages)
      (map (fun lang => AvailabilityStats.mk lang (available_in lang db)) languages)).


(** ** Sequences of engine operations *)

Inductive Operation :=
| CreateRequest (request : RequestCreate.t) (new_id : string) (now : datetime)
                (current_user : string)
| Accept (request_id : string) (now : datetime) (current_user : string)
| Complete (request_id : string) (updates : RequestUpdate.t) (now : datetime)
           (current_user : string)
| UpdateProfile (updates : InterpreterUpdate.t) (current_user : string).

(** The database after one operation, whether it answered or raised. *)
Definition perform (op : Operation) (db : DB) : DB :=
  match op with
  | CreateRequest request new_id now current_user =>
      snd (create_request request new_id now current_user db)
  | Accept request_id now current_user =>
      snd (accept_request request_id now current_user db)
  | Complete request_id updates now current_user =>
      snd (complete_request request_id updates now current_user db)
  | UpdateProfile updates current_user =>
      snd (update_my_interpreter_profile updates current_user db)
  end.

Definition perform_all (ops : list Operation) (db : DB) : DB :=
  fold_left (fun db op => perform op db) ops db.

(** ** Two accept calls in flight

    The endpoint takes no row lock and its UPDATE carries no condition on the
    status it read, so a call is two steps of the store: the reads with
    their checks, then the commit of what the call decided on those reads. *)

Inductive AcceptCall :=
| Called (request_id : string) (now : datetime) (current_user : string)
| Loaded (now : datetime) (loaded : InterpreterData.t * InterpreterRequest.t)
| Returned (response : Result InterpreterRequest.t).

Definition call_step (c : AcceptCall) (db : DB) : AcceptCall * DB :=
  match c with
  | Called request_id now current_user =>
      match accept_check request_id current_user db with
      | (Ok loaded, db') => (Loaded now loaded, db')
      | (Raised e, db') => (Returned (Raised e), db')
      end
  | Loaded now loaded =>
      let (response, db') := accept_write now loaded db in
      (Returned response, db')
  | Returned response => (Returned response, db)
  end.

Inductive Turn := FirstCall | SecondCall.

Fixpoint run_calls (schedule : list Turn) (a b : AcceptCall) (db : DB)
  : AcceptCall * AcceptCall * DB :=
  match schedule with
  | [] => (a, b, db)
  | FirstCall :: schedule =>
      let (a', db') := call_step a db in run_calls schedule a' b db'
  | SecondCall :: schedule =>
      let (b', db') := call_step b db in run_calls schedule a b' db'
  end.

(** The first call runs to its end before the second starts. *)
Definition one_after_the_other : list Turn :=
  [FirstCall; FirstCall; SecondCall; SecondCall].

(** Both calls read before either commits. *)
Definition overlapping : list Turn :=
  [FirstCall; SecondCall; FirstCall; SecondCall].

(** ** Accounts: the guards of [auth.py] and the account endpoints of [main.py] *)

Inductive UserType := STAFF | INTERPRETER | ADMIN.

Module LoginInformation.
Record t := mk {
  id : string;
  username : string;
  password : string;
  user_type : UserType
}.
End LoginInformation.

Module UserCreate.
Record t := mk { username : string; password : string; user_type : UserType }.
End UserCreate.

Module LoginRequest.
Record t := mk { username : string; password : string }.
End LoginRequest.

(** The body the login endpoint answers with. *)
Module LoginResponse.
Record t := mk {
  access_token : string;
  token_type : string;
  user_type : UserType;
  user_id : string
}.
End LoginResponse.

Module InterpreterCreate.
Record t := mk {
  name : string;
  language : string;
  phone_number : option string;
  email : option string;
  gender : option string;
  gender_preference : option string;
  username : string;
  password : string
}.
End InterpreterCreate.

(** The response of [create_interpreter]: the columns of the new interpreter
    row, which hold the login id, and the username. *)
Module InterpreterWithLogin.
Record t := mk { interpreter : InterpreterData.t; username : string }.
End InterpreterWithLogin.

(** The [login_information] table beside the tables of the engine. *)
Record Accounts := mkAccounts {
  login_information : list LoginInformation.t;
  tables : DB
}.

Definition UsernameExists := mkHTTP 400 "Username already exists".
Definition IncorrectCredentials := mkHTTP 401 "Incorrect username or password".
Definition StaffRequired := mkHTTP 403 "Staff access required".
Definition InterpreterRequired := mkHTTP 403 "Interpreter access required".
Definition AdminRequired := mkHTTP 403 "Admin access required".

Definition require_staff (current_user : LoginInformation.t)
  : Result LoginInformation.t :=
  match LoginInformation.user_type current_user with
  | STAFF | ADMIN => Ok current_user
  | INTERPRETER => Raised StaffRequired
  end.

Definition require_interpreter (current_user : LoginInformation.t)
  : Result LoginInformation.t :=
  match LoginInformation.user_type current_user with
  | INTERPRETER => Ok current_user
  | STAFF | ADMIN => Raised InterpreterRequired
  end.

Definition require_admin (current_user : LoginInformation.t)
  : Result LoginInformation.t :=
  match LoginInformation.user_type current_user with
  | ADMIN => Ok current_user
  | STAFF | INTERPRETER => Raised AdminRequired
  end.

(** [current_user = Depends(guard)]: the endpoint runs for the user the guard
    lets through, and not at all when the guard raises. *)
Definition depends {A} (guard : LoginInformation.t -> Result LoginInformation.t)
    (endpoint : string -> Handler A) (current_user : LoginInformation.t) : Handler A :=
  fun db =>
    match guard current_user with
    | Ok user => endpoint (LoginInformation.id user) db
    | Raised e => (Raised e, db)
    end.

Definition user_by_username (username : string) (accounts : Accounts)
  : option LoginInformation.t :=
  find (fun u => LoginInformation.username u =? username)%string
       (login_information accounts).

(** [db.add(login)] with the primary key and the unique username of the
    table. *)
Definition login_row_allowed (row : LoginInformation.t) (accounts : Accounts) : bool :=
  negb (existsb (fun u => (LoginInformation.id u =? LoginInformation.id row)%string
                          || (LoginInformation.username u
                              =? LoginInformation.username row)%string)
                (login_information accounts)).

(** [db.add(interpreter)] with the primary key and the unique login_id of the
    table. *)
Definition interpreter_row_allowed (row : InterpreterData.t) (db : DB) : bool :=
  negb (existsb (fun i => (InterpreterData.id i =? InterpreterData.id row)%string
                          || (InterpreterData.login_id i
                              =? InterpreterData.login_id row)%string)
                (interpreter_data db)).

Section Credentials.

(** The password context: hashing draws a salt, verification does not. *)
Variable get_password_hash : string -> string -> string.
Variable verify_password : string -> string -> bool.

(** The signed token for a subject, issued at a time. *)
Variable create_access_token : string -> datetime -> string.

Definition register (user : UserCreate.t) (new_id salt : string)
    (accounts : Accounts) : Result LoginInformation.t * Accounts :=
  match user_by_username (UserCreate.username user) accounts with
  | Some _ => (Raised UsernameExists, accounts)
  | None =>
      let new_user :=
        LoginInformation.mk new_id (UserCreate.username user)
          (get_password_hash salt (UserCreate.password user))
          (UserCreate.user_type user) in
      if login_row_allowed new_user accounts
      then (Ok new_user,
            mkAccounts (login_information accounts ++ [new_user])%list
                       (tables accounts))
      else (Raised InternalServerError, accounts)
  end.

Definition login (credentials : LoginRequest.t) (now : datetime)
    (accounts : Accounts) : Result LoginResponse.t * Accounts :=
  match user_by_username (LoginRequest.username credentials) accounts with
  | None => (Raised IncorrectCredentials, accounts)
  | Some user =>
      if negb (verify_password (LoginRequest.password credentials)
                               (LoginInformation.password user))
      then (Raised IncorrectCredentials, accounts)
      else (Ok (LoginResponse.mk
                  (create_access_token (LoginInformation.id user) now)
                  "bearer"
                  (LoginInformation.user_type user)
                  (LoginInformation.id user)),
            accounts)
  end.

(** The account row and the profile row that [create_interpreter] builds;
    the profile's availability is the default of the column. *)
Definition interpreter_login (interpreter : InterpreterCreate.t)
    (new_login_id salt : string) : LoginInformation.t :=
  LoginInformation.mk new_login_id (InterpreterCreate.username interpreter)
    (get_password_hash salt (InterpreterCreate.password interpreter))
    INTERPRETER.

Definition interpreter_profile (interpreter : InterpreterCreate.t)
    (new_login_id new_interpreter_id : string) : InterpreterData.t :=
  InterpreterData.mk new_interpreter_id new_login_id
    (InterpreterCreate.name interpreter)
    (InterpreterCreate.phone_number interpreter)
    (InterpreterCreate.email interpreter)
    (InterpreterCreate.language interpreter)
    (InterpreterCreate.gender interpreter)
    (InterpreterCreate.gender_preference interpreter)
    AVAILABLE.

Definition create_interpreter (interpreter : InterpreterCreate.t)
    (new_login_id new_interpreter_id salt : string) (accounts : Accounts)
  : Result InterpreterWithLogin.t * Accounts :=
  match user_by_username (InterpreterCreate.username interpreter) accounts with
  | Some _ => (Raised UsernameExists, accounts)
  | None =>
      let new_login := interpreter_login interpreter new_login_id salt in
      let new_interpreter :=
        interpreter_profile interpreter new_login_id new_interpreter_id in
      if login_row_allowed new_login accounts
         && interpreter_row_allowed new_interpreter (tables accounts)
      then (Ok (InterpreterWithLogin.mk new_interpreter
                  (LoginInformation.username new_login)),
            mkAccounts
              (login_information accounts ++ [new_login])%list
              (set_interpreters (fun rows => rows ++ [new_interpreter])%list
                                (tables accounts)))
      else (Raised InternalServerError, accounts)
  end.

End Credentials.


(** ** The directory client: [fhir_client.py] and [POST /api/patients/create]

    A Patient resource is read and written through the keys below; a key
    that is absent is [None], an absent list is the empty list. A character
    of a string is a code point below 256. *)

(** [str.isspace] on one character. *)
Definition isspace (c : Ascii.ascii) : bool :=
  let n := Ascii.nat_of_ascii c in
  ((9 <=? n)%nat && (n <=? 13)%nat)
  || ((28 <=? n)%nat && (n <=? 32)%nat)
  || (n =? 133)%nat || (n =? 160)%nat.

Fixpoint lstrip (chars : Ascii.ascii -> bool) (s : string) : string :=
  match s with
  | EmptyString => EmptyString
  | String c rest => if chars c then lstrip chars rest else s
  end.

Fixpoint rstrip (chars : Ascii.ascii -> bool) (s : string) : string :=
  match s with
  | EmptyString => EmptyString
  | String c rest =>
      match rstrip chars rest with
      | EmptyString => if chars c then EmptyString else String c EmptyString
      | kept => String c kept
      end
  end.

(** [s.strip()] with [isspace], [s.strip(", ")] with [comma_or_space]. *)
Definition strip (chars : Ascii.ascii -> bool) (s : string) : string :=
  lstrip chars (rstrip chars s).

Definition comma_or_space (c : Ascii.ascii) : bool :=
  let n := Ascii.nat_of_ascii c in (n =? 44)%nat || (n =? 32)%nat.

(** [s.split()]: the maximal runs of characters that are not whitespace;
    [word] is the run being read. *)
Fixpoint split_from (word : string) (s : string) : list string :=
  match s with
  | EmptyString => match word with EmptyString => [] | _ => [word] end
  | String c rest =>
      if isspace c
      then match word with
           | EmptyString => split_from EmptyString rest
           | _ => word :: split_from EmptyString rest
           end
      else split_from (word ++ String c EmptyString) rest
  end.

Definition split (s : string) : list string := split_from EmptyString s.

Module HumanName.
Record t := mk {
  use : option string;
  text : option string;
  family : option string;
  given : list string
}.
End HumanName.

Module ContactPoint.
Record t := mk { system : option string; value : option string; use : option string }.
End ContactPoint.

Module Address.
Record t := mk {
  use : option string;
  type : option string;
  text : option string;
  line : list string;
  city : option string;
  state : option string;
  postalCode : option string
}.
End Address.

Module Coding.
Record t := mk { system : option string; display : option string }.
End Coding.

(** A communication, with the coding and the text of its language. *)
Module Communication.
Record t := mk {
  coding : list Coding.t;
  text : option string;
  preferred : bool
}.
End Communication.

Module Patient.
Record t := mk {
  id : option string;
  name : list HumanName.t;
  gender : option string;
  birthDate : option string;
  telecom : list ContactPoint.t;
  address : list Address.t;
  communication : list Communication.t
}.
End Patient.

(** [d.get(key, default)] for a string. *)
Definition get_or (default : string) (value : option string) : string :=
  match value with
  | Some v => v
  | None => default
  end.

Definition _get_patient_name (patient : Patient.t) : string :=
  match Patient.name patient with
  | name :: _ =>
      let given := String.concat " " (HumanName.given name) in
      let family := get_or "" (HumanName.family name) in
      strip isspace (given ++ " " ++ family)
  | [] => "Unknown"
  end.

Definition _get_telecom (patient : Patient.t) (system : string) : option string :=
  match find (fun t => option_string_eqb (ContactPoint.system t) system)
             (Patient.telecom patient) with
  | Some telecom => ContactPoint.value telecom
  | None => None
  end.

Definition _get_address (patient : Patient.t) : option string :=
  match Patient.address patient with
  | addr :: _ =>
      Some (strip comma_or_space
              (String.concat ", " (Address.line addr) ++ ", "
               ++ get_or "" (Address.city addr) ++ ", "
               ++ get_or "" (Address.state addr) ++ " "
               ++ get_or "" (Address.postalCode addr)))
  | [] => None
  end.

(** The loop over the communications: the first preferred one that has a
    coding decides. *)
Fixpoint preferred_language (communications : list Communication.t) : string :=
  match communications with
  | [] => "English"
  | comm :: rest =>
      if Communication.preferred comm
      then match Communication.coding comm with
           | coding :: _ => get_or "English" (Coding.display coding)
           | [] => preferred_language rest
           end
      else preferred_language rest
  end.

Definition _get_language (patient : Patient.t) : string :=
  preferred_language (Patient.communication patient).

Definition parse_patient_resource (fhir_patient : Patient.t) : ParsedPatient.t :=
  ParsedPatient.mk
    (Patient.id fhir_patient)
    (_get_patient_name fhir_patient)
    (Patient.gender fhir_patient)
    (Patient.birthDate fhir_patient)
    (_get_telecom fhir_patient "phone")
    (_get_telecom fhir_patient "email")
    (_get_address fhir_patient)
    (_get_language fhir_patient).

(** The body of [POST /api/patients/create]. *)
Module PatientCreate.
Record t := mk {
  name : string;
  language : string;
  birthdate : string;
  gender : string;
  location : option string;
  address : option string;
  phone_number : option string;
  email : option string
}.
End PatientCreate.

(** Why a creation failed: the [IndexError] of a name that is only
    whitespace, the directory server, or the local store. *)
Inductive CreateFailure := IndexError | UpstreamFailure | StoreFailure.

Definition nonempty (s : string) : bool :=
  match s with
  | EmptyString => false
  | String _ _ => true
  end.

(** The Patient resource that [FHIRClient.create_patient] posts; [None] is
    the [IndexError] of [name.split()[-1]] on a name without a word. *)
Definition build_patient_resource (patient_data : PatientCreate.t) : option Patient.t :=
  let name := PatientCreate.name patient_data in
  let words := split name in
  match (if nonempty name
         then match words with
              | [] => None
              | _ => Some (last words "", removelast words)
              end
         else Some ("", [])) with
  | None => None
  | Some (family, given) =>
      let telecom :=
        ((if truthy (PatientCreate.phone_number patient_data)
          then [ContactPoint.mk (Some "phone") (PatientCreate.phone_number patient_data)
                  (Some "mobile")]
          else [])
         ++ (if truthy (PatientCreate.email patient_data)
             then [ContactPoint.mk (Some "email") (PatientCreate.email patient_data) None]
             else []))%list in
      let address :=
        if truthy (PatientCreate.address patient_data)
        then [Address.mk (Some "home") (Some "physical")
                (PatientCreate.address patient_data) [] None None None]
        else [] in
      let communication :=
        if nonempty (PatientCreate.language patient_data)
        then [Communication.mk
                [Coding.mk (Some "urn:ietf:bcp:47")
                   (Some (PatientCreate.language patient_data))]
                (Some (PatientCreate.language patient_data)) true]
        else [] in
      Some (Patient.mk None
              [HumanName.mk (Some "official") (Some name) (Some family) given]
              (Some (PatientCreate.gender patient_data))
              (Some (PatientCreate.birthdate patient_data))
              telecom address communication)
  end.

(** The local row for a parsed patient; [fhir_id] is NOT NULL. *)
Definition patient_row (new_id : string) (location : option string)
    (parsed : ParsedPatient.t) : option PatientData.t :=
  match ParsedPatient.fhir_id parsed with
  | None => None
  | Some fhir_id =>
      Some (PatientData.mk new_id fhir_id (ParsedPatient.name parsed) location
              (ParsedPatient.birthdate parsed) (ParsedPatient.gender parsed)
              (ParsedPatient.address parsed) (ParsedPatient.phone_number parsed)
              (ParsedPatient.email parsed) (ParsedPatient.language parsed))
  end.

Section CreatePatient.

(** The directory server's answer to the POST of a resource; [None] when it
    fails. *)
Variable post_patient : Patient.t -> option Patient.t.

(** [str(e)] of the exception behind a failure. *)
Variable describe : CreateFailure -> string.

Definition CreatePatientFailed (cause : CreateFailure) : HTTPException :=
  mkHTTP 500 ("Failed to create patient: " ++ describe cause).

Definition create_patient (patient_data : PatientCreate.t) (new_id : string)
  : Handler PatientData.t :=
  fun db =>
    match build_patient_resource patient_data with
    | None => (Raised (CreatePatientFailed IndexError), db)
    | Some resource =>
        match post_patient resource with
        | None => (Raised (CreatePatientFailed UpstreamFailure), db)
        | Some fhir_patient =>
            let parsed := parse_patient_resource fhir_patient in
            let location :=
              if truthy (PatientCreate.location patient_data)
              then PatientCreate.location patient_data
              else None in
            match patient_row new_id location parsed with
            | None => (Raised (CreatePatientFailed StoreFailure), db)
            | Some new_patient =>
                match add_patient new_patient db with
                | (Ok _, db') => (Ok new_patient, db')
                | (Raised _, _) => (Raised (CreatePatientFailed StoreFailure), db)
                end
            end
        end
    end.

End CreatePatient.


(** ** Properties of requests, queues and runs *)

(** [a] may stand before [b] in the queue: STAT before non-STAT and, within
    the same urgency, the older request first. *)
Definition comes_before (a b : InterpreterRequest.t) : Prop :=
  (InterpreterRequest.is_stat a = true /\ InterpreterRequest.is_stat b = false)
  \/ (InterpreterRequest.is_stat a = InterpreterRequest.is_stat b
      /\ InterpreterRequest.requested_at a <= InterpreterRequest.requested_at b).

(** A request has an interpreter exactly when it is ACCEPTED or COMPLETED. *)
Definition assignment_consistent (r : InterpreterRequest.t) : Prop :=
  (InterpreterRequest.interpreter_id r <> None
   <-> InterpreterRequest.status r = ACCEPTED \/ InterpreterRequest.status r = COMPLETED)
  /\ (InterpreterRequest.interpreter_id r = None
      <-> InterpreterRequest.status r = PENDING \/ InterpreterRequest.status r = CANCELLED).

(** The primary key of the request table, and the invariant on every row. *)
Definition engine_invariant (db : DB) : Prop :=
  NoDup (map InterpreterRequest.id (interpreter_requests db))
  /\ (forall r, In r (interpreter_requests db) -> assignment_consistent r).

(** The call [winner] took the request and the call [loser] was refused:
    the winner answered with the request as the store now has it, ACCEPTED
    and assigned to the winner's interpreter; the loser raised
    RequestNotPending and its interpreter row is what it was. *)
Definition won_by (winner loser : AcceptCall)
    (winner_login loser_login request_id : string) (db db' : DB) : Prop :=
  exists accepted interpreter,
    winner = Returned (Ok accepted)
    /\ loser = Returned (Raised RequestNotPending)
    /\ interpreter_by_login winner_login db = Some interpreter
    /\ request_by_id request_id db' = Some accepted
    /\ InterpreterRequest.status accepted = ACCEPTED
    /\ InterpreterRequest.interpreter_id accepted
       = Some (InterpreterData.id interpreter)
    /\ interpreter_by_login loser_login db' = interpreter_by_login loser_login db.

Definition exactly_one_accepts (schedule : list Turn) (request_id : string)
    (now_a : datetime) (user_a : string) (now_b : datetime) (user_b : string)
    (db : DB) : Prop :=
  let '(a, b, db') :=
    run_calls schedule (Called request_id now_a user_a)
                       (Called request_id now_b user_b) db in
  won_by a b user_a user_b request_id db db'
  \/ won_by b a user_b user_a request_id db db'.

(** The lifecycle order of the statuses: a request stays where it is, or
    moves from PENDING to ACCEPTED and from ACCEPTED to COMPLETED. *)
Definition later_status (s s' : RequestStatus) : Prop :=
  s = s'
  \/ (s = PENDING /\ (s' = ACCEPTED \/ s' = COMPLETED))
  \/ (s = ACCEPTED /\ s' = COMPLETED).

(** The columns that the submission of a request fixes. *)
Definition same_submission (r r' : InterpreterRequest.t) : Prop :=
  InterpreterRequest.id r' = InterpreterRequest.id r
  /\ InterpreterRequest.requested_by r' = InterpreterRequest.requested_by r
  /\ InterpreterRequest.patient_id r' = InterpreterRequest.patient_id r
  /\ InterpreterRequest.location_method r' = InterpreterRequest.location_method r
  /\ InterpreterRequest.delivery_method r' = InterpreterRequest.delivery_method r
  /\ InterpreterRequest.language r' = InterpreterRequest.language r
  /\ InterpreterRequest.patient_type r' = InterpreterRequest.patient_type r
  /\ InterpreterRequest.is_stat r' = InterpreterRequest.is_stat r
  /\ InterpreterRequest.duration_minutes r' = InterpreterRequest.duration_minutes r
  /\ InterpreterRequest.request_notes r' = InterpreterRequest.request_notes r
  /\ InterpreterRequest.requested_at r' = InterpreterRequest.requested_at r.

(** What may become of a request row: its submission is kept, its status
    moves forward, the assignment made at acceptance is kept, and a
    COMPLETED or CANCELLED row is kept whole. *)
Definition evolves (r r' : InterpreterRequest.t) : Prop :=
  same_submission r r'
  /\ later_status (InterpreterRequest.status r) (InterpreterRequest.status r')
  /\ (InterpreterRequest.status r <> PENDING ->
      InterpreterRequest.interpreter_id r' = InterpreterRequest.interpreter_id r
      /\ InterpreterRequest.accepted_at r' = InterpreterRequest.accepted_at r)
  /\ (InterpreterRequest.status r = COMPLETED \/ InterpreterRequest.status r = CANCELLED ->
      r' = r).


(** [a] may stand before [b] among an interpreter's requests: where both
    have an accepted_at, [a] was accepted no earlier than [b]. *)
Definition accepted_no_earlier (a b : InterpreterRequest.t) : Prop :=
  forall ta tb,
    InterpreterRequest.accepted_at a = Some ta ->
    InterpreterRequest.accepted_at b = Some tb ->
    tb <= ta.

(** [a] may stand before [b] in the list of all requests: STAT before
    non-STAT and, within the same urgency, the newer request first. *)
Definition urgent_then_newer (a b : InterpreterRequest.t) : Prop :=
  (InterpreterRequest.is_stat a = true /\ InterpreterRequest.is_stat b = false)
  \/ (InterpreterRequest.is_stat a = InterpreterRequest.is_stat b
      /\ InterpreterRequest.requested_at b <= InterpreterRequest.requested_at a).


(** Every character of the string passes the test. *)
Fixpoint all_chars (test : Ascii.ascii -> bool) (s : string) : bool :=
  match s with
  | EmptyString => true
  | String c rest => test c && all_chars test rest
  end.

(** A word: not empty, and without whitespace. *)
Definition is_word (w : string) : Prop :=
  w <> "" /\ all_chars (fun c => negb (isspace c)) w = true.

(** The contact points, addresses and communications before the first one
    that a test selects do not pass it. *)
Definition none_passes {A} (test : A -> bool) (l : list A) : Prop :=
  forall x, In x l -> test x = false.

Definition decides_language (comm : Communication.t) : bool :=
  Communication.preferred comm && negb (Nat.eqb (List.length (Communication.coding comm)) 0).


(** The resource as the directory server returns it once stored under an
    id. *)
Definition stored_as (fhir_id : string) (resource : Patient.t) : Patient.t :=
  Patient.mk (Some fhir_id) (Patient.name resource) (Patient.gender resource)
    (Patient.birthDate resource) (Patient.telecom resource)
    (Patient.address resource) (Patient.communication resource).


(** ** Sample data *)

(** Minutes since midnight of one day, for the examples. *)
Definition clock (hours minutes : Z) : datetime := hours * 60 + minutes.

Definition ahmed : InterpreterData.t :=
  InterpreterData.mk "interp-arabic1" "login-arabic1" "Ahmed Hassan"
    (Some "+1-555-0003") None "Arabic" (Some "Other") None AVAILABLE.

Definition fatima : InterpreterData.t :=
  InterpreterData.mk "interp-arabic2" "login-arabic2" "Fatima Al-Sayed"
    (Some "+1-555-0004") None "Arabic" (Some "Other") None AVAILABLE.

Definition li_wei : InterpreterData.t :=
  InterpreterData.mk "interp-mandarin1" "login-mandarin1" "Li Wei"
    (Some "+1-555-0000") None "Mandarin" (Some "Other") None UNAVAILABLE.

Definition mohammed : PatientData.t :=
  PatientData.mk "pat-2" "patient-002" "Mohammed Ali" (Some "Emergency Department")
    (Some "1978-07-22") (Some "male") None (Some "+1-555-0002") None "Arabic".

Definition arabic_request (id : string) (is_stat : bool) (requested_at : datetime)
  : InterpreterRequest.t :=
  InterpreterRequest.mk id "staff-1" "pat-2" None "Phone Call" TELEPHONE "Arabic"
    PENDING None is_stat None None None requested_at None None.

Definition R1 := arabic_request "R1" false (clock 10 0).
Definition R2 := arabic_request "R2" true (clock 10 5).
Definition R3 := arabic_request "R3" false (clock 9 50).

(** A Mandarin request that Li Wei holds, accepted at 09:00. *)
Definition R4 : InterpreterRequest.t :=
  InterpreterRequest.mk "R4" "staff-1" "pat-2" (Some "interp-mandarin1") "Ward 4A"
    ONSITE "Mandarin" ACCEPTED None false None None None (clock 8 0)
    (Some (clock 9 0)) None.

Definition sample_db : DB :=
  mkDB [mohammed] [ahmed; fatima; li_wei] [R1; R2; R3; R4].

(** Li Wei back to AVAILABLE, with one Arabic request to see. *)
Definition mandarin_db : DB :=
  mkDB [mohammed]
       [InterpreterData.set_availability_status AVAILABLE li_wei]
       [R1].

Definition no_notes : RequestUpdate.t := RequestUpdate.mk None None.

(** R4 once Li Wei has completed it. *)
Definition finished_db : DB :=
  mkDB [mohammed] [ahmed; li_wei]
       [R2; InterpreterRequest.set_status COMPLETED R4].

Definition arabic_body : RequestCreate.t :=
  RequestCreate.mk "pat-2" "Phone Call" TELEPHONE "Arabic" None true None None.

Definition unknown_patient_body : RequestCreate.t :=
  RequestCreate.mk "pat-404" "Phone Call" TELEPHONE "Arabic" None true None None.

(** A directory that knows no patient. *)
Definition silent_directory (fhir_id : string) : option ParsedPatient.t := None.

(** Staff files R5, Ahmed accepts it, then completes it. *)
Definition engagement : list Operation :=
  [CreateRequest arabic_body "R5" (clock 10 40) "staff-1";
   Accept "R5" (clock 10 45) "login-arabic1";
   Complete "R5" no_notes (clock 11 30) "login-arabic1"].

(** A pending Mandarin request, beside R4 that Li Wei holds. *)
Definition R6 : InterpreterRequest.t :=
  InterpreterRequest.mk "R6" "staff-1" "pat-2" None "Outpatient Clinic 3" ONSITE
    "Mandarin" PENDING None false None None None (clock 9 30) None None.

Definition mandarin_ward_db : DB :=
  mkDB [mohammed] [ahmed; li_wei] [R4; R6].

Definition encounter_done : RequestUpdate.t :=
  RequestUpdate.mk None (Some "Consent discussion completed.").

Definition go_available : InterpreterUpdate.t :=
  InterpreterUpdate.mk (Some AVAILABLE) None None.


(** A directory that knows one patient, Tran Thi Lan. *)
Definition hapi_directory (fhir_id : string) : option ParsedPatient.t :=
  if (fhir_id =? "patient-007")%string
  then Some (ParsedPatient.mk (Some "patient-007") "Tran Thi Lan" (Some "female")
               (Some "1990-11-08") (Some "+1-555-0003") None None "Vietnamese")
  else None.

(** The row the sync stores for her under the id pat-7. *)
Definition tran : PatientData.t :=
  PatientData.mk "pat-7" "patient-007" "Tran Thi Lan" None (Some "1990-11-08")
    (Some "female") None (Some "+1-555-0003") None "Vietnamese".

Definition vietnamese_body : RequestCreate.t :=
  RequestCreate.mk "pat-7" "Telehealth Link" TELEHEALTH "Vietnamese" None false
    (Some "60") None.


(** A password context for the examples: the hash keeps the salt in front of
    the password, and verification compares what follows the salt. *)
Definition sample_hash (salt password : string) : string :=
  salt ++ "$" ++ password.

Fixpoint after_dollar (hashed : string) : string :=
  match hashed with
  | EmptyString => EmptyString
  | String c rest => if Ascii.eqb c (Ascii.ascii_of_nat 36) then rest else after_dollar rest
  end.

Definition sample_verify (plain hashed : string) : bool :=
  (after_dollar hashed =? plain)%string.

Definition sample_token (subject : string) (now : datetime) : string :=
  "token-for-" ++ subject.

Definition staff1 : LoginInformation.t :=
  LoginInformation.mk "login-staff1" "staff1" (sample_hash "s1" "password123") STAFF.

Definition sample_accounts : Accounts := mkAccounts [staff1] sample_db.

Definition new_mandarin_interpreter : InterpreterCreate.t :=
  InterpreterCreate.mk "Chen Ming" "Mandarin" None None (Some "Other") None
    "interpreter_mandarin2" "password123".


Definition new_patient_body : PatientCreate.t :=
  PatientCreate.mk "Nguyen  Van An" "Vietnamese" "1984-02-11" "male"
    (Some "Ward 2") (Some "12 Harbour St, Springfield") (Some "+1-555-0111") None.

Definition blank_name_body : PatientCreate.t :=
  PatientCreate.mk "   " "Vietnamese" "1984-02-11" "male" None None None None.

(** A directory server that stores what it is sent under the id
    patient-100. *)
Definition echo_server (resource : Patient.t) : option Patient.t :=
  Some (Patient.mk (Some "patient-100") (Patient.name resource)
          (Patient.gender resource) (Patient.birthDate resource)
          (Patient.telecom resource) (Patient.address resource)
          (Patient.communication resource)).

Definition sample_describe (cause : CreateFailure) : string :=
  match cause with
  | IndexError => "list index out of range"
  | UpstreamFailure => "500: Failed to create patient in FHIR server"
  | StoreFailure => "IntegrityError"
  end.


(** ** Basic facts *)

Lemma RequestStatus_eqb_eq (a b : RequestStatus) :
  RequestStatus_eqb a b = true <-> a = b.
Proof. destruct a, b; simpl; split; congruence. Qed.

Lemma InterpreterAvailability_eqb_eq (a b : InterpreterAvailability) :
  InterpreterAvailability_eqb a b = true <-> a = b.
Proof. destruct a, b; simpl; split; congruence. Qed.

Lemma InterpreterAvailability_eqb_neq (a b : InterpreterAvailability) :
  InterpreterAvailability_eqb a b = false <-> a <> b.
Proof. destruct a, b; simpl; split; congruence. Qed.

Lemma RequestStatus_eqb_neq (a b : RequestStatus) :
  RequestStatus_eqb a b = false <-> a <> b.
Proof. destruct a, b; simpl; split; congruence. Qed.

(** A lookup after an UPDATE that leaves the looked-up column alone finds the
    same row, updated if the UPDATE selected it. *)
Lemma find_update_where {A} (key sel : A -> bool) (f : A -> A) (rows : list A) :
  (forall r, key (f r) = key r) ->
  find key (update_where sel f rows)
  = option_map (fun r => if sel r then f r else r) (find key rows).
Proof.
  intros Hkey. induction rows as [|r rows IH]; simpl; [reflexivity|].
  assert (Hk : key (if sel r then f r else r) = key r)
    by (destruct (sel r); auto).
  rewrite Hk. destruct (key r); simpl; auto.
Qed.

Lemma find_conj {A} (p q : A -> bool) (rows : list A) (x : A) :
  find p rows = Some x -> q x = true ->
  find (fun r => p r && q r) rows = Some x.
Proof.
  induction rows as [|r rows IH]; simpl; [discriminate|].
  destruct (p r) eqn:Hp; simpl.
  - intros [= ->] Hq. now rewrite Hq.
  - auto.
Qed.

Lemma find_none_iff {A} (p : A -> bool) (rows : list A) :
  find p rows = None <-> (forall r, In r rows -> p r = false).
Proof.
  split.
  - intros H r Hr. exact (find_none p rows H r Hr).
  - induction rows as [|r rows IH]; simpl; intros H; [reflexivity|].
    rewrite (H r (or_introl eq_refl)). apply IH. intros; apply H; now right.
Qed.

Lemma update_where_ids {A} (pk : A -> string) (sel : A -> bool) (f : A -> A)
    (rows : list A) :
  (forall r, pk (f r) = pk r) ->
  map pk (update_where sel f rows) = map pk rows.
Proof.
  intros Hpk. unfold update_where. rewrite map_map. apply map_ext.
  intros r. destruct (sel r); auto.
Qed.

Lemma In_update_where {A} (sel : A -> bool) (f : A -> A) (rows : list A) (x : A) :
  In x (update_where sel f rows) ->
  exists r, In r rows /\ x = (if sel r then f r else r).
Proof.
  unfold update_where. rewrite in_map_iff. intros (r & <- & Hr). eauto.
Qed.

(** The primary key identifies the row. *)
Lemma keyed_rows_eq {A} (pk : A -> string) (rows : list A) (a b : A) :
  NoDup (map pk rows) -> In a rows -> In b rows -> pk a = pk b -> a = b.
Proof.
  induction rows as [|r rows IH]; simpl; [tauto|].
  intros Hnd Ha Hb Hk. inversion Hnd as [|? ? Hnotin Hnd']; subst.
  destruct Ha as [<-|Ha], Hb as [<-|Hb]; auto.
  - exfalso. apply Hnotin. rewrite Hk. now apply in_map.
  - exfalso. apply Hnotin. rewrite <- Hk. now apply in_map.
Qed.

Arguments interpreter_by_login : simpl never.
Arguments request_by_id : simpl never.
Arguments request_by_id_assigned : simpl never.
Arguments patient_by_id : simpl never.
Arguments patient_by_fhir_id : simpl never.
Arguments accept_changes : simpl never.
Arguments complete_changes : simpl never.
Arguments accept_fields : simpl never.
Arguments complete_fields : simpl never.

(** Rewrite with the facts known about the reads, reducing the handler
    between two of them. *)
Ltac step_with H := cbn; rewrite H; cbn.

Ltac unfold_handlers :=
  unfold accept_request, accept_check, accept_write,
         complete_request, complete_check, complete_write,
         create_request, add_request, update_my_interpreter_profile,
         bind, first_or_raise, raise_if, ret, raise, commit, query in *.

(** ** The paths of [accept_request] *)

Section AcceptPaths.

Variables (request_id current_user : string) (now : datetime) (db : DB).
Variable interpreter : InterpreterData.t.
Hypothesis Hprofile : interpreter_by_login current_user db = Some interpreter.

Lemma accept_raises_not_available :
  InterpreterData.availability_status interpreter <> AVAILABLE ->
  accept_request request_id now current_user db = (Raised NotAvailable, db).
Proof.
  intros Hav. apply InterpreterAvailability_eqb_neq in Hav.
  unfold_handlers. step_with Hprofile. now step_with Hav.
Qed.

Hypothesis Havailable : InterpreterData.availability_status interpreter = AVAILABLE.

Lemma accept_raises_not_found :
  request_by_id request_id db = None ->
  accept_request request_id now current_user db = (Raised RequestNotFound, db).
Proof.
  intros Hreq. unfold_handlers.
  step_with Hprofile. step_with Havailable. now step_with Hreq.
Qed.

Variable request : InterpreterRequest.t.
Hypothesis Hrequest : request_by_id request_id db = Some request.

Lemma accept_raises_not_pending :
  InterpreterRequest.status request <> PENDING ->
  accept_request request_id now current_user db = (Raised RequestNotPending, db).
Proof.
  intros Hst. apply RequestStatus_eqb_neq in Hst.
  unfold_handlers.
  step_with Hprofile. step_with Havailable. step_with Hrequest. now step_with Hst.
Qed.

Hypothesis Hpending : InterpreterRequest.status request = PENDING.

Lemma accept_raises_mismatch :
  InterpreterRequest.language request <> InterpreterData.language interpreter ->
  accept_request request_id now current_user db = (Raised LanguageMismatch, db).
Proof.
  intros Hlang. apply String.eqb_neq in Hlang.
  unfold_handlers.
  step_with Hprofile. step_with Havailable. step_with Hrequest.
  step_with Hpending. now step_with Hlang.
Qed.

Hypothesis Hlanguage :
  InterpreterRequest.language request = InterpreterData.language interpreter.

Lemma accept_check_passes :
  accept_check request_id current_user db = (Ok (interpreter, request), db).
Proof.
  unfold_handlers.
  step_with Hprofile. step_with Havailable. step_with Hrequest.
  step_with Hpending. rewrite Hlanguage. now step_with String.eqb_refl.
Qed.

Lemma accept_answers :
  accept_request request_id now current_user db
  = (Ok (accept_fields (InterpreterData.id interpreter) now request),
     accept_changes now interpreter request db).
Proof.
  unfold accept_request, bind. rewrite accept_check_passes. reflexivity.
Qed.

End AcceptPaths.

Lemma accept_raises_no_profile request_id now current_user db :
  interpreter_by_login current_user db = None ->
  accept_request request_id now current_user db
  = (Raised InterpreterProfileNotFound, db).
Proof. intros H. unfold_handlers. now step_with H. Qed.

(** Every answer of [accept_request] comes from the path where the four
    checks pass. *)
Lemma accept_request_inv request_id now current_user db response db' :
  accept_request request_id now current_user db = (Ok response, db') ->
  exists interpreter request,
    interpreter_by_login current_user db = Some interpreter
    /\ InterpreterData.availability_status interpreter = AVAILABLE
    /\ request_by_id request_id db = Some request
    /\ InterpreterRequest.status request = PENDING
    /\ InterpreterRequest.language request = InterpreterData.language interpreter
    /\ response = accept_fields (InterpreterData.id interpreter) now request
    /\ db' = accept_changes now interpreter request db.
Proof.
  intros H.
  destruct (interpreter_by_login current_user db) as [i|] eqn:Hi;
    [|rewrite accept_raises_no_profile in H by assumption; discriminate].
  destruct (InterpreterData.availability_status i) eqn:Hav;
    try (rewrite (accept_raises_not_available request_id current_user now db i Hi) in H
          by congruence; discriminate).
  destruct (request_by_id request_id db) as [r|] eqn:Hr;
    [|rewrite (accept_raises_not_found request_id current_user now db i Hi Hav Hr) in H;
      discriminate].
  destruct (InterpreterRequest.status r) eqn:Hst;
    try (rewrite (accept_raises_not_pending request_id current_user now db i Hi Hav r Hr) in H
          by congruence; discriminate).
  destruct (String.eqb_spec (InterpreterRequest.language r) (InterpreterData.language i))
    as [Hl|Hl];
    [|rewrite (accept_raises_mismatch request_id current_user now db i Hi Hav r Hr Hst Hl) in H;
      discriminate].
  rewrite (accept_answers request_id current_user now db i Hi Hav r Hr Hst Hl) in H.
  injection H as <- <-. exists i, r. repeat split; auto.
Qed.

(** The store after the commit of an accept. *)
Section AfterAccept.

Variables (now : datetime) (db : DB).
Variables (interpreter : InterpreterData.t) (request : InterpreterRequest.t).

Lemma accept_changes_requests :
  interpreter_requests (accept_changes now interpreter request db)
  = update_where
      (fun r => InterpreterRequest.id r =? InterpreterRequest.id request)%string
      (accept_fields (InterpreterData.id interpreter) now)
      (interpreter_requests db).
Proof. reflexivity. Qed.

Lemma accept_changes_interpreters :
  interpreter_data (accept_changes now interpreter request db)
  = update_where
      (fun i => InterpreterData.id i =? InterpreterData.id interpreter)%string
      (InterpreterData.set_availability_status BUSY)
      (interpreter_data db).
Proof. reflexivity. Qed.

Lemma accept_changes_request request_id :
  request_by_id request_id db = Some request ->
  request_by_id request_id (accept_changes now interpreter request db)
  = Some (accept_fields (InterpreterData.id interpreter) now request).
Proof.
  intros H. unfold request_by_id in *. rewrite accept_changes_requests.
  rewrite find_update_where by reflexivity. rewrite H. simpl.
  now rewrite String.eqb_refl.
Qed.

Lemma accept_changes_interpreter current_user :
  interpreter_by_login current_user db = Some interpreter ->
  interpreter_by_login current_user (accept_changes now interpreter request db)
  = Some (InterpreterData.set_availability_status BUSY interpreter).
Proof.
  intros H. unfold interpreter_by_login in *. rewrite accept_changes_interpreters.
  rewrite find_update_where by reflexivity. rewrite H. simpl.
  now rewrite String.eqb_refl.
Qed.

Lemma accept_changes_other_interpreter login other :
  interpreter_by_login login db = Some other ->
  InterpreterData.id other <> InterpreterData.id interpreter ->
  interpreter_by_login login (accept_changes now interpreter request db) = Some other.
Proof.
  intros H Hid. unfold interpreter_by_login in *. rewrite accept_changes_interpreters.
  rewrite find_update_where by reflexivity. rewrite H. simpl.
  apply String.eqb_neq in Hid. now rewrite Hid.
Qed.

End AfterAccept.

(** ** The paths of [complete_request] *)

Section CompletePaths.

Variables (request_id current_user : string) (updates : RequestUpdate.t).
Variables (now : datetime) (db : DB).
Variable interpreter : InterpreterData.t.
Hypothesis Hprofile : interpreter_by_login current_user db = Some interpreter.

Lemma complete_raises_not_yours :
  request_by_id_assigned request_id (InterpreterData.id interpreter) db = None ->
  complete_request request_id updates now current_user db
  = (Raised NotYourRequest, db).
Proof.
  intros Hreq. unfold_handlers. step_with Hprofile. now step_with Hreq.
Qed.

Variable request : InterpreterRequest.t.
Hypothesis Hrequest :
  request_by_id_assigned request_id (InterpreterData.id interpreter) db = Some request.

Lemma complete_raises_not_accepted :
  InterpreterRequest.status request <> ACCEPTED ->
  complete_request request_id updates now current_user db
  = (Raised RequestNotAccepted, db).
Proof.
  intros Hst. apply RequestStatus_eqb_neq in Hst.
  unfold_handlers. step_with Hprofile. step_with Hrequest. now step_with Hst.
Qed.

Lemma complete_answers :
  InterpreterRequest.status request = ACCEPTED ->
  complete_request request_id updates now current_user db
  = (Ok (complete_fields updates now request),
     complete_changes updates now interpreter request db).
Proof.
  intros Hst. unfold_handlers. step_with Hprofile. step_with Hrequest.
  now step_with Hst.
Qed.

End CompletePaths.

Lemma complete_raises_no_profile request_id updates now current_user db :
  interpreter_by_login current_user db = None ->
  complete_request request_id updates now current_user db
  = (Raised InterpreterProfileNotFound, db).
Proof. intros H. unfold_handlers. now step_with H. Qed.

Lemma complete_request_inv request_id updates now current_user db response db' :
  complete_request request_id updates now current_user db = (Ok response, db') ->
  exists interpreter request,
    interpreter_by_login current_user db = Some interpreter
    /\ request_by_id_assigned request_id (InterpreterData.id interpreter) db = Some request
    /\ InterpreterRequest.status request = ACCEPTED
    /\ response = complete_fields updates now request
    /\ db' = complete_changes updates now interpreter request db.
Proof.
  intros H.
  destruct (interpreter_by_login current_user db) as [i|] eqn:Hi;
    [|rewrite complete_raises_no_profile in H by assumption; discriminate].
  destruct (request_by_id_assigned request_id (InterpreterData.id i) db) as [r|] eqn:Hr;
    [|rewrite (complete_raises_not_yours request_id current_user updates now db i Hi Hr) in H;
      discriminate].
  destruct (InterpreterRequest.status r) eqn:Hst;
    try (rewrite (complete_raises_not_accepted request_id current_user updates now db i Hi r Hr)
          in H by congruence; discriminate).
  rewrite (complete_answers request_id current_user updates now db i Hi r Hr Hst) in H.
  injection H as <- <-. exists i, r. repeat split; auto.
Qed.

Lemma complete_changes_interpreter updates now db interpreter request current_user :
  interpreter_by_login current_user db = Some interpreter ->
  interpreter_by_login current_user (complete_changes updates now interpreter request db)
  = Some (InterpreterData.set_availability_status AVAILABLE interpreter).
Proof.
  intros H. unfold interpreter_by_login in *. unfold complete_changes. simpl.
  rewrite find_update_where by reflexivity. rewrite H. simpl.
  now rewrite String.eqb_refl.
Qed.

(** ** Accept *)

(** C1. An accept call by an interpreter with a profile answers if and only
    if the interpreter is AVAILABLE, the request exists, it is PENDING and
    its language is the interpreter's. When it answers, the stored request is
    the response: the request that was read with status ACCEPTED,
    interpreter_id the accepting interpreter's id and accepted_at the time of
    the call, and the interpreter is BUSY. Otherwise the first check that
    fails, in the order availability, existence, status, language, raises
    NotAvailable, RequestNotFound, RequestNotPending or LanguageMismatch. *)
Theorem accept_request_contract
    (request_id : string) (now : datetime) (current_user : string) (db : DB)
    (interpreter : InterpreterData.t)
    (Hprofile : interpreter_by_login current_user db = Some interpreter) :
  let outcome := accept_request request_id now current_user db in
  ((exists response, fst outcome = Ok response) <->
     (InterpreterData.availability_status interpreter = AVAILABLE
      /\ exists request,
           request_by_id request_id db = Some request
           /\ InterpreterRequest.status request = PENDING
           /\ InterpreterRequest.language request
              = InterpreterData.language interpreter))
  /\ (forall response, fst outcome = Ok response ->
        (exists request,
            request_by_id request_id db = Some request
            /\ response = accept_fields (InterpreterData.id interpreter) now request)
        /\ request_by_id request_id (snd outcome) = Some response
        /\ InterpreterRequest.status response = ACCEPTED
        /\ InterpreterRequest.interpreter_id response
           = Some (InterpreterData.id interpreter)
        /\ InterpreterRequest.accepted_at response = Some now
        /\ interpreter_by_login current_user (snd outcome)
           = Some (InterpreterData.set_availability_status BUSY interpreter)
        /\ InterpreterData.availability_status
             (InterpreterData.set_availability_status BUSY interpreter) = BUSY)
  /\ (InterpreterData.availability_status interpreter <> AVAILABLE ->
        outcome = (Raised NotAvailable, db))
  /\ (InterpreterData.availability_status interpreter = AVAILABLE ->
      request_by_id request_id db = None ->
        outcome = (Raised RequestNotFound, db))
  /\ (forall request,
        InterpreterData.availability_status interpreter = AVAILABLE ->
        request_by_id request_id db = Some request ->
        InterpreterRequest.status request <> PENDING ->
        outcome = (Raised RequestNotPending, db))
  /\ (forall request,
        InterpreterData.availability_status interpreter = AVAILABLE ->
        request_by_id request_id db = Some request ->
        InterpreterRequest.status request = PENDING ->
        InterpreterRequest.language request <> InterpreterData.language interpreter ->
        outcome = (Raised LanguageMismatch, db)).
Proof.
  intros outcome. subst outcome.
  repeat apply conj.
  - intros [response Hok].
    destruct (accept_request request_id now current_user db) as [res db'] eqn:Hacc.
    simpl in Hok. subst res.
    apply accept_request_inv in Hacc
      as (i & r & Hi & Hav & Hr & Hst & Hl & _ & _).
    assert (i = interpreter) by congruence. subst i. eauto 6.
  - intros (Hav & r & Hr & Hst & Hl).
    rewrite (accept_answers request_id current_user now db interpreter Hprofile Hav r Hr Hst Hl).
    simpl. eauto.
  - intros response Hok.
    destruct (accept_request request_id now current_user db) as [res db'] eqn:Hacc.
    simpl in Hok. subst res.
    apply accept_request_inv in Hacc
      as (i & r & Hi & Hav & Hr & Hst & Hl & -> & ->).
    assert (i = interpreter) by congruence. subst i. simpl.
    repeat apply conj; try reflexivity.
    + eauto.
    + now apply accept_changes_request.
    + now apply accept_changes_interpreter.
  - intros. now apply accept_raises_not_available with interpreter.
  - intros. now apply accept_raises_not_found with interpreter.
  - intros request **. now apply accept_raises_not_pending with interpreter request.
  - intros request **. now apply accept_raises_mismatch with interpreter request.
Qed.

Lemma accept_request_contract_witness :
  interpreter_by_login "login-arabic1" sample_db = Some ahmed
  /\ (exists response,
         fst (accept_request "R2" (clock 10 30) "login-arabic1" sample_db) = Ok response)
  /\ accept_request "R9" (clock 10 30) "login-arabic1" sample_db
     = (Raised RequestNotFound, sample_db).
Proof.
  pose proof (accept_request_contract "R2" (clock 10 30) "login-arabic1" sample_db
                ahmed eq_refl) as H2.
  pose proof (accept_request_contract "R9" (clock 10 30) "login-arabic1" sample_db
                ahmed eq_refl) as H9.
  cbv zeta in H2, H9.
  destruct H2 as [[_ Hanswers] _].
  destruct H9 as (_ & _ & _ & Hmissing & _).
  split; [reflexivity|split].
  - apply Hanswers. split; [reflexivity|].
    exists R2. repeat split; reflexivity.
  - apply Hmissing; reflexivity.
Defined.

(** C10. Availability is checked before the request is looked up: for an
    interpreter who is not AVAILABLE the call raises NotAvailable whatever
    the request id and whatever the request table holds (no such request, a
    request that is not PENDING, a request in another language), and the
    store is left as it was. *)
Theorem accept_checks_availability_first
    (current_user : string) (db : DB) (interpreter : InterpreterData.t)
    (Hprofile : interpreter_by_login current_user db = Some interpreter)
    (Hstate : InterpreterData.availability_status interpreter <> AVAILABLE) :
  forall (request_id : string) (now : datetime)
         (requests : list InterpreterRequest.t),
    accept_request request_id now current_user (set_requests (fun _ => requests) db)
    = (Raised NotAvailable, set_requests (fun _ => requests) db).
Proof.
  intros request_id now requests.
  apply accept_raises_not_available with interpreter; auto.
Qed.

Lemma accept_checks_availability_first_witness :
  interpreter_by_login "login-mandarin1" sample_db = Some li_wei
  /\ InterpreterData.availability_status li_wei <> AVAILABLE
  /\ accept_request "R2" (clock 10 30) "login-mandarin1" sample_db
     = (Raised NotAvailable, sample_db)
  /\ accept_request "R9" (clock 10 30) "login-mandarin1" sample_db
     = (Raised NotAvailable, sample_db).
Proof.
  assert (Hstate : InterpreterData.availability_status li_wei <> AVAILABLE)
    by discriminate.
  pose proof (accept_checks_availability_first "login-mandarin1" sample_db li_wei
                eq_refl Hstate) as H.
  split; [reflexivity|split; [exact Hstate|split]].
  - exact (H "R2" (clock 10 30) (interpreter_requests sample_db)).
  - exact (H "R9" (clock 10 30) (interpreter_requests sample_db)).
Defined.

(** C6. An accept call by an AVAILABLE interpreter on an existing PENDING
    request in another language raises LanguageMismatch and leaves the whole
    store as it was: the request row, with its status, interpreter_id and
    timestamps, and the interpreter row, with its availability. *)
Theorem accept_language_mismatch_changes_nothing
    (request_id : string) (now : datetime) (current_user : string) (db : DB)
    (interpreter : InterpreterData.t) (request : InterpreterRequest.t)
    (Hprofile : interpreter_by_login current_user db = Some interpreter)
    (Havailable : InterpreterData.availability_status interpreter = AVAILABLE)
    (Hrequest : request_by_id request_id db = Some request)
    (Hpending : InterpreterRequest.status request = PENDING)
    (Hlanguage : InterpreterRequest.language request
                 <> InterpreterData.language interpreter) :
  let outcome := accept_request request_id now current_user db in
  fst outcome = Raised LanguageMismatch
  /\ snd outcome = db
  /\ request_by_id request_id (snd outcome) = Some request
  /\ interpreter_by_login current_user (snd outcome) = Some interpreter.
Proof.
  intros outcome. subst outcome.
  rewrite (accept_raises_mismatch request_id current_user now db interpreter
             Hprofile Havailable request Hrequest Hpending Hlanguage).
  simpl. auto.
Qed.

Lemma accept_language_mismatch_changes_nothing_witness :
  fst (accept_request "R1" (clock 10 30) "login-mandarin1" mandarin_db)
  = Raised LanguageMismatch
  /\ snd (accept_request "R1" (clock 10 30) "login-mandarin1" mandarin_db)
     = mandarin_db.
Proof.
  assert (Hlanguage : InterpreterRequest.language R1
                      <> InterpreterData.language
                           (InterpreterData.set_availability_status AVAILABLE li_wei))
    by discriminate.
  pose proof (accept_language_mismatch_changes_nothing "R1" (clock 10 30)
                "login-mandarin1" mandarin_db
                (InterpreterData.set_availability_status AVAILABLE li_wei) R1
                eq_refl eq_refl eq_refl eq_refl Hlanguage) as H.
  cbv zeta in H. destruct H as (H1 & H2 & _). split; assumption.
Defined.

(** ** Availability after accept and complete *)

(** C4. After an accept call that answers, the accepting interpreter's row is
    the one it was with availability BUSY; after a complete call that
    answers, the completing interpreter's row is the one it was with
    availability AVAILABLE, whatever its availability was before the call
    (UNAVAILABLE set during the engagement included). *)
Theorem availability_after_accept_and_complete :
  (forall request_id now current_user db response,
      fst (accept_request request_id now current_user db) = Ok response ->
      exists before after,
        interpreter_by_login current_user db = Some before
        /\ interpreter_by_login current_user
             (snd (accept_request request_id now current_user db)) = Some after
        /\ after = InterpreterData.set_availability_status BUSY before
        /\ InterpreterData.availability_status after = BUSY)
  /\ (forall request_id updates now current_user db response,
      fst (complete_request request_id updates now current_user db) = Ok response ->
      exists before after,
        interpreter_by_login current_user db = Some before
        /\ interpreter_by_login current_user
             (snd (complete_request request_id updates now current_user db)) = Some after
        /\ after = InterpreterData.set_availability_status AVAILABLE before
        /\ InterpreterData.availability_status after = AVAILABLE).
Proof.
  split.
  - intros request_id now current_user db response Hok.
    destruct (accept_request request_id now current_user db) as [res db'] eqn:Hacc.
    simpl in Hok. subst res.
    apply accept_request_inv in Hacc as (i & r & Hi & _ & _ & _ & _ & _ & ->).
    exists i, (InterpreterData.set_availability_status BUSY i). simpl.
    repeat apply conj; auto. now apply accept_changes_interpreter.
  - intros request_id updates now current_user db response Hok.
    destruct (complete_request request_id updates now current_user db)
      as [res db'] eqn:Hcomp.
    simpl in Hok. subst res.
    apply complete_request_inv in Hcomp as (i & r & Hi & _ & _ & _ & ->).
    exists i, (InterpreterData.set_availability_status AVAILABLE i). simpl.
    repeat apply conj; auto. now apply complete_changes_interpreter.
Qed.

(** Li Wei set UNAVAILABLE while holding R4; completing R4 makes Li Wei
    AVAILABLE. *)
Lemma availability_after_accept_and_complete_witness :
  option_map InterpreterData.availability_status
    (interpreter_by_login "login-mandarin1" sample_db) = Some UNAVAILABLE
  /\ (exists after,
        interpreter_by_login "login-mandarin1"
          (snd (complete_request "R4" no_notes (clock 9 45) "login-mandarin1" sample_db))
        = Some after
        /\ InterpreterData.availability_status after = AVAILABLE)
  /\ (exists after,
        interpreter_by_login "login-arabic1"
          (snd (accept_request "R2" (clock 10 30) "login-arabic1" sample_db))
        = Some after
        /\ InterpreterData.availability_status after = BUSY).
Proof.
  destruct availability_after_accept_and_complete as [Haccept Hcomplete].
  split; [reflexivity|split].
  - destruct (Hcomplete "R4" no_notes (clock 9 45) "login-mandarin1" sample_db
                (complete_fields no_notes (clock 9 45) R4) eq_refl)
      as (before & after & _ & Hafter & _ & Hstate).
    exists after. split; assumption.
  - destruct (Haccept "R2" (clock 10 30) "login-arabic1" sample_db
                (accept_fields "interp-arabic1" (clock 10 30) R2) eq_refl)
      as (before & after & _ & Hafter & _ & Hstate).
    exists after. split; assumption.
Defined.

(** ** Failures of complete *)

(** C5. A complete call by an interpreter with a profile raises
    NotYourRequest when no request with that id is assigned to the caller,
    and RequestNotAccepted when the request is assigned to the caller and its
    status is not ACCEPTED; in both cases the store is left as it was, so
    every field of the request and the interpreter's availability are what
    they were. *)
Theorem complete_request_failures
    (request_id : string) (updates : RequestUpdate.t) (now : datetime)
    (current_user : string) (db : DB) (interpreter : InterpreterData.t)
    (Hprofile : interpreter_by_login current_user db = Some interpreter) :
  let outcome := complete_request request_id updates now current_user db in
  ((forall r, In r (interpreter_requests db) ->
              InterpreterRequest.id r = request_id ->
              InterpreterRequest.interpreter_id r
              <> Some (InterpreterData.id interpreter)) ->
     outcome = (Raised NotYourRequest, db))
  /\ (forall request,
        request_by_id request_id db = Some request ->
        InterpreterRequest.interpreter_id request
        = Some (InterpreterData.id interpreter) ->
        InterpreterRequest.status request <> ACCEPTED ->
        outcome = (Raised RequestNotAccepted, db)
        /\ request_by_id request_id (snd outcome) = Some request
        /\ interpreter_by_login current_user (snd outcome) = Some interpreter).
Proof.
  intros outcome. subst outcome. split.
  - intros Hrows.
    apply complete_raises_not_yours with interpreter; auto.
    unfold request_by_id_assigned. apply find_none_iff. intros r Hr.
    destruct (String.eqb_spec (InterpreterRequest.id r) request_id) as [Hid|]; auto.
    simpl. specialize (Hrows r Hr Hid).
    destruct (InterpreterRequest.interpreter_id r) as [assigned|]; simpl; auto.
    apply String.eqb_neq. congruence.
  - intros request Hrequest Hassigned Hstatus.
    assert (Hfound : request_by_id_assigned request_id
                       (InterpreterData.id interpreter) db = Some request).
    { unfold request_by_id_assigned, request_by_id in *.
      apply (find_conj _ (fun r => option_string_eqb
                                     (InterpreterRequest.interpreter_id r)
                                     (InterpreterData.id interpreter)));
        auto.
      rewrite Hassigned. simpl. apply String.eqb_refl. }
    rewrite (complete_raises_not_accepted request_id current_user updates now db
               interpreter Hprofile request Hfound Hstatus).
    simpl. auto.
Qed.

Lemma complete_request_failures_witness :
  interpreter_by_login "login-arabic1" finished_db = Some ahmed
  /\ complete_request "R4" no_notes (clock 11 0) "login-arabic1" finished_db
     = (Raised NotYourRequest, finished_db)
  /\ interpreter_by_login "login-mandarin1" finished_db = Some li_wei
  /\ complete_request "R4" no_notes (clock 11 0) "login-mandarin1" finished_db
     = (Raised RequestNotAccepted, finished_db).
Proof.
  pose proof (complete_request_failures "R4" no_notes (clock 11 0) "login-arabic1"
                finished_db ahmed eq_refl) as Hahmed.
  pose proof (complete_request_failures "R4" no_notes (clock 11 0) "login-mandarin1"
                finished_db li_wei eq_refl) as Hli.
  cbv zeta in Hahmed, Hli.
  destruct Hahmed as [Hnot_yours _]. destruct Hli as [_ Hnot_accepted].
  split; [reflexivity|split; [|split; [reflexivity|]]].
  - apply Hnot_yours.
    intros r [<-|[<-|[]]] Hid; discriminate.
  - assert (Hstatus : InterpreterRequest.status
                        (InterpreterRequest.set_status COMPLETED R4) <> ACCEPTED)
      by discriminate.
    exact (proj1 (Hnot_accepted (InterpreterRequest.set_status COMPLETED R4)
                    eq_refl eq_refl Hstatus)).
Defined.

(** ** Request submission *)

Lemma existsb_find {A} (p : A -> bool) (rows : list A) :
  existsb p rows = match find p rows with Some _ => true | None => false end.
Proof.
  induction rows as [|r rows IH]; simpl; [reflexivity|].
  destruct (p r); simpl; auto.
Qed.

Lemma find_app_new {A} (p : A -> bool) (rows : list A) (x : A) :
  find p rows = None -> p x = true -> find p (rows ++ [x]) = Some x.
Proof.
  induction rows as [|r rows IH]; simpl; intros Hnone Hx.
  - now rewrite Hx.
  - destruct (p r); [discriminate|auto].
Qed.

Lemma add_request_fresh row db :
  request_by_id (InterpreterRequest.id row) db = None ->
  add_request row db = (Ok tt, set_requests (fun rows => rows ++ [row])%list db).
Proof.
  intros Hfresh. unfold add_request, request_by_id in *.
  rewrite existsb_find, Hfresh. reflexivity.
Qed.

Lemma add_request_taken row db other :
  request_by_id (InterpreterRequest.id row) db = Some other ->
  add_request row db = (Raised InternalServerError, db).
Proof.
  intros Htaken. unfold add_request, request_by_id in *.
  rewrite existsb_find, Htaken. reflexivity.
Qed.

(** C8. A create call whose patient_id matches no patient row raises the 404
    "Patient not found" and leaves the store, so the request table, as it
    was. When the patient exists (and the generated id is not already a
    primary key of the table), the call appends one request row and answers
    with it: status PENDING, interpreter_id null, requested_at the time of
    the call, the other columns as the body gives them. *)
Theorem create_request_contract
    (request : RequestCreate.t) (new_id : string) (now : datetime)
    (current_user : string) (db : DB) :
  let outcome := create_request request new_id now current_user db in
  (patient_by_id (RequestCreate.patient_id request) db = None ->
     outcome = (Raised PatientNotFound, db)
     /\ status_code PatientNotFound = 404
     /\ interpreter_requests (snd outcome) = interpreter_requests db)
  /\ (forall patient,
        patient_by_id (RequestCreate.patient_id request) db = Some patient ->
        request_by_id new_id db = None ->
        exists created,
          outcome = (Ok created, set_requests (fun rows => rows ++ [created])%list db)
          /\ created = new_interpreter_request request new_id now current_user
          /\ InterpreterRequest.id created = new_id
          /\ InterpreterRequest.status created = PENDING
          /\ InterpreterRequest.interpreter_id created = None
          /\ InterpreterRequest.requested_at created = now
          /\ request_by_id new_id (snd outcome) = Some created).
Proof.
  intros outcome. subst outcome. split.
  - intros Hpatient. unfold_handlers. step_with Hpatient. auto.
  - intros patient Hpatient Hfresh.
    exists (new_interpreter_request request new_id now current_user).
    assert (Hcreate :
      create_request request new_id now current_user db
      = (Ok (new_interpreter_request request new_id now current_user),
         set_requests
           (fun rows => rows ++ [new_interpreter_request request new_id now current_user])%list
           db)).
    { unfold create_request, bind, first_or_raise, ret. rewrite Hpatient.
      rewrite add_request_fresh by exact Hfresh. reflexivity. }
    rewrite Hcreate. repeat apply conj; try reflexivity.
    unfold request_by_id in *. simpl.
    apply find_app_new; [exact Hfresh|]. simpl. apply String.eqb_refl.
Qed.

Lemma create_request_contract_witness :
  create_request arabic_body "R5" (clock 10 40) "staff-1" sample_db
  = (Ok (new_interpreter_request arabic_body "R5" (clock 10 40) "staff-1"),
     set_requests
       (fun rows =>
          rows ++ [new_interpreter_request arabic_body "R5" (clock 10 40) "staff-1"])%list
       sample_db)
  /\ create_request unknown_patient_body "R5" (clock 10 40) "staff-1" sample_db
     = (Raised PatientNotFound, sample_db).
Proof.
  pose proof (create_request_contract arabic_body "R5" (clock 10 40) "staff-1"
                sample_db) as Hknown.
  pose proof (create_request_contract unknown_patient_body "R5" (clock 10 40) "staff-1"
                sample_db) as Hunknown.
  cbv zeta in Hknown, Hunknown.
  destruct Hknown as [_ Hknown]. destruct Hunknown as [Hunknown _].
  split.
  - destruct (Hknown mohammed eq_refl eq_refl) as (created & Hout & -> & _).
    exact Hout.
  - exact (proj1 (Hunknown eq_refl)).
Defined.

(** ** Patient sync *)

Lemma add_patient_fhir_ids row db db' :
  add_patient row db = (Ok tt, db') ->
  db' = set_patients (fun rows => rows ++ [row])%list db
  /\ ~ In (PatientData.fhir_id row) (map PatientData.fhir_id (patient_data db)).
Proof.
  unfold add_patient.
  destruct (existsb _ (patient_data db)) eqn:Hex; [discriminate|].
  intros [= <-]. split; [reflexivity|].
  intros Hin. apply in_map_iff in Hin as (p & Hp & Hin).
  assert (Htrue : existsb
            (fun p => (PatientData.id p =? PatientData.id row)%string
                      || (PatientData.fhir_id p =? PatientData.fhir_id row)%string)
            (patient_data db) = true).
  { apply existsb_exists. exists p. split; [assumption|].
    rewrite Hp, String.eqb_refl. apply orb_true_r. }
  congruence.
Qed.

Lemma add_patient_unchanged row db e db' :
  add_patient row db = (Raised e, db') -> db' = db.
Proof.
  unfold add_patient. destruct (existsb _ (patient_data db)); congruence.
Qed.

(** Every answer of the sync is a row stored under its own external
    identifier; a sync that raises leaves the store as it was. *)
Lemma sync_patient_cases get_patient fhir_id new_id db :
  (exists existing,
      patient_by_fhir_id fhir_id db = Some existing
      /\ sync_patient_from_fhir get_patient fhir_id new_id db = (Ok existing, db))
  \/ (patient_by_fhir_id fhir_id db = None
      /\ exists e, sync_patient_from_fhir get_patient fhir_id new_id db = (Raised e, db))
  \/ (patient_by_fhir_id fhir_id db = None
      /\ exists created,
           sync_patient_from_fhir get_patient fhir_id new_id db
           = (Ok created, set_patients (fun rows => rows ++ [created])%list db)
           /\ ~ In (PatientData.fhir_id created)
                   (map PatientData.fhir_id (patient_data db))).
Proof.
  unfold sync_patient_from_fhir, bind, query, ret, raise.
  destruct (patient_by_fhir_id fhir_id db) as [existing|] eqn:Hex; [left; eauto|].
  right.
  destruct (get_patient fhir_id) as [parsed|]; [|left; eauto].
  destruct (ParsedPatient.fhir_id parsed) as [parsed_id|]; [|left; eauto].
  match goal with |- context [add_patient ?row db] => set (created := row) end.
  destruct (add_patient created db) as [[[]|e] db'] eqn:Hadd.
  - right. split; [reflexivity|]. exists created.
    pose proof (add_patient_fhir_ids _ _ _ Hadd) as [-> Hnew].
    split; [reflexivity|exact Hnew].
  - left. split; [reflexivity|]. exists e.
    now rewrite (add_patient_unchanged _ _ _ _ Hadd).
Qed.

(** C9. The sync is keyed by the external identifier. When a patient row with
    that fhir_id exists, a sync of it answers with that row and leaves the
    store as it was, whatever the directory would say and however often it is
    repeated; no sync ever stores a second row under an fhir_id; and after a
    sync that answered with a row stored under the requested identifier, a
    retry answers with the same row and changes nothing. *)
Theorem sync_patient_is_idempotent
    (get_patient : string -> option ParsedPatient.t) (fhir_id new_id : string)
    (db : DB) :
  (forall existing,
      patient_by_fhir_id fhir_id db = Some existing ->
      sync_patient_from_fhir get_patient fhir_id new_id db = (Ok existing, db)
      /\ PatientData.fhir_id existing = fhir_id
      /\ forall get_patient' new_id',
           sync_patient_from_fhir get_patient' fhir_id new_id'
             (snd (sync_patient_from_fhir get_patient fhir_id new_id db))
           = (Ok existing, db))
  /\ (NoDup (map PatientData.fhir_id (patient_data db)) ->
      NoDup (map PatientData.fhir_id
               (patient_data (snd (sync_patient_from_fhir get_patient fhir_id new_id db)))))
  /\ (forall synced db',
        sync_patient_from_fhir get_patient fhir_id new_id db = (Ok synced, db') ->
        PatientData.fhir_id synced = fhir_id ->
        forall get_patient' new_id',
          sync_patient_from_fhir get_patient' fhir_id new_id' db' = (Ok synced, db')).
Proof.
  assert (Hnoop : forall get new db0 existing,
             patient_by_fhir_id fhir_id db0 = Some existing ->
             sync_patient_from_fhir get fhir_id new db0 = (Ok existing, db0)).
  { intros get new db0 existing Hex.
    unfold sync_patient_from_fhir, bind, query, ret. now rewrite Hex. }
  repeat apply conj.
  - intros existing Hex. repeat apply conj.
    + now apply Hnoop.
    + unfold patient_by_fhir_id in Hex. apply find_some in Hex as [_ Hid].
      now apply String.eqb_eq.
    + intros get' new'. rewrite (Hnoop get_patient new_id db existing Hex). simpl.
      now apply Hnoop.
  - intros Hkeys.
    destruct (sync_patient_cases get_patient fhir_id new_id db)
      as [(existing & _ & ->)|[(_ & e & ->)|(_ & created & -> & Hnew)]];
      simpl; auto.
    rewrite map_app. simpl.
    apply NoDup_app; [assumption|repeat constructor; simpl; tauto|].
    intros x Hx [<-|[]]. contradiction.
  - intros synced db' Hsync Hid get' new'.
    apply Hnoop.
    destruct (sync_patient_cases get_patient fhir_id new_id db)
      as [(existing & Hex & Heq)|[(_ & e & Heq)|(Hnone & created & Heq & _)]];
      rewrite Heq in Hsync.
    + injection Hsync as <- <-. exact Hex.
    + discriminate.
    + injection Hsync as <- <-. unfold patient_by_fhir_id in *. simpl.
      apply find_app_new; [exact Hnone|]. now apply String.eqb_eq.
Qed.

Lemma sync_patient_is_idempotent_witness :
  patient_by_fhir_id "patient-002" sample_db = Some mohammed
  /\ sync_patient_from_fhir silent_directory "patient-002" "pat-9" sample_db
     = (Ok mohammed, sample_db).
Proof.
  destruct (sync_patient_is_idempotent silent_directory "patient-002" "pat-9" sample_db)
    as [Hexisting _].
  split; [reflexivity|].
  exact (proj1 (Hexisting mohammed eq_refl)).
Defined.

(** ** The pending queue *)

Lemma leb_comes_before a b :
  PendingOrder.leb a b = true <-> comes_before a b.
Proof.
  unfold PendingOrder.leb, comes_before.
  destruct (InterpreterRequest.is_stat a), (InterpreterRequest.is_stat b);
    rewrite ?Z.leb_le; intuition congruence.
Qed.

Lemma leb_transitive : Transitive (fun a b => is_true (PendingOrder.leb a b)).
Proof.
  intros a b c. unfold is_true. rewrite !leb_comes_before. unfold comes_before.
  destruct (InterpreterRequest.is_stat a), (InterpreterRequest.is_stat b),
           (InterpreterRequest.is_stat c); intuition (try congruence); right; split; auto; lia.
Qed.

Lemma StronglySorted_impl {A} (R R' : A -> A -> Prop) (l : list A) :
  (forall x y, R x y -> R' x y) -> StronglySorted R l -> StronglySorted R' l.
Proof.
  intros Himpl. induction 1 as [|x l Hs IH Hall]; constructor; auto.
  eapply Forall_impl; [|exact Hall]. auto.
Qed.

Lemma pending_requests_permutation language db :
  Permutation (pending_requests language db)
              (filter (is_pending_in language) (interpreter_requests db)).
Proof. unfold pending_requests. symmetry. apply PendingSort.Permuted_sort. Qed.

Lemma pending_requests_sorted language db :
  StronglySorted comes_before (pending_requests language db).
Proof.
  unfold pending_requests.
  apply StronglySorted_impl with (R := fun a b => is_true (PendingOrder.leb a b)).
  - intros x y. apply leb_comes_before.
  - apply PendingSort.StronglySorted_sort. exact leb_transitive.
Qed.

Lemma is_pending_in_spec language r :
  is_pending_in language r = true
  <-> InterpreterRequest.language r = language
      /\ InterpreterRequest.status r = PENDING.
Proof.
  unfold is_pending_in.
  rewrite andb_true_iff, String.eqb_eq, RequestStatus_eqb_eq. tauto.
Qed.

Lemma with_patient_requests db requests details :
  with_patient db requests = Ok details ->
  map RequestWithDetails.request details = requests.
Proof.
  revert details. induction requests as [|req rest IH]; simpl; intros details.
  - intros [= <-]. reflexivity.
  - destruct (patient_by_id (InterpreterRequest.patient_id req) db); [|discriminate].
    destruct (with_patient db rest) as [result|]; [|discriminate].
    intros [= <-]. simpl. f_equal. now apply IH.
Qed.

(** What the endpoint answers is the queue of the caller's language. *)
Lemma get_pending_requests_answer current_user db details db' :
  get_pending_requests_for_interpreter current_user db = (Ok details, db') ->
  exists interpreter,
    interpreter_by_login current_user db = Some interpreter
    /\ map RequestWithDetails.request details
       = pending_requests (InterpreterData.language interpreter) db
    /\ db' = db.
Proof.
  unfold get_pending_requests_for_interpreter, bind, first_or_raise.
  destruct (interpreter_by_login current_user db) as [i|]; [|discriminate].
  destruct (with_patient db (pending_requests (InterpreterData.language i) db))
    as [result|] eqn:Hjoin; [|discriminate].
  intros [= <- <-]. exists i. repeat apply conj; auto.
  exact (with_patient_requests db _ _ Hjoin).
Qed.

(** The one ordering of the three requests of the example. *)
Section QueueExample.

Variables R1 R2 R3 : InterpreterRequest.t.
Hypothesis R1_stat : InterpreterRequest.is_stat R1 = false.
Hypothesis R1_time : InterpreterRequest.requested_at R1 = clock 10 0.
Hypothesis R2_stat : InterpreterRequest.is_stat R2 = true.
Hypothesis R2_time : InterpreterRequest.requested_at R2 = clock 10 5.
Hypothesis R3_stat : InterpreterRequest.is_stat R3 = false.
Hypothesis R3_time : InterpreterRequest.requested_at R3 = clock 9 50.

Lemma queue_of_example (queue : list InterpreterRequest.t) :
  Permutation queue [R1; R2; R3] ->
  StronglySorted comes_before queue ->
  queue = [R2; R3; R1].
Proof.
  intros Hperm Hsorted.
  pose proof (Permutation_length Hperm) as Hlen.
  destruct queue as [|a [|b [|c [|]]]]; try discriminate.
  assert (Ha : In a [R1; R2; R3]) by (apply (Permutation_in _ Hperm); simpl; auto).
  assert (Hb : In b [R1; R2; R3]) by (apply (Permutation_in _ Hperm); simpl; auto).
  assert (Hc : In c [R1; R2; R3]) by (apply (Permutation_in _ Hperm); simpl; auto).
  apply Permutation_sym in Hperm.
  assert (H1 : In R1 [a; b; c]) by (apply (Permutation_in _ Hperm); simpl; auto).
  assert (H2 : In R2 [a; b; c]) by (apply (Permutation_in _ Hperm); simpl; auto).
  assert (H3 : In R3 [a; b; c]) by (apply (Permutation_in _ Hperm); simpl; auto).
  inversion Hsorted as [|? ? Hsorted' Hfirst]; subst.
  inversion Hsorted' as [|? ? _ Hsecond]; subst.
  inversion Hfirst as [|? ? Hab Hfirst']; subst.
  inversion Hfirst' as [|? ? Hac _]; subst.
  inversion Hsecond as [|? ? Hbc _]; subst.
  clear Hperm Hsorted Hsorted' Hfirst Hfirst' Hsecond Hlen.
  unfold comes_before, clock in *. simpl in Ha, Hb, Hc.
  cbn in R1_time, R2_time, R3_time.
  destruct Ha as [<-|[<-|[<-|[]]]], Hb as [<-|[<-|[<-|[]]]], Hc as [<-|[<-|[<-|[]]]];
    try reflexivity; exfalso;
    try (destruct Hab as [[? ?]|[? ?]]; congruence || lia);
    try (destruct Hac as [[? ?]|[? ?]]; congruence || lia);
    try (destruct Hbc as [[? ?]|[? ?]]; congruence || lia);
    simpl in H1, H2, H3;
    try (destruct H1 as [?|[?|[?|[]]]]; congruence);
    try (destruct H2 as [?|[?|[?|[]]]]; congruence);
    try (destruct H3 as [?|[?|[?|[]]]]; congruence).
Qed.

End QueueExample.

(** C7. The pending queue of a language holds exactly the PENDING requests in
    that language, each as often as the table holds it; STAT requests stand
    before the others and, within the same urgency, requests stand by
    requested_at, oldest first. For R1 (not STAT, 10:00), R2 (STAT, 10:05)
    and R3 (not STAT, 09:50) as the PENDING Arabic requests of the table, in
    whatever order the table stores them, the queue is [R2; R3; R1]. The
    requests the endpoint lists for an interpreter are this queue for the
    interpreter's language. *)
Theorem pending_queue_contract :
  (forall language db r,
      In r (pending_requests language db)
      <-> In r (interpreter_requests db)
          /\ InterpreterRequest.language r = language
          /\ InterpreterRequest.status r = PENDING)
  /\ (forall language db,
        Permutation (pending_requests language db)
                    (filter (is_pending_in language) (interpreter_requests db)))
  /\ (forall language db,
        StronglySorted comes_before (pending_requests language db))
  /\ (forall R1 R2 R3 db,
        InterpreterRequest.is_stat R1 = false ->
        InterpreterRequest.requested_at R1 = clock 10 0 ->
        InterpreterRequest.is_stat R2 = true ->
        InterpreterRequest.requested_at R2 = clock 10 5 ->
        InterpreterRequest.is_stat R3 = false ->
        InterpreterRequest.requested_at R3 = clock 9 50 ->
        Permutation (filter (is_pending_in "Arabic") (interpreter_requests db))
                    [R1; R2; R3] ->
        pending_requests "Arabic" db = [R2; R3; R1])
  /\ (forall current_user db details db',
        get_pending_requests_for_interpreter current_user db = (Ok details, db') ->
        exists interpreter,
          interpreter_by_login current_user db = Some interpreter
          /\ map RequestWithDetails.request details
             = pending_requests (InterpreterData.language interpreter) db).
Proof.
  repeat apply conj.
  - intros language db r. split.
    + intros Hin.
      apply (Permutation_in _ (pending_requests_permutation language db)) in Hin.
      apply filter_In in Hin as [Hin Hp]. apply is_pending_in_spec in Hp. tauto.
    + intros (Hin & Hl & Hs).
      apply (Permutation_in _ (Permutation_sym (pending_requests_permutation language db))).
      apply filter_In. split; [assumption|]. now apply is_pending_in_spec.
  - apply pending_requests_permutation.
  - apply pending_requests_sorted.
  - intros R1 R2 R3 db H1s H1t H2s H2t H3s H3t Hrows.
    apply queue_of_example; auto.
    + eapply perm_trans; [apply pending_requests_permutation|exact Hrows].
    + apply pending_requests_sorted.
  - intros current_user db details db' Hanswer.
    apply get_pending_requests_answer in Hanswer as (i & Hi & Hqueue & _). eauto.
Qed.

Lemma pending_queue_contract_witness :
  pending_requests "Arabic" sample_db = [R2; R3; R1]
  /\ exists details,
       get_pending_requests_for_interpreter "login-arabic2" sample_db
       = (Ok details, sample_db)
       /\ map RequestWithDetails.request details = [R2; R3; R1].
Proof.
  destruct pending_queue_contract as (_ & _ & _ & Hexample & Hendpoint).
  assert (Hqueue : pending_requests "Arabic" sample_db = [R2; R3; R1])
    by (apply Hexample; reflexivity).
  split; [exact Hqueue|].
  exists [RequestWithDetails.mk R2 mohammed None;
          RequestWithDetails.mk R3 mohammed None;
          RequestWithDetails.mk R1 mohammed None].
  split; [reflexivity|].
  destruct (Hendpoint "login-arabic2" sample_db _ sample_db eq_refl)
    as (i & Hi & ->).
  injection Hi as <-. exact Hqueue.
Defined.

(** ** The assignment invariant *)

Lemma create_request_cases request new_id now current_user db :
  snd (create_request request new_id now current_user db) = db
  \/ (request_by_id new_id db = None
      /\ snd (create_request request new_id now current_user db)
         = set_requests
             (fun rows => rows ++ [new_interpreter_request request new_id now current_user])%list
             db).
Proof.
  unfold create_request, bind, first_or_raise, ret.
  destruct (patient_by_id (RequestCreate.patient_id request) db); [|now left].
  destruct (request_by_id new_id db) as [other|] eqn:Hid.
  - left. now rewrite (add_request_taken _ db other).
  - right. split; [reflexivity|]. now rewrite add_request_fresh.
Qed.

Lemma accept_request_cases request_id now current_user db :
  snd (accept_request request_id now current_user db) = db
  \/ exists interpreter request,
       request_by_id request_id db = Some request
       /\ snd (accept_request request_id now current_user db)
          = accept_changes now interpreter request db.
Proof.
  destruct (interpreter_by_login current_user db) as [i|] eqn:Hi;
    [|left; now rewrite accept_raises_no_profile].
  destruct (InterpreterData.availability_status i) eqn:Hav;
    try (left; rewrite (accept_raises_not_available request_id current_user now db i Hi)
           by congruence; reflexivity).
  destruct (request_by_id request_id db) as [r|] eqn:Hr;
    [|left; now rewrite (accept_raises_not_found request_id current_user now db i Hi Hav Hr)].
  destruct (InterpreterRequest.status r) eqn:Hst;
    try (left; rewrite (accept_raises_not_pending request_id current_user now db i Hi Hav r Hr)
           by congruence; reflexivity).
  destruct (String.eqb_spec (InterpreterRequest.language r) (InterpreterData.language i))
    as [Hl|Hl];
    [|left; now rewrite (accept_raises_mismatch request_id current_user now db i Hi Hav r Hr Hst Hl)].
  right. exists i, r. split; [reflexivity|].
  now rewrite (accept_answers request_id current_user now db i Hi Hav r Hr Hst Hl).
Qed.

Lemma complete_request_cases request_id updates now current_user db :
  snd (complete_request request_id updates now current_user db) = db
  \/ exists interpreter request,
       request_by_id_assigned request_id (InterpreterData.id interpreter) db = Some request
       /\ InterpreterRequest.status request = ACCEPTED
       /\ snd (complete_request request_id updates now current_user db)
          = complete_changes updates now interpreter request db.
Proof.
  destruct (interpreter_by_login current_user db) as [i|] eqn:Hi;
    [|left; now rewrite complete_raises_no_profile].
  destruct (request_by_id_assigned request_id (InterpreterData.id i) db) as [r|] eqn:Hr;
    [|left; now rewrite (complete_raises_not_yours request_id current_user updates now db i Hi Hr)].
  destruct (InterpreterRequest.status r) eqn:Hst;
    try (left; rewrite (complete_raises_not_accepted request_id current_user updates now db i Hi r Hr)
           by congruence; reflexivity).
  right. exists i, r. repeat apply conj; auto.
  now rewrite (complete_answers request_id current_user updates now db i Hi r Hr Hst).
Qed.

Lemma update_profile_requests updates current_user db :
  interpreter_requests (snd (update_my_interpreter_profile updates current_user db))
  = interpreter_requests db.
Proof.
  unfold_handlers. destruct (interpreter_by_login current_user db); reflexivity.
Qed.

Lemma accept_fields_consistent interpreter_id now r :
  assignment_consistent (accept_fields interpreter_id now r).
Proof. unfold assignment_consistent, accept_fields. simpl. intuition congruence. Qed.

Lemma complete_fields_columns updates now r :
  InterpreterRequest.id (complete_fields updates now r) = InterpreterRequest.id r
  /\ InterpreterRequest.status (complete_fields updates now r) = COMPLETED
  /\ InterpreterRequest.interpreter_id (complete_fields updates now r)
     = InterpreterRequest.interpreter_id r.
Proof.
  unfold complete_fields.
  destruct (truthy (RequestUpdate.encounter_notes updates)); simpl; auto.
Qed.

Lemma request_by_id_assigned_some request_id interpreter_id db request :
  request_by_id_assigned request_id interpreter_id db = Some request ->
  In request (interpreter_requests db)
  /\ InterpreterRequest.id request = request_id
  /\ InterpreterRequest.interpreter_id request = Some interpreter_id.
Proof.
  unfold request_by_id_assigned. intros H. apply find_some in H as [Hin Hp].
  apply andb_true_iff in Hp as [Hid Hassigned]. apply String.eqb_eq in Hid.
  repeat apply conj; auto.
  destruct (InterpreterRequest.interpreter_id request) as [assigned|];
    simpl in Hassigned; [|discriminate].
  apply String.eqb_eq in Hassigned. congruence.
Qed.

Lemma perform_preserves_invariant op db :
  engine_invariant db -> engine_invariant (perform op db).
Proof.
  intros [Hkeys Hrows].
  destruct op as [request new_id now current_user
                 |request_id now current_user
                 |request_id updates now current_user
                 |updates current_user]; simpl.
  - destruct (create_request_cases request new_id now current_user db)
      as [->|[Hfresh ->]]; [now split|].
    split; simpl.
    + rewrite map_app. simpl.
      apply NoDup_app; [assumption|repeat constructor; simpl; tauto|].
      intros x Hx [<-|[]].
      apply in_map_iff in Hx as (r & Hid & Hr).
      unfold request_by_id in Hfresh.
      apply (find_none _ _ Hfresh) in Hr. apply String.eqb_neq in Hr. congruence.
    + intros r Hr. apply in_app_or in Hr as [Hr|[<-|[]]]; [now apply Hrows|].
      unfold assignment_consistent. simpl. intuition congruence.
  - destruct (accept_request_cases request_id now current_user db)
      as [->|(i & request & _ & ->)]; [now split|].
    split; rewrite accept_changes_requests.
    + now rewrite update_where_ids by reflexivity.
    + intros x Hx. apply In_update_where in Hx as (r & Hr & ->).
      destruct (InterpreterRequest.id r =? InterpreterRequest.id request)%string;
        [apply accept_fields_consistent|now apply Hrows].
  - destruct (complete_request_cases request_id updates now current_user db)
      as [->|(i & request & Hfound & Hstatus & ->)]; [now split|].
    apply request_by_id_assigned_some in Hfound as (Hin & _ & Hassigned).
    split; unfold complete_changes; simpl.
    + rewrite update_where_ids; [assumption|].
      intros r. apply (complete_fields_columns updates now r).
    + intros x Hx. apply In_update_where in Hx as (r & Hr & ->).
      destruct (String.eqb_spec (InterpreterRequest.id r) (InterpreterRequest.id request))
        as [Hid|]; [|now apply Hrows].
      assert (r = request)
        by (apply (keyed_rows_eq InterpreterRequest.id (interpreter_requests db)); auto).
      subst r.
      destruct (complete_fields_columns updates now request) as (_ & Hst & Hint).
      unfold assignment_consistent. rewrite Hst, Hint, Hassigned.
      intuition congruence.
  - split; rewrite update_profile_requests; assumption.
Qed.

Lemma perform_all_preserves_invariant ops db :
  engine_invariant db -> engine_invariant (perform_all ops db).
Proof.
  revert db. induction ops as [|op ops IH]; intros db Hinv; simpl; [assumption|].
  apply IH. now apply perform_preserves_invariant.
Qed.

(** C3. From a request table with distinct ids in which every request has an
    interpreter exactly when it is ACCEPTED or COMPLETED, every sequence of
    create, accept and complete calls (and profile updates), answered or
    refused, leads to a table in which every request has an interpreter
    exactly when it is ACCEPTED or COMPLETED, and none exactly when it is
    PENDING or CANCELLED: each operation preserves the invariant. *)
Theorem assignment_invariant_preserved
    (ops : list Operation) (db : DB)
    (Hkeys : NoDup (map InterpreterRequest.id (interpreter_requests db)))
    (Hrows : forall r, In r (interpreter_requests db) ->
               (InterpreterRequest.interpreter_id r <> None
                <-> InterpreterRequest.status r = ACCEPTED
                    \/ InterpreterRequest.status r = COMPLETED)) :
  forall r, In r (interpreter_requests (perform_all ops db)) ->
    (InterpreterRequest.interpreter_id r <> None
     <-> InterpreterRequest.status r = ACCEPTED
         \/ InterpreterRequest.status r = COMPLETED)
    /\ (InterpreterRequest.interpreter_id r = None
        <-> InterpreterRequest.status r = PENDING
            \/ InterpreterRequest.status r = CANCELLED).
Proof.
  assert (Hinv : engine_invariant db).
  { split; [assumption|]. intros r Hr. specialize (Hrows r Hr).
    unfold assignment_consistent. split; [assumption|].
    destruct (InterpreterRequest.interpreter_id r), (InterpreterRequest.status r);
      intuition congruence. }
  intros r Hr.
  exact (proj2 (perform_all_preserves_invariant ops db Hinv) r Hr).
Qed.

Lemma assignment_invariant_preserved_witness :
  request_by_id "R5" (perform_all engagement sample_db)
  = Some (complete_fields no_notes (clock 11 30)
            (accept_fields "interp-arabic1" (clock 10 45)
               (new_interpreter_request arabic_body "R5" (clock 10 40) "staff-1")))
  /\ forall r, In r (interpreter_requests (perform_all engagement sample_db)) ->
       (InterpreterRequest.interpreter_id r <> None
        <-> InterpreterRequest.status r = ACCEPTED
            \/ InterpreterRequest.status r = COMPLETED).
Proof.
  split; [reflexivity|].
  intros r Hr.
  refine (proj1 (assignment_invariant_preserved engagement sample_db _ _ r Hr)).
  - repeat constructor; simpl; intuition discriminate.
  - intros x [<-|[<-|[<-|[<-|[]]]]]; simpl; intuition congruence.
Defined.

(** ** Two interpreters accepting one request *)

(** The two steps of a call, taken together, are the endpoint. *)
Lemma call_steps_are_accept_request request_id now current_user other db :
  run_calls [FirstCall; FirstCall] (Called request_id now current_user) other db
  = (Returned (fst (accept_request request_id now current_user db)), other,
     snd (accept_request request_id now current_user db)).
Proof.
  unfold accept_request, bind. simpl.
  destruct (accept_check request_id current_user db) as [[loaded|e] db']; simpl;
    [|reflexivity].
  destruct (accept_write now loaded db') as [response db'']. reflexivity.
Qed.

Lemma second_call_steps_are_accept_request request_id now current_user other db :
  run_calls [SecondCall; SecondCall] other (Called request_id now current_user) db
  = (other, Returned (fst (accept_request request_id now current_user db)),
     snd (accept_request request_id now current_user db)).
Proof.
  unfold accept_request, bind. simpl.
  destruct (accept_check request_id current_user db) as [[loaded|e] db']; simpl;
    [|reflexivity].
  destruct (accept_write now loaded db') as [response db'']. reflexivity.
Qed.

Lemma run_calls_app s1 s2 a b db :
  run_calls (s1 ++ s2) a b db
  = let '(a', b', db') := run_calls s1 a b db in run_calls s2 a' b' db'.
Proof.
  revert a b db. induction s1 as [|turn s1 IH]; intros a b db; simpl; [reflexivity|].
  destruct turn.
  - destruct (call_step a db) as [a' db']. apply IH.
  - destruct (call_step b db) as [b' db']. apply IH.
Qed.

(** C2, as the code has it. When the second call starts after the first has
    committed, exactly one of two distinct AVAILABLE interpreters of the
    request's language gets the PENDING request: the first call answers and
    the request is ACCEPTED and assigned to its interpreter, the second
    raises RequestNotPending and its interpreter's row is unchanged. *)
Theorem accept_one_after_the_other
    (request_id : string) (now_a : datetime) (user_a : string)
    (now_b : datetime) (user_b : string) (db : DB)
    (a b : InterpreterData.t) (request : InterpreterRequest.t)
    (Ha : interpreter_by_login user_a db = Some a)
    (Hb : interpreter_by_login user_b db = Some b)
    (Hdistinct : InterpreterData.id a <> InterpreterData.id b)
    (Ha_available : InterpreterData.availability_status a = AVAILABLE)
    (Hb_available : InterpreterData.availability_status b = AVAILABLE)
    (Hrequest : request_by_id request_id db = Some request)
    (Hpending : InterpreterRequest.status request = PENDING)
    (Ha_language : InterpreterRequest.language request = InterpreterData.language a)
    (Hb_language : InterpreterRequest.language request = InterpreterData.language b) :
  run_calls one_after_the_other (Called request_id now_a user_a)
                                (Called request_id now_b user_b) db
  = (Returned (Ok (accept_fields (InterpreterData.id a) now_a request)),
     Returned (Raised RequestNotPending),
     accept_changes now_a a request db)
  /\ exactly_one_accepts one_after_the_other request_id now_a user_a now_b user_b db.
Proof.
  assert (Hb_after :
    interpreter_by_login user_b (accept_changes now_a a request db) = Some b)
    by (apply accept_changes_other_interpreter; auto).
  assert (Hrequest_after :
    request_by_id request_id (accept_changes now_a a request db)
    = Some (accept_fields (InterpreterData.id a) now_a request))
    by (now apply accept_changes_request).
  assert (Hrun :
    run_calls one_after_the_other (Called request_id now_a user_a)
                                  (Called request_id now_b user_b) db
    = (Returned (Ok (accept_fields (InterpreterData.id a) now_a request)),
       Returned (Raised RequestNotPending),
       accept_changes now_a a request db)).
  { unfold one_after_the_other.
    change [FirstCall; FirstCall; SecondCall; SecondCall]
      with ([FirstCall; FirstCall] ++ [SecondCall; SecondCall])%list.
    rewrite run_calls_app, call_steps_are_accept_request.
    rewrite (accept_answers request_id user_a now_a db a Ha Ha_available
               request Hrequest Hpending Ha_language).
    cbn [fst snd].
    rewrite second_call_steps_are_accept_request.
    rewrite (accept_raises_not_pending request_id user_b now_b
               (accept_changes now_a a request db) b Hb_after Hb_available
               (accept_fields (InterpreterData.id a) now_a request) Hrequest_after).
    - reflexivity.
    - unfold accept_fields. simpl. discriminate. }
  split; [exact Hrun|].
  unfold exactly_one_accepts. rewrite Hrun. left.
  exists (accept_fields (InterpreterData.id a) now_a request), a.
  repeat apply conj; auto. congruence.
Qed.

Lemma accept_one_after_the_other_witness :
  exactly_one_accepts one_after_the_other
    "R2" (clock 10 30) "login-arabic1" (clock 10 31) "login-arabic2" sample_db.
Proof.
  assert (Hdistinct : InterpreterData.id ahmed <> InterpreterData.id fatima)
    by discriminate.
  exact (proj2 (accept_one_after_the_other
                  "R2" (clock 10 30) "login-arabic1" (clock 10 31) "login-arabic2"
                  sample_db ahmed fatima R2
                  eq_refl eq_refl Hdistinct eq_refl eq_refl eq_refl eq_refl
                  eq_refl eq_refl)).
Defined.

(** C2, as stated, fails when the calls overlap. Ahmed and Fatima, both
    AVAILABLE Arabic interpreters, accept the PENDING Arabic request R2, and
    both calls read before either commits: both calls answer, neither raises
    RequestNotPending, the request ends assigned to the interpreter who
    committed last and both interpreters end BUSY. *)
Lemma overlapping_accepts_both_answer :
  run_calls overlapping (Called "R2" (clock 10 30) "login-arabic1")
                        (Called "R2" (clock 10 31) "login-arabic2") sample_db
  = (Returned (Ok (accept_fields "interp-arabic1" (clock 10 30) R2)),
     Returned (Ok (accept_fields "interp-arabic2" (clock 10 31) R2)),
     mkDB [mohammed]
          [InterpreterData.set_availability_status BUSY ahmed;
           InterpreterData.set_availability_status BUSY fatima;
           li_wei]
          [R1; accept_fields "interp-arabic2" (clock 10 31) R2; R3; R4])
  /\ ~ exactly_one_accepts overlapping
         "R2" (clock 10 30) "login-arabic1" (clock 10 31) "login-arabic2" sample_db.
Proof.
  split; [reflexivity|].
  unfold exactly_one_accepts.
  intros [(accepted & i & _ & Hloser & _)|(accepted & i & _ & Hloser & _)];
    discriminate Hloser.
Qed.

(** ** Complete, and accept and complete in sequence *)

Lemma complete_changes_request_assigned updates now db interpreter request request_id :
  request_by_id_assigned request_id (InterpreterData.id interpreter) db = Some request ->
  request_by_id_assigned request_id (InterpreterData.id interpreter)
    (complete_changes updates now interpreter request db)
  = Some (complete_fields updates now request).
Proof.
  intros H. unfold request_by_id_assigned in *. unfold complete_changes. simpl.
  rewrite find_update_where.
  - rewrite H. simpl. now rewrite String.eqb_refl.
  - intros r. destruct (complete_fields_columns updates now r) as (-> & _ & ->).
    reflexivity.
Qed.

Lemma complete_changes_request updates now db interpreter request request_id :
  request_by_id request_id db = Some request ->
  request_by_id request_id (complete_changes updates now interpreter request db)
  = Some (complete_fields updates now request).
Proof.
  intros H. unfold request_by_id in *. unfold complete_changes. simpl.
  rewrite find_update_where.
  - rewrite H. simpl. now rewrite String.eqb_refl.
  - intros r. now destruct (complete_fields_columns updates now r) as (-> & _).
Qed.

Lemma complete_fields_other_columns updates now r :
  InterpreterRequest.completed_at (complete_fields updates now r) = Some now
  /\ InterpreterRequest.accepted_at (complete_fields updates now r)
     = InterpreterRequest.accepted_at r
  /\ InterpreterRequest.requested_at (complete_fields updates now r)
     = InterpreterRequest.requested_at r
  /\ InterpreterRequest.encounter_notes (complete_fields updates now r)
     = (if truthy (RequestUpdate.encounter_notes updates)
        then RequestUpdate.encounter_notes updates
        else InterpreterRequest.encounter_notes r).
Proof.
  unfold complete_fields.
  destruct (truthy (RequestUpdate.encounter_notes updates)); simpl; auto.
Qed.

(** X1. A complete call by an interpreter with a profile answers exactly when a
    request with that id is assigned to the caller and is ACCEPTED. The
    stored request is then the response: the request that was read with
    status COMPLETED and completed_at the time of the call; its interpreter,
    accepted_at and requested_at are kept, and its encounter notes are
    replaced only when the call carries notes that are not empty. *)
Theorem complete_request_contract
    (request_id : string) (updates : RequestUpdate.t) (now : datetime)
    (current_user : string) (db : DB) (interpreter : InterpreterData.t)
    (Hprofile : interpreter_by_login current_user db = Some interpreter) :
  let outcome := complete_request request_id updates now current_user db in
  ((exists response, fst outcome = Ok response) <->
     (exists request,
         request_by_id_assigned request_id (InterpreterData.id interpreter) db
         = Some request
         /\ InterpreterRequest.status request = ACCEPTED))
  /\ (forall response, fst outcome = Ok response ->
        exists request,
          request_by_id_assigned request_id (InterpreterData.id interpreter) db
          = Some request
          /\ response = complete_fields updates now request
          /\ request_by_id_assigned request_id (InterpreterData.id interpreter)
               (snd outcome) = Some response
          /\ InterpreterRequest.status response = COMPLETED
          /\ InterpreterRequest.completed_at response = Some now
          /\ InterpreterRequest.interpreter_id response
             = Some (InterpreterData.id interpreter)
          /\ InterpreterRequest.accepted_at response
             = InterpreterRequest.accepted_at request
          /\ InterpreterRequest.requested_at response
             = InterpreterRequest.requested_at request
          /\ InterpreterRequest.encounter_notes response
             = (if truthy (RequestUpdate.encounter_notes updates)
                then RequestUpdate.encounter_notes updates
                else InterpreterRequest.encounter_notes request)).
Proof.
  intros outcome. subst outcome. repeat apply conj.
  - intros [response Hok].
    destruct (complete_request request_id updates now current_user db)
      as [res db'] eqn:Hcomp.
    simpl in Hok. subst res.
    apply complete_request_inv in Hcomp as (i & r & Hi & Hr & Hst & _ & _).
    assert (i = interpreter) by congruence. subst i. eauto.
  - intros (r & Hr & Hst).
    rewrite (complete_answers request_id current_user updates now db interpreter
               Hprofile r Hr Hst).
    simpl. eauto.
  - intros response Hok.
    destruct (complete_request request_id updates now current_user db)
      as [res db'] eqn:Hcomp.
    simpl in Hok. subst res.
    apply complete_request_inv in Hcomp as (i & r & Hi & Hr & Hst & -> & ->).
    assert (i = interpreter) by congruence. subst i. simpl.
    exists r.
    destruct (complete_fields_columns updates now r) as (_ & Hstatus & Hassigned).
    destruct (complete_fields_other_columns updates now r)
      as (Hdone & Haccepted & Hrequested & Hnotes).
    destruct (request_by_id_assigned_some _ _ _ _ Hr) as (_ & _ & Hwas).
    repeat apply conj; auto.
    + now apply complete_changes_request_assigned.
    + congruence.
Qed.

Lemma complete_request_contract_witness :
  interpreter_by_login "login-mandarin1" sample_db = Some li_wei
  /\ fst (complete_request "R4" encounter_done (clock 9 45) "login-mandarin1" sample_db)
     = Ok (complete_fields encounter_done (clock 9 45) R4)
  /\ InterpreterRequest.encounter_notes (complete_fields encounter_done (clock 9 45) R4)
     = Some "Consent discussion completed.".
Proof.
  pose proof (complete_request_contract "R4" encounter_done (clock 9 45)
                "login-mandarin1" sample_db li_wei eq_refl) as H.
  cbv zeta in H. destruct H as [_ Heffects].
  destruct (Heffects (complete_fields encounter_done (clock 9 45) R4) eq_refl)
    as (request & Hrequest & Hresponse & _ & _ & _ & _ & _ & _ & Hnotes).
  split; [reflexivity|split; [reflexivity|]].
  rewrite Hnotes. reflexivity.
Defined.

Lemma set_available_after_busy interpreter :
  InterpreterData.availability_status interpreter = AVAILABLE ->
  InterpreterData.set_availability_status AVAILABLE
    (InterpreterData.set_availability_status BUSY interpreter) = interpreter.
Proof. destruct interpreter. simpl. now intros ->. Qed.

(** X2. The request an accept call answered with can be completed by the same
    caller at once, with any notes: the complete call answers, the request
    is COMPLETED, and the caller's interpreter row is again the row it was
    before the accept. *)
Theorem accept_then_complete
    (request_id : string) (now later : datetime) (updates : RequestUpdate.t)
    (current_user : string) (db : DB) (response : InterpreterRequest.t)
    (Haccepted : fst (accept_request request_id now current_user db) = Ok response) :
  let db1 := snd (accept_request request_id now current_user db) in
  let outcome := complete_request request_id updates later current_user db1 in
  fst outcome = Ok (complete_fields updates later response)
  /\ InterpreterRequest.status (complete_fields updates later response) = COMPLETED
  /\ request_by_id request_id (snd outcome) = Some (complete_fields updates later response)
  /\ interpreter_by_login current_user (snd outcome)
     = interpreter_by_login current_user db.
Proof.
  intros db1 outcome. subst db1 outcome.
  destruct (accept_request request_id now current_user db) as [res db1] eqn:Hacc.
  simpl in Haccepted. subst res. simpl.
  apply accept_request_inv in Hacc as (i & r & Hi & Hav & Hr & Hst & Hl & -> & ->).
  pose proof (accept_changes_interpreter now db i r current_user Hi) as Hi1.
  pose proof (accept_changes_request now db i r request_id Hr) as Hr1.
  set (busy := InterpreterData.set_availability_status BUSY i) in *.
  set (accepted := accept_fields (InterpreterData.id i) now r) in *.
  set (db1 := accept_changes now i r db) in *.
  assert (Hheld : request_by_id_assigned request_id (InterpreterData.id busy) db1
                  = Some accepted).
  { unfold request_by_id_assigned, request_by_id in *.
    apply (find_conj _ (fun x => option_string_eqb
                                   (InterpreterRequest.interpreter_id x)
                                   (InterpreterData.id busy))); auto.
    simpl. apply String.eqb_refl. }
  rewrite (complete_answers request_id current_user updates later db1 busy Hi1
             accepted Hheld eq_refl).
  simpl. repeat apply conj; auto.
  - apply (complete_fields_columns updates later accepted).
  - now apply complete_changes_request.
  - rewrite (complete_changes_interpreter updates later db1 busy accepted current_user Hi1).
    rewrite Hi. f_equal. now apply set_available_after_busy.
Qed.

Lemma accept_then_complete_witness :
  fst (complete_request "R2" encounter_done (clock 11 0) "login-arabic1"
         (snd (accept_request "R2" (clock 10 30) "login-arabic1" sample_db)))
  = Ok (complete_fields encounter_done (clock 11 0)
          (accept_fields "interp-arabic1" (clock 10 30) R2))
  /\ interpreter_by_login "login-arabic1"
       (snd (complete_request "R2" encounter_done (clock 11 0) "login-arabic1"
               (snd (accept_request "R2" (clock 10 30) "login-arabic1" sample_db))))
     = Some ahmed.
Proof.
  pose proof (accept_then_complete "R2" (clock 10 30) (clock 11 0) encounter_done
                "login-arabic1" sample_db
                (accept_fields "interp-arabic1" (clock 10 30) R2) eq_refl) as H.
  cbv zeta in H. destruct H as (Hanswer & _ & _ & Hrow).
  split; [exact Hanswer|exact Hrow].
Defined.

(** X3. After an accept call that answered, every further accept call by the same
    caller, for any request, raises NotAvailable and changes nothing. *)
Theorem accept_again_is_refused
    (request_id : string) (now : datetime) (current_user : string) (db : DB)
    (response : InterpreterRequest.t)
    (Haccepted : fst (accept_request request_id now current_user db) = Ok response) :
  forall (other_request : string) (later : datetime),
    accept_request other_request later current_user
      (snd (accept_request request_id now current_user db))
    = (Raised NotAvailable, snd (accept_request request_id now current_user db)).
Proof.
  intros other_request later.
  destruct (accept_request request_id now current_user db) as [res db1] eqn:Hacc.
  simpl in Haccepted. subst res. simpl.
  apply accept_request_inv in Hacc as (i & r & Hi & _ & _ & _ & _ & _ & ->).
  apply accept_raises_not_available
    with (interpreter := InterpreterData.set_availability_status BUSY i).
  - now apply accept_changes_interpreter.
  - simpl. discriminate.
Qed.

Lemma accept_again_is_refused_witness :
  accept_request "R1" (clock 10 35) "login-arabic1"
    (snd (accept_request "R2" (clock 10 30) "login-arabic1" sample_db))
  = (Raised NotAvailable, snd (accept_request "R2" (clock 10 30) "login-arabic1" sample_db)).
Proof.
  exact (accept_again_is_refused "R2" (clock 10 30) "login-arabic1" sample_db
           (accept_fields "interp-arabic1" (clock 10 30) R2) eq_refl
           "R1" (clock 10 35)).
Defined.

(** X4. After a complete call that answered, a second complete call for the same
    request by the same caller raises RequestNotAccepted and changes
    nothing: a request is completed once. *)
Theorem complete_again_is_refused
    (request_id : string) (updates : RequestUpdate.t) (now : datetime)
    (current_user : string) (db : DB) (response : InterpreterRequest.t)
    (Hcompleted :
       fst (complete_request request_id updates now current_user db) = Ok response) :
  forall (updates' : RequestUpdate.t) (later : datetime),
    complete_request request_id updates' later current_user
      (snd (complete_request request_id updates now current_user db))
    = (Raised RequestNotAccepted,
       snd (complete_request request_id updates now current_user db)).
Proof.
  intros updates' later.
  destruct (complete_request request_id updates now current_user db)
    as [res db1] eqn:Hcomp.
  simpl in Hcompleted. subst res. simpl.
  apply complete_request_inv in Hcomp as (i & r & Hi & Hr & _ & _ & ->).
  apply complete_raises_not_accepted
    with (interpreter := InterpreterData.set_availability_status AVAILABLE i)
         (request := complete_fields updates now r).
  - now apply complete_changes_interpreter.
  - simpl. now apply complete_changes_request_assigned.
  - destruct (complete_fields_columns updates now r) as (_ & -> & _). discriminate.
Qed.

Lemma complete_again_is_refused_witness :
  complete_request "R4" no_notes (clock 10 0) "login-mandarin1"
    (snd (complete_request "R4" encounter_done (clock 9 45) "login-mandarin1" sample_db))
  = (Raised RequestNotAccepted,
     snd (complete_request "R4" encounter_done (clock 9 45) "login-mandarin1" sample_db)).
Proof.
  exact (complete_again_is_refused "R4" encounter_done (clock 9 45) "login-mandarin1"
           sample_db (complete_fields encounter_done (clock 9 45) R4) eq_refl
           no_notes (clock 10 0)).
Defined.

(** ** The lifecycle of a request row *)

Lemma update_where_none {A} (sel : A -> bool) (f : A -> A) (rows : list A) :
  (forall x, In x rows -> sel x = false) -> update_where sel f rows = rows.
Proof.
  intros Hsel. unfold update_where.
  rewrite <- (map_id rows) at 2. apply map_ext_in.
  intros x Hx. now rewrite (Hsel x Hx).
Qed.

(** Under the primary key, an UPDATE by key rewrites one row in place. *)
Lemma update_where_keyed {A} (pk : A -> string) (f : A -> A) (rows : list A) (r : A) :
  NoDup (map pk rows) -> In r rows ->
  exists before after,
    rows = (before ++ r :: after)%list
    /\ update_where (fun x => pk x =? pk r)%string f rows
       = (before ++ f r :: after)%list.
Proof.
  intros Hkeys Hin.
  destruct (in_split _ _ Hin) as (before & after & ->).
  exists before, after. split; [reflexivity|].
  rewrite map_app in Hkeys. simpl in Hkeys.
  pose proof (NoDup_remove_2 _ _ _ Hkeys) as Hnot.
  unfold update_where. rewrite map_app. simpl. rewrite String.eqb_refl.
  f_equal; [|f_equal]; apply update_where_none; intros x Hx;
    apply String.eqb_neq; intros Heq; apply Hnot; apply in_or_app;
    [left|right]; rewrite <- Heq; now apply in_map.
Qed.

Lemma later_status_refl s : later_status s s.
Proof. now left. Qed.

Lemma later_status_trans s1 s2 s3 :
  later_status s1 s2 -> later_status s2 s3 -> later_status s1 s3.
Proof.
  unfold later_status. destruct s1, s2, s3; intuition congruence.
Qed.

Lemma evolves_refl r : evolves r r.
Proof.
  unfold evolves, same_submission. split; [|split; [|split]]; auto.
  - repeat apply conj; reflexivity.
  - apply later_status_refl.
Qed.

Lemma evolves_trans r1 r2 r3 : evolves r1 r2 -> evolves r2 r3 -> evolves r1 r3.
Proof.
  intros (Hs12 & Hl12 & Ha12 & Ht12) (Hs23 & Hl23 & Ha23 & Ht23).
  unfold evolves. split; [|split; [|split]].
  - unfold same_submission in *. intuition congruence.
  - eapply later_status_trans; eauto.
  - intros Hnp. specialize (Ha12 Hnp).
    assert (Hnp2 : InterpreterRequest.status r2 <> PENDING).
    { unfold later_status in Hl12.
      destruct (InterpreterRequest.status r1), (InterpreterRequest.status r2);
        intuition congruence. }
    specialize (Ha23 Hnp2). intuition congruence.
  - intros Hterm. specialize (Ht12 Hterm). subst r2. auto.
Qed.

Lemma Forall2_evolves_refl rows : Forall2 evolves rows rows.
Proof. induction rows; constructor; auto using evolves_refl. Qed.

Lemma Forall2_evolves_trans l1 l2 l3 :
  Forall2 evolves l1 l2 -> Forall2 evolves l2 l3 -> Forall2 evolves l1 l3.
Proof.
  intros H12. revert l3. induction H12 as [|a b l1 l2 Hab _ IH]; intros l3 H23.
  - inversion H23. constructor.
  - inversion H23 as [|? c ? l3' Hbc H23']; subst. constructor.
    + eapply evolves_trans; eauto.
    + now apply IH.
Qed.

Lemma evolves_accept interpreter_id now r :
  InterpreterRequest.status r = PENDING ->
  evolves r (accept_fields interpreter_id now r).
Proof.
  intros Hst. unfold evolves, same_submission, later_status, accept_fields. simpl.
  rewrite Hst. repeat apply conj; auto; intuition congruence.
Qed.

Lemma evolves_complete updates now r :
  InterpreterRequest.status r = ACCEPTED ->
  evolves r (complete_fields updates now r).
Proof.
  intros Hst. unfold evolves, same_submission, later_status, complete_fields.
  destruct (truthy (RequestUpdate.encounter_notes updates)); simpl;
    rewrite Hst; repeat apply conj; auto; intuition congruence.
Qed.

Lemma Forall2_evolves_replace before after r r' :
  evolves r r' ->
  Forall2 evolves (before ++ r :: after) (before ++ r' :: after).
Proof.
  intros H. apply Forall2_app; [apply Forall2_evolves_refl|].
  constructor; [assumption|apply Forall2_evolves_refl].
Qed.

Lemma request_by_id_some request_id db request :
  request_by_id request_id db = Some request ->
  In request (interpreter_requests db) /\ InterpreterRequest.id request = request_id.
Proof.
  unfold request_by_id. intros H. apply find_some in H as [Hin Hid].
  split; [assumption|now apply String.eqb_eq].
Qed.

Lemma accept_request_inv_or_unchanged request_id now current_user db :
  snd (accept_request request_id now current_user db) = db
  \/ exists interpreter request,
       request_by_id request_id db = Some request
       /\ InterpreterRequest.status request = PENDING
       /\ snd (accept_request request_id now current_user db)
          = accept_changes now interpreter request db.
Proof.
  destruct (interpreter_by_login current_user db) as [i|] eqn:Hi;
    [|left; now rewrite accept_raises_no_profile].
  destruct (InterpreterData.availability_status i) eqn:Hav;
    try (left; rewrite (accept_raises_not_available request_id current_user now db i Hi)
           by congruence; reflexivity).
  destruct (request_by_id request_id db) as [r|] eqn:Hr;
    [|left; now rewrite (accept_raises_not_found request_id current_user now db i Hi Hav Hr)].
  destruct (InterpreterRequest.status r) eqn:Hst;
    try (left; rewrite (accept_raises_not_pending request_id current_user now db i Hi Hav r Hr)
           by congruence; reflexivity).
  destruct (String.eqb_spec (InterpreterRequest.language r) (InterpreterData.language i))
    as [Hl|Hl];
    [|left; now rewrite (accept_raises_mismatch request_id current_user now db i Hi Hav r Hr Hst Hl)].
  right. exists i, r. repeat apply conj; auto.
  now rewrite (accept_answers request_id current_user now db i Hi Hav r Hr Hst Hl).
Qed.

(** One operation: the rows that were there evolve in place, their keys stay
    distinct, and what is new is appended. *)
Lemma perform_evolves op db :
  NoDup (map InterpreterRequest.id (interpreter_requests db)) ->
  NoDup (map InterpreterRequest.id (interpreter_requests (perform op db)))
  /\ exists kept added,
       interpreter_requests (perform op db) = (kept ++ added)%list
       /\ Forall2 evolves (interpreter_requests db) kept.
Proof.
  intros Hkeys.
  assert (Hsame : forall db', interpreter_requests db' = interpreter_requests db ->
            NoDup (map InterpreterRequest.id (interpreter_requests db'))
            /\ exists kept added,
                 interpreter_requests db' = (kept ++ added)%list
                 /\ Forall2 evolves (interpreter_requests db) kept).
  { intros db' ->. split; [assumption|].
    exists (interpreter_requests db), []. rewrite app_nil_r.
    split; [reflexivity|apply Forall2_evolves_refl]. }
  destruct op as [request new_id now current_user
                 |request_id now current_user
                 |request_id updates now current_user
                 |updates current_user]; simpl.
  - destruct (create_request_cases request new_id now current_user db)
      as [->|[Hfresh ->]]; [now apply Hsame|].
    simpl. split.
    + rewrite map_app. simpl.
      apply NoDup_app; [assumption|repeat constructor; simpl; tauto|].
      intros x Hx [<-|[]].
      apply in_map_iff in Hx as (r & Hid & Hr).
      unfold request_by_id in Hfresh.
      apply (find_none _ _ Hfresh) in Hr. apply String.eqb_neq in Hr. congruence.
    + eexists _, _. split; [reflexivity|apply Forall2_evolves_refl].
  - destruct (accept_request_inv_or_unchanged request_id now current_user db)
      as [->|(i & r & Hr & Hst & ->)]; [now apply Hsame|].
    rewrite accept_changes_requests.
    destruct (request_by_id_some _ _ _ Hr) as [Hin _].
    destruct (update_where_keyed InterpreterRequest.id
                (accept_fields (InterpreterData.id i) now)
                (interpreter_requests db) r Hkeys Hin)
      as (before & after & Hrows & ->).
    split.
    + rewrite Hrows in Hkeys. rewrite map_app in *. exact Hkeys.
    + exists (before ++ accept_fields (InterpreterData.id i) now r :: after)%list, [].
      rewrite app_nil_r. split; [reflexivity|].
      rewrite Hrows. apply Forall2_evolves_replace. now apply evolves_accept.
  - destruct (complete_request_cases request_id updates now current_user db)
      as [->|(i & r & Hfound & Hst & ->)]; [now apply Hsame|].
    apply request_by_id_assigned_some in Hfound as (Hin & _ & _).
    unfold complete_changes. simpl.
    destruct (update_where_keyed InterpreterRequest.id (complete_fields updates now)
                (interpreter_requests db) r Hkeys Hin)
      as (before & after & Hrows & ->).
    split.
    + rewrite Hrows in Hkeys. rewrite map_app in *. simpl in *.
      now destruct (complete_fields_columns updates now r) as (-> & _).
    + exists (before ++ complete_fields updates now r :: after)%list, [].
      rewrite app_nil_r. split; [reflexivity|].
      rewrite Hrows. apply Forall2_evolves_replace. now apply evolves_complete.
  - apply Hsame. apply update_profile_requests.
Qed.

(** X5. Along any sequence of create, accept, complete and profile calls on a
    request table with distinct ids, no row is removed or reordered and new
    rows are appended; each row keeps the columns of its submission, its
    status only moves forward (PENDING, ACCEPTED, COMPLETED), the interpreter
    and accepted_at of a row that has left PENDING are never changed, and a
    COMPLETED or CANCELLED row is never changed at all. *)
Theorem lifecycle_is_monotonic (ops : list Operation) (db : DB)
    (Hkeys : NoDup (map InterpreterRequest.id (interpreter_requests db))) :
  exists kept added,
    interpreter_requests (perform_all ops db) = (kept ++ added)%list
    /\ Forall2 evolves (interpreter_requests db) kept.
Proof.
  revert db Hkeys. induction ops as [|op ops IH]; intros db Hkeys; simpl.
  - exists (interpreter_requests db), []. rewrite app_nil_r.
    split; [reflexivity|apply Forall2_evolves_refl].
  - destruct (perform_evolves op db Hkeys) as (Hkeys1 & kept1 & added1 & Hrows1 & Hev1).
    destruct (IH (perform op db) Hkeys1) as (kept & added & Hrows & Hev).
    rewrite Hrows1 in Hev.
    apply Forall2_app_inv_l in Hev as (kept' & added' & Hkept & _ & ->).
    exists kept', (added' ++ added)%list. split.
    + rewrite Hrows. now rewrite app_assoc.
    + eapply Forall2_evolves_trans; eauto.
Qed.

Lemma lifecycle_is_monotonic_witness :
  exists kept added,
    interpreter_requests (perform_all engagement sample_db) = (kept ++ added)%list
    /\ Forall2 evolves [R1; R2; R3; R4] kept.
Proof.
  refine (lifecycle_is_monotonic engagement sample_db _).
  repeat constructor; simpl; intuition discriminate.
Defined.

(** ** The queue after a create and after an accept *)

Lemma create_request_inv request new_id now current_user db created db' :
  create_request request new_id now current_user db = (Ok created, db') ->
  created = new_interpreter_request request new_id now current_user
  /\ db' = set_requests (fun rows => rows ++ [created])%list db
  /\ request_by_id new_id db = None
  /\ exists patient, patient_by_id (RequestCreate.patient_id request) db = Some patient.
Proof.
  unfold create_request, bind, first_or_raise, ret.
  destruct (patient_by_id (RequestCreate.patient_id request) db) as [patient|];
    [|discriminate].
  destruct (request_by_id new_id db) as [other|] eqn:Hid.
  - rewrite (add_request_taken _ db other) by exact Hid. discriminate.
  - rewrite add_request_fresh by exact Hid. intros [= <- <-]. eauto 6.
Qed.

Lemma pending_requests_perm_filter language db rows :
  Permutation (filter (is_pending_in language) (interpreter_requests db)) rows ->
  Permutation (pending_requests language db) rows.
Proof.
  intros H. eapply perm_trans; [apply pending_requests_permutation|exact H].
Qed.

(** X6. A request that a create call answered with is in the pending queue of its
    language at once, beside the requests that were there; the queues of the
    other languages are what they were. *)
Theorem created_request_is_queued
    (request : RequestCreate.t) (new_id : string) (now : datetime)
    (current_user : string) (db : DB) (created : InterpreterRequest.t)
    (Hcreated : fst (create_request request new_id now current_user db) = Ok created) :
  let db' := snd (create_request request new_id now current_user db) in
  Permutation (pending_requests (RequestCreate.language request) db')
              (created :: pending_requests (RequestCreate.language request) db)
  /\ (forall language, language <> RequestCreate.language request ->
        pending_requests language db' = pending_requests language db).
Proof.
  intros db'. subst db'.
  destruct (create_request request new_id now current_user db) as [res db'] eqn:Hc.
  simpl in Hcreated. subst res. simpl.
  apply create_request_inv in Hc as (-> & -> & _ & _).
  split.
  - apply pending_requests_perm_filter. simpl. rewrite filter_app. simpl.
    unfold is_pending_in at 2. simpl. rewrite String.eqb_refl. simpl.
    eapply perm_trans; [apply Permutation_sym, Permutation_cons_append|].
    apply perm_skip. apply Permutation_sym, pending_requests_permutation.
  - intros language Hother. unfold pending_requests. simpl. rewrite filter_app. simpl.
    unfold is_pending_in at 2. simpl.
    assert (Hneq : (RequestCreate.language request =? language)%string = false)
      by (apply String.eqb_neq; congruence).
    rewrite Hneq. simpl. now rewrite app_nil_r.
Qed.

Lemma created_request_is_queued_witness :
  Permutation
    (pending_requests "Arabic"
       (snd (create_request arabic_body "R5" (clock 10 40) "staff-1" sample_db)))
    (new_interpreter_request arabic_body "R5" (clock 10 40) "staff-1"
     :: pending_requests "Arabic" sample_db).
Proof.
  pose proof (created_request_is_queued arabic_body "R5" (clock 10 40) "staff-1"
                sample_db
                (new_interpreter_request arabic_body "R5" (clock 10 40) "staff-1")
                eq_refl) as H.
  cbv zeta in H. exact (proj1 H).
Defined.

Lemma is_pending_in_accepted language interpreter_id now r :
  is_pending_in language (accept_fields interpreter_id now r) = false.
Proof. unfold is_pending_in, accept_fields. simpl. apply andb_false_r. Qed.

(** X7. On a request table with distinct ids, an accept call that answers takes
    the request out of the pending queue of its language and leaves the rest
    of that queue; the queues of the other languages are what they were, and
    no queue holds a request with the accepted id any more. *)
Theorem accepted_request_leaves_queue
    (request_id : string) (now : datetime) (current_user : string) (db : DB)
    (response : InterpreterRequest.t)
    (Hkeys : NoDup (map InterpreterRequest.id (interpreter_requests db)))
    (Haccepted : fst (accept_request request_id now current_user db) = Ok response) :
  let db' := snd (accept_request request_id now current_user db) in
  exists request,
    request_by_id request_id db = Some request
    /\ Permutation (pending_requests (InterpreterRequest.language request) db)
                   (request :: pending_requests (InterpreterRequest.language request) db')
    /\ (forall language, language <> InterpreterRequest.language request ->
          pending_requests language db' = pending_requests language db)
    /\ (forall language r, In r (pending_requests language db') ->
          InterpreterRequest.id r <> request_id).
Proof.
  intros db'. subst db'.
  destruct (accept_request request_id now current_user db) as [res db'] eqn:Hacc.
  simpl in Haccepted. subst res. simpl.
  apply accept_request_inv in Hacc as (i & r & _ & _ & Hr & Hst & _ & _ & ->).
  exists r. split; [exact Hr|].
  destruct (request_by_id_some _ _ _ Hr) as [Hin Hid].
  destruct (update_where_keyed InterpreterRequest.id
              (accept_fields (InterpreterData.id i) now)
              (interpreter_requests db) r Hkeys Hin)
    as (before & after & Hrows & Hupdated).
  assert (Hqueue : forall language,
            filter (is_pending_in language)
                   (interpreter_requests (accept_changes now i r db))
            = (filter (is_pending_in language) before
               ++ filter (is_pending_in language) after)%list).
  { intros language. rewrite accept_changes_requests, Hupdated.
    rewrite filter_app. simpl. now rewrite is_pending_in_accepted. }
  assert (Hbefore : forall language,
            filter (is_pending_in language) (interpreter_requests db)
            = (filter (is_pending_in language) before
               ++ (if is_pending_in language r then [r] else [])
               ++ filter (is_pending_in language) after)%list).
  { intros language. rewrite Hrows, filter_app. simpl.
    now destruct (is_pending_in language r). }
  repeat apply conj.
  - apply pending_requests_perm_filter. rewrite Hbefore.
    assert (Hp : is_pending_in (InterpreterRequest.language r) r = true)
      by (apply is_pending_in_spec; auto).
    rewrite Hp. simpl.
    eapply perm_trans; [apply Permutation_sym, Permutation_middle|].
    apply perm_skip. rewrite <- Hqueue.
    apply Permutation_sym, pending_requests_permutation.
  - intros language Hother. unfold pending_requests. rewrite Hqueue, Hbefore.
    assert (Hp : is_pending_in language r = false).
    { unfold is_pending_in.
      assert (Hneq : (InterpreterRequest.language r =? language)%string = false)
        by (apply String.eqb_neq; congruence).
      now rewrite Hneq. }
    now rewrite Hp.
  - intros language x Hx Hidx.
    apply (Permutation_in _ (pending_requests_permutation language _)) in Hx.
    rewrite Hqueue in Hx.
    rewrite Hrows, map_app in Hkeys. simpl in Hkeys.
    apply NoDup_remove_2 in Hkeys. apply Hkeys.
    rewrite Hid, <- Hidx.
    apply in_app_or in Hx as [Hx|Hx]; apply filter_In in Hx as [Hx _];
      apply in_or_app; [left|right]; now apply in_map.
Qed.

Lemma accepted_request_leaves_queue_witness :
  Permutation (pending_requests "Arabic" sample_db)
    (R2 :: pending_requests "Arabic"
             (snd (accept_request "R2" (clock 10 30) "login-arabic1" sample_db))).
Proof.
  assert (Hkeys : NoDup (map InterpreterRequest.id (interpreter_requests sample_db)))
    by (repeat constructor; simpl; intuition discriminate).
  pose proof (accepted_request_leaves_queue "R2" (clock 10 30) "login-arabic1"
                sample_db (accept_fields "interp-arabic1" (clock 10 30) R2)
                Hkeys eq_refl) as H.
  cbv zeta in H. destruct H as (request & Hrequest & Hqueue & _).
  injection Hrequest as <-. exact Hqueue.
Defined.

(** ** Profile updates *)

Lemma update_profile_answers updates current_user db interpreter :
  interpreter_by_login current_user db = Some interpreter ->
  update_my_interpreter_profile updates current_user db
  = (Ok (profile_fields updates interpreter),
     set_interpreters
       (update_where
          (fun i => InterpreterData.id i =? InterpreterData.id interpreter)%string
          (profile_fields updates))
       db).
Proof. intros H. unfold_handlers. now step_with H. Qed.

Lemma profile_fields_columns updates i :
  InterpreterData.id (profile_fields updates i) = InterpreterData.id i
  /\ InterpreterData.login_id (profile_fields updates i) = InterpreterData.login_id i
  /\ InterpreterData.name (profile_fields updates i) = InterpreterData.name i
  /\ InterpreterData.language (profile_fields updates i) = InterpreterData.language i
  /\ InterpreterData.gender (profile_fields updates i) = InterpreterData.gender i
  /\ InterpreterData.gender_preference (profile_fields updates i)
     = InterpreterData.gender_preference i
  /\ InterpreterData.availability_status (profile_fields updates i)
     = match InterpreterUpdate.availability_status updates with
       | Some state => state
       | None => InterpreterData.availability_status i
       end
  /\ InterpreterData.phone_number (profile_fields updates i)
     = match InterpreterUpdate.phone_number updates with
       | Some phone => Some phone
       | None => InterpreterData.phone_number i
       end
  /\ InterpreterData.email (profile_fields updates i)
     = match InterpreterUpdate.email updates with
       | Some email => Some email
       | None => InterpreterData.email i
       end.
Proof.
  unfold profile_fields.
  destruct (InterpreterUpdate.availability_status updates),
           (InterpreterUpdate.phone_number updates),
           (InterpreterUpdate.email updates); simpl; repeat apply conj; reflexivity.
Qed.

Lemma update_profile_interpreter updates current_user db interpreter :
  interpreter_by_login current_user db = Some interpreter ->
  interpreter_by_login current_user
    (snd (update_my_interpreter_profile updates current_user db))
  = Some (profile_fields updates interpreter).
Proof.
  intros H. rewrite (update_profile_answers updates current_user db interpreter H).
  unfold interpreter_by_login in *. simpl.
  rewrite find_update_where.
  - rewrite H. simpl. now rewrite String.eqb_refl.
  - intros r. now destruct (profile_fields_columns updates r) as (_ & -> & _).
Qed.

(** X8. A profile update by an interpreter with a profile always answers,
    whatever the interpreter's availability: the stored row is the response,
    with the availability, phone number and email the call gives and every
    other column as it was (a column the call leaves out is kept); requests
    and patients are untouched, reading the profile afterwards answers with
    the stored row, and a call that gives nothing changes nothing. *)
Theorem update_my_interpreter_profile_contract
    (updates : InterpreterUpdate.t) (current_user : string) (db : DB)
    (interpreter : InterpreterData.t)
    (Hprofile : interpreter_by_login current_user db = Some interpreter) :
  let outcome := update_my_interpreter_profile updates current_user db in
  exists updated,
    fst outcome = Ok updated
    /\ interpreter_by_login current_user (snd outcome) = Some updated
    /\ InterpreterData.id updated = InterpreterData.id interpreter
    /\ InterpreterData.login_id updated = InterpreterData.login_id interpreter
    /\ InterpreterData.language updated = InterpreterData.language interpreter
    /\ InterpreterData.availability_status updated
       = match InterpreterUpdate.availability_status updates with
         | Some state => state
         | None => InterpreterData.availability_status interpreter
         end
    /\ InterpreterData.phone_number updated
       = match InterpreterUpdate.phone_number updates with
         | Some phone => Some phone
         | None => InterpreterData.phone_number interpreter
         end
    /\ InterpreterData.email updated
       = match InterpreterUpdate.email updates with
         | Some email => Some email
         | None => InterpreterData.email interpreter
         end
    /\ interpreter_requests (snd outcome) = interpreter_requests db
    /\ patient_data (snd outcome) = patient_data db
    /\ get_my_interpreter_profile current_user (snd outcome)
       = (Ok updated, snd outcome)
    /\ (updates = InterpreterUpdate.mk None None None -> snd outcome = db).
Proof.
  intros outcome. subst outcome.
  exists (profile_fields updates interpreter).
  pose proof (update_profile_interpreter updates current_user db interpreter Hprofile)
    as Hstored.
  rewrite (update_profile_answers updates current_user db interpreter Hprofile) in *.
  destruct (profile_fields_columns updates interpreter)
    as (Hid & Hlogin & _ & Hlang & _ & _ & Hav & Hphone & Hemail).
  simpl in *. repeat apply conj; auto.
  - unfold get_my_interpreter_profile, first_or_raise. now rewrite Hstored.
  - intros ->. destruct db as [patients interpreters requests].
  unfold set_interpreters. simpl. f_equal.
  rewrite <- (map_id interpreters) at 2. unfold update_where. apply map_ext.
  intros i. now destruct (InterpreterData.id i =? InterpreterData.id interpreter)%string.
Qed.

Lemma update_my_interpreter_profile_contract_witness :
  exists updated,
    fst (update_my_interpreter_profile go_available "login-mandarin1" sample_db)
    = Ok updated
    /\ InterpreterData.availability_status updated = AVAILABLE.
Proof.
  pose proof (update_my_interpreter_profile_contract go_available "login-mandarin1"
                sample_db li_wei eq_refl) as H.
  cbv zeta in H.
  destruct H as (updated & Hanswer & _ & _ & _ & _ & Hstate & _).
  exists updated. split; [exact Hanswer|exact Hstate].
Defined.

(** X9. Availability is the interpreter's own declaration and the only guard of
    accept: an interpreter who declares AVAILABLE, whatever the row said
    before and whatever requests the interpreter holds, can at once accept a
    PENDING request of the interpreter's language, and every other request
    row, the ones the interpreter holds included, stays as it is. *)
Theorem declared_availability_reopens_accept
    (current_user : string) (db : DB) (interpreter : InterpreterData.t)
    (request_id : string) (now : datetime) (request : InterpreterRequest.t)
    (phone email : option string)
    (Hprofile : interpreter_by_login current_user db = Some interpreter)
    (Hrequest : request_by_id request_id db = Some request)
    (Hpending : InterpreterRequest.status request = PENDING)
    (Hlanguage : InterpreterRequest.language request
                 = InterpreterData.language interpreter) :
  let db1 := snd (update_my_interpreter_profile
                    (InterpreterUpdate.mk (Some AVAILABLE) phone email)
                    current_user db) in
  let outcome := accept_request request_id now current_user db1 in
  fst outcome = Ok (accept_fields (InterpreterData.id interpreter) now request)
  /\ request_by_id request_id (snd outcome)
     = Some (accept_fields (InterpreterData.id interpreter) now request)
  /\ (forall held, In held (interpreter_requests db) ->
        InterpreterRequest.id held <> InterpreterRequest.id request ->
        In held (interpreter_requests (snd outcome))).
Proof.
  intros db1 outcome. subst db1 outcome.
  set (updates := InterpreterUpdate.mk (Some AVAILABLE) phone email).
  pose proof (update_profile_interpreter updates current_user db interpreter Hprofile)
    as Hprofile1.
  destruct (profile_fields_columns updates interpreter)
    as (Hid & _ & _ & Hlang & _ & _ & Hav & _).
  assert (Hrows : interpreter_requests
                    (snd (update_my_interpreter_profile updates current_user db))
                  = interpreter_requests db)
    by apply update_profile_requests.
  set (db1 := snd (update_my_interpreter_profile updates current_user db)) in *.
  assert (Hrequest1 : request_by_id request_id db1 = Some request)
    by (unfold request_by_id in *; now rewrite Hrows).
  rewrite (accept_answers request_id current_user now db1
             (profile_fields updates interpreter) Hprofile1 Hav request Hrequest1
             Hpending ltac:(congruence)).
  rewrite Hid. simpl. repeat apply conj; auto.
  - rewrite <- Hid. now apply accept_changes_request.
  - intros held Hheld Hother. rewrite Hrows.
    unfold update_where. apply in_map_iff. exists held. split; [|assumption].
    apply String.eqb_neq in Hother. now rewrite Hother.
Qed.

Lemma declared_availability_reopens_accept_witness :
  fst (accept_request "R6" (clock 9 40) "login-mandarin1"
         (snd (update_my_interpreter_profile go_available "login-mandarin1"
                 mandarin_ward_db)))
  = Ok (accept_fields "interp-mandarin1" (clock 9 40) R6)
  /\ In R4 (interpreter_requests
              (snd (accept_request "R6" (clock 9 40) "login-mandarin1"
                      (snd (update_my_interpreter_profile go_available "login-mandarin1"
                              mandarin_ward_db))))).
Proof.
  pose proof (declared_availability_reopens_accept "login-mandarin1" mandarin_ward_db
                li_wei "R6" (clock 9 40) R6 None None
                eq_refl eq_refl eq_refl eq_refl) as H.
  cbv zeta in H. destruct H as (Hanswer & _ & Hheld).
  split; [exact Hanswer|].
  apply Hheld; [simpl; auto|discriminate].
Defined.

(** ** The read paths *)

Lemma with_all_details_requests interpreter_of db requests details :
  with_all_details interpreter_of db requests = Ok details ->
  map RequestWithDetails.request details = requests.
Proof.
  revert details. induction requests as [|req rest IH]; simpl; intros details.
  - intros [= <-]. reflexivity.
  - unfold with_details.
    destruct (patient_by_id (InterpreterRequest.patient_id req) db); [|discriminate].
    destruct (with_all_details interpreter_of db rest) as [result|]; [|discriminate].
    intros [= <-]. simpl. f_equal. now apply IH.
Qed.

Lemma StronglySorted_skipn {A} (R : A -> A -> Prop) (n : nat) (l : list A) :
  StronglySorted R l -> StronglySorted R (skipn n l).
Proof.
  revert l. induction n as [|n IH]; intros l Hs; simpl; [assumption|].
  destruct l as [|x l]; [constructor|]. apply IH. now inversion Hs.
Qed.

Lemma In_firstn {A} (n : nat) (l : list A) (x : A) :
  In x (firstn n l) -> In x l.
Proof.
  revert l. induction n as [|n IH]; intros l; simpl; [tauto|].
  destruct l as [|y l]; simpl; [tauto|]. intros [->|H]; auto.
Qed.

Lemma StronglySorted_firstn {A} (R : A -> A -> Prop) (n : nat) (l : list A) :
  StronglySorted R l -> StronglySorted R (firstn n l).
Proof.
  revert l. induction n as [|n IH]; intros l Hs; simpl; [constructor|].
  destruct l as [|x l]; [constructor|].
  inversion Hs as [|? ? Hs' Hall]; subst. constructor; [now apply IH|].
  rewrite Forall_forall in *. intros y Hy. apply Hall.
  now apply (In_firstn n l y).
Qed.

Lemma In_firstn_skipn {A} (skip limit : nat) (l : list A) (x : A) :
  In x (firstn limit (skipn skip l)) -> In x l.
Proof.
  intros H. apply In_firstn in H.
  rewrite <- (firstn_skipn skip l). apply in_or_app. now right.
Qed.

Lemma urgent_newest_leb_spec a b :
  urgent_newest_leb a b = true <-> urgent_then_newer a b.
Proof.
  unfold urgent_newest_leb, urgent_then_newer.
  destruct (InterpreterRequest.is_stat a), (InterpreterRequest.is_stat b);
    rewrite ?Z.leb_le; intuition congruence.
Qed.

Lemma urgent_newest_leb_transitive :
  Transitive (fun a b => is_true (urgent_newest_leb a b)).
Proof.
  intros a b c. unfold is_true. rewrite !urgent_newest_leb_spec.
  unfold urgent_then_newer.
  destruct (InterpreterRequest.is_stat a), (InterpreterRequest.is_stat b),
           (InterpreterRequest.is_stat c); intuition (try congruence); right; split; auto; lia.
Qed.

Lemma In_filter_status status_filter rows r :
  In r (filter_status status_filter rows)
  <-> In r rows
      /\ (forall wanted, status_filter = Some wanted ->
            InterpreterRequest.status r = wanted).
Proof.
  unfold filter_status. destruct status_filter as [wanted|].
  - rewrite filter_In, RequestStatus_eqb_eq. split.
    + intros [Hin Hst]. split; [assumption|]. now intros ? [= <-].
    + intros [Hin Hst]. split; auto.
  - split; [intros H; split; [assumption|discriminate]|tauto].
Qed.

(** X10. The list of all requests, for a skip and a limit that are not negative,
    holds at most [limit] requests, all of the table and of the wanted status
    when one is given; STAT requests stand before the others and, within the
    same urgency, the newer request first. With no skip and a limit that
    covers the table it holds every such request, each as often as the table
    does. The endpoint answers with these requests, in this order. *)
Theorem all_requests_contract :
  (forall skip limit status_filter db,
      (List.length (all_requests skip limit status_filter db) <= limit)%nat
      /\ StronglySorted urgent_then_newer (all_requests skip limit status_filter db)
      /\ forall r, In r (all_requests skip limit status_filter db) ->
           In r (interpreter_requests db)
           /\ (forall wanted, status_filter = Some wanted ->
                 InterpreterRequest.status r = wanted))
  /\ (forall limit status_filter db,
        (List.length (interpreter_requests db) <= limit)%nat ->
        Permutation (all_requests 0 limit status_filter db)
                    (filter_status status_filter (interpreter_requests db)))
  /\ (forall skip limit status_filter db details db',
        get_all_requests skip limit status_filter db = (Ok details, db') ->
        map RequestWithDetails.request details = all_requests skip limit status_filter db
        /\ db' = db).
Proof.
  split; [|split].
  - intros skip limit status_filter db. repeat apply conj.
    + apply firstn_le_length.
    + unfold all_requests. apply StronglySorted_firstn, StronglySorted_skipn.
      apply StronglySorted_impl with (R := fun a b => is_true (urgent_newest_leb a b)).
      * intros x y. apply urgent_newest_leb_spec.
      * apply UrgentNewestSort.StronglySorted_sort. exact urgent_newest_leb_transitive.
    + intros r Hr. unfold all_requests in Hr. apply In_firstn_skipn in Hr.
      apply (Permutation_in _ (Permutation_sym (UrgentNewestSort.Permuted_sort _))) in Hr.
      now apply In_filter_status.
  - intros limit status_filter db Hlimit. unfold all_requests. simpl.
    rewrite firstn_all2.
    + apply Permutation_sym, UrgentNewestSort.Permuted_sort.
    + rewrite <- (Permutation_length (UrgentNewestSort.Permuted_sort _)).
      eapply Nat.le_trans; [|exact Hlimit].
      unfold filter_status.
      destruct status_filter; [apply filter_length_le|apply Nat.le_refl].
  - intros skip limit status_filter db details db' H.
    unfold get_all_requests in H.
    destruct (with_all_details _ db (all_requests skip limit status_filter db))
      as [result|] eqn:Hjoin; [|discriminate].
    injection H as <- <-. split; [|reflexivity].
    exact (with_all_details_requests _ db _ _ Hjoin).
Qed.

Lemma all_requests_contract_witness :
  all_requests 0 2 (Some PENDING) sample_db = [R2; R1]
  /\ Permutation (all_requests 0 10 (Some PENDING) sample_db) [R1; R2; R3].
Proof.
  destruct all_requests_contract as (_ & Hall & _).
  split; [reflexivity|].
  apply (Hall 10%nat (Some PENDING) sample_db). simpl. lia.
Defined.

Lemma latest_accepted_leb_spec a b :
  latest_accepted_leb a b = true -> accepted_no_earlier a b.
Proof.
  unfold latest_accepted_leb, accepted_no_earlier.
  intros H ta tb Ha Hb. rewrite Ha, Hb in H. now apply Z.leb_le.
Qed.

Lemma latest_accepted_leb_transitive :
  Transitive (fun a b => is_true (latest_accepted_leb a b)).
Proof.
  intros a b c. unfold is_true, latest_accepted_leb.
  destruct (InterpreterRequest.accepted_at a), (InterpreterRequest.accepted_at b),
           (InterpreterRequest.accepted_at c); auto; try discriminate.
  rewrite !Z.leb_le. lia.
Qed.

Lemma is_held_by_spec interpreter_id r :
  is_held_by interpreter_id r = true
  <-> InterpreterRequest.interpreter_id r = Some interpreter_id
      /\ InterpreterRequest.status r = ACCEPTED.
Proof.
  unfold is_held_by. simpl. rewrite orb_false_r, andb_true_iff, RequestStatus_eqb_eq.
  destruct (InterpreterRequest.interpreter_id r) as [assigned|]; simpl.
  - rewrite String.eqb_eq. intuition congruence.
  - intuition congruence.
Qed.

Lemma In_my_requests interpreter_id db r :
  In r (my_requests interpreter_id db)
  <-> In r (interpreter_requests db)
      /\ InterpreterRequest.interpreter_id r = Some interpreter_id
      /\ InterpreterRequest.status r = ACCEPTED.
Proof.
  unfold my_requests. split.
  - intros H.
    apply (Permutation_in _ (Permutation_sym (LatestAcceptedSort.Permuted_sort _))) in H.
    apply filter_In in H as [Hin Hheld]. apply is_held_by_spec in Hheld. tauto.
  - intros (Hin & Hassigned & Hst).
    apply (Permutation_in _ (LatestAcceptedSort.Permuted_sort _)).
    apply filter_In. split; [assumption|]. now apply is_held_by_spec.
Qed.

(** X11. An interpreter's own requests are exactly the ACCEPTED requests assigned
    to that interpreter, the most recently accepted first. A request that an
    accept call answered with is among the caller's own requests at once, and
    after a complete call that answered no request with that id is among
    anyone's. The endpoint answers with these requests, in this order. *)
Theorem my_requests_contract :
  (forall interpreter_id db r,
      In r (my_requests interpreter_id db)
      <-> In r (interpreter_requests db)
          /\ InterpreterRequest.interpreter_id r = Some interpreter_id
          /\ InterpreterRequest.status r = ACCEPTED)
  /\ (forall interpreter_id db,
        StronglySorted accepted_no_earlier (my_requests interpreter_id db))
  /\ (forall request_id now current_user db response,
        fst (accept_request request_id now current_user db) = Ok response ->
        exists interpreter,
          interpreter_by_login current_user db = Some interpreter
          /\ In response
               (my_requests (InterpreterData.id interpreter)
                  (snd (accept_request request_id now current_user db))))
  /\ (forall request_id updates now current_user db response,
        fst (complete_request request_id updates now current_user db) = Ok response ->
        forall interpreter_id r,
          In r (my_requests interpreter_id
                  (snd (complete_request request_id updates now current_user db))) ->
          InterpreterRequest.id r <> InterpreterRequest.id response)
  /\ (forall current_user db details db',
        get_my_requests current_user db = (Ok details, db') ->
        exists interpreter,
          interpreter_by_login current_user db = Some interpreter
          /\ map RequestWithDetails.request details
             = my_requests (InterpreterData.id interpreter) db
          /\ db' = db).
Proof.
  repeat apply conj.
  - apply In_my_requests.
  - intros interpreter_id db. unfold my_requests.
    apply StronglySorted_impl with (R := fun a b => is_true (latest_accepted_leb a b)).
    + intros x y. apply latest_accepted_leb_spec.
    + apply LatestAcceptedSort.StronglySorted_sort. exact latest_accepted_leb_transitive.
  - intros request_id now current_user db response Hok.
    destruct (accept_request request_id now current_user db) as [res db1] eqn:Hacc.
    simpl in Hok. subst res. simpl.
    apply accept_request_inv in Hacc as (i & r & Hi & _ & Hr & _ & _ & -> & ->).
    exists i. split; [assumption|]. apply In_my_requests.
    pose proof (accept_changes_request now db i r request_id Hr) as Hstored.
    apply request_by_id_some in Hstored as [Hin _].
    repeat apply conj; auto.
  - intros request_id updates now current_user db response Hok interpreter_id x Hx.
    destruct (complete_request request_id updates now current_user db)
      as [res db1] eqn:Hcomp.
    simpl in Hok. subst res. simpl in Hx.
    apply complete_request_inv in Hcomp as (i & r & _ & _ & _ & -> & ->).
    apply In_my_requests in Hx as (Hin & _ & Hst).
    unfold complete_changes in Hin. simpl in Hin.
    apply In_update_where in Hin as (y & _ & ->).
    destruct (complete_fields_columns updates now r) as (Hidr & _ & _).
    rewrite Hidr.
    destruct (String.eqb_spec (InterpreterRequest.id y) (InterpreterRequest.id r))
      as [Heq|Hneq]; [|exact Hneq].
    destruct (complete_fields_columns updates now y) as (_ & Hdone & _). congruence.
  - intros current_user db details db' Hanswer.
    unfold get_my_requests, bind, first_or_raise in Hanswer.
    destruct (interpreter_by_login current_user db) as [i|]; [|discriminate].
    destruct (with_all_details _ db (my_requests (InterpreterData.id i) db))
      as [result|] eqn:Hjoin; [|discriminate].
    injection Hanswer as <- <-. exists i. repeat apply conj; auto.
    exact (with_all_details_requests _ db _ _ Hjoin).
Qed.

Lemma my_requests_contract_witness :
  my_requests "interp-mandarin1" sample_db = [R4]
  /\ In (accept_fields "interp-arabic1" (clock 10 30) R2)
        (my_requests "interp-arabic1"
           (snd (accept_request "R2" (clock 10 30) "login-arabic1" sample_db))).
Proof.
  destruct my_requests_contract as (_ & _ & Haccept & _).
  split; [reflexivity|].
  destruct (Haccept "R2" (clock 10 30) "login-arabic1" sample_db
              (accept_fields "interp-arabic1" (clock 10 30) R2) eq_refl)
    as (i & Hi & Hin).
  injection Hi as <-. exact Hin.
Defined.

(** ** Interpreter listing and the dashboard *)

Lemma is_available_spec i :
  is_available i = true <-> InterpreterData.availability_status i = AVAILABLE.
Proof. apply InterpreterAvailability_eqb_eq. Qed.

Arguments interpreters_query : simpl never.
Arguments pending_requests : simpl never.
Arguments my_requests : simpl never.
Arguments all_requests : simpl never.

Lemma In_interpreters_query language available_only db i :
  In i (interpreters_query language available_only db)
  <-> In i (interpreter_data db)
      /\ (truthy language = true -> language = Some (InterpreterData.language i))
      /\ (available_only = true -> InterpreterData.availability_status i = AVAILABLE).
Proof.
  unfold interpreters_query.
  destruct available_only; destruct (truthy language) eqn:Hlang;
    rewrite ?filter_In, ?InterpreterAvailability_eqb_eq.
  - destruct language as [l|]; [|discriminate]. simpl. rewrite String.eqb_eq.
    intuition congruence.
  - intuition congruence.
  - destruct language as [l|]; [|discriminate]. simpl. rewrite String.eqb_eq.
    intuition congruence.
  - intuition congruence.
Qed.

(** X12. The interpreter listing holds exactly the interpreters of the table that
    pass the filters: the language, unless it is absent or the empty string
    (then every language passes), and AVAILABLE when only available ones are
    asked for. After an accept call that answered, the caller's interpreter
    is not among the available ones any more. *)
Theorem interpreters_query_contract :
  (forall language available_only db i,
      In i (interpreters_query language available_only db)
      <-> In i (interpreter_data db)
          /\ (forall wanted, language = Some wanted -> wanted <> "" ->
                InterpreterData.language i = wanted)
          /\ (available_only = true ->
                InterpreterData.availability_status i = AVAILABLE))
  /\ (forall db, interpreters_query (Some "") false db = interpreter_data db)
  /\ (forall request_id now current_user db response,
        fst (accept_request request_id now current_user db) = Ok response ->
        exists interpreter,
          interpreter_by_login current_user db = Some interpreter
          /\ forall language i,
               In i (interpreters_query language true
                       (snd (accept_request request_id now current_user db))) ->
               InterpreterData.id i <> InterpreterData.id interpreter).
Proof.
  split; [|split].
  - intros language available_only db i. rewrite In_interpreters_query.
    split; intros (Hin & Hlang & Hav); repeat apply conj; auto.
    + intros wanted -> Hne. destruct wanted as [|c s]; [congruence|].
      specialize (Hlang eq_refl). congruence.
    + intros Htruthy. destruct language as [[|c s]|]; try discriminate.
      f_equal. symmetry. apply Hlang; [reflexivity|discriminate].
  - reflexivity.
  - intros request_id now current_user db response Hok.
    destruct (accept_request request_id now current_user db) as [res db1] eqn:Hacc.
    simpl in Hok. subst res. simpl.
    apply accept_request_inv in Hacc as (i & r & Hi & _ & _ & _ & _ & _ & ->).
    exists i. split; [assumption|].
    intros language x Hx Hid.
    apply In_interpreters_query in Hx as (Hin & _ & Hav). specialize (Hav eq_refl).
    rewrite accept_changes_interpreters in Hin.
    apply In_update_where in Hin as (y & _ & ->).
    destruct (String.eqb_spec (InterpreterData.id y) (InterpreterData.id i)) as [Heq|Hneq].
    + simpl in Hav. discriminate.
    + contradiction.
Qed.

Lemma interpreters_query_contract_witness :
  interpreters_query (Some "Arabic") true sample_db = [ahmed; fatima]
  /\ forall i,
       In i (interpreters_query (Some "Arabic") true
               (snd (accept_request "R2" (clock 10 30) "login-arabic1" sample_db))) ->
       InterpreterData.id i <> "interp-arabic1".
Proof.
  destruct interpreters_query_contract as (_ & _ & Haccept).
  split; [reflexivity|].
  destruct (Haccept "R2" (clock 10 30) "login-arabic1" sample_db
              (accept_fields "interp-arabic1" (clock 10 30) R2) eq_refl)
    as (interpreter & Hi & Hgone).
  injection Hi as <-. intros i. apply Hgone.
Defined.

Lemma list_sum_zero {A} (l : list A) : list_sum (map (fun _ => 0%nat) l) = 0%nat.
Proof. induction l; simpl; auto. Qed.

Lemma list_sum_plus {A} (f g : A -> nat) (l : list A) :
  list_sum (map (fun x => (f x + g x)%nat) l)
  = (list_sum (map f l) + list_sum (map g l))%nat.
Proof. induction l as [|x l IH]; simpl; [reflexivity|]. rewrite IH. lia. Qed.

Lemma list_sum_indicator (keys : list string) (key : string) (hit : bool) :
  NoDup keys -> In key keys ->
  list_sum (map (fun k => if (key =? k)%string && hit then 1%nat else 0%nat) keys)
  = if hit then 1%nat else 0%nat.
Proof.
  destruct hit.
  - induction keys as [|k keys IH]; simpl; [tauto|].
    intros Hnd Hin. inversion Hnd as [|? ? Hnotin Hnd']; subst.
    destruct (String.eqb_spec key k) as [->|Hneq]; simpl.
    + rewrite (map_ext_in _ (fun _ => 0%nat)); [now rewrite list_sum_zero|].
      intros k' Hk'. destruct (String.eqb_spec k k') as [->|]; simpl; tauto.
    + destruct Hin as [->|Hin]; [congruence|auto].
  - intros _ _. rewrite (map_ext _ (fun _ => 0%nat)); [apply list_sum_zero|].
    intros k. now rewrite andb_false_r.
Qed.

(** Counting per key adds up to counting at once. *)
Lemma count_by_key {A} (key : A -> string) (p : A -> bool) (keys : list string)
    (rows : list A) :
  NoDup keys -> (forall x, In x rows -> In (key x) keys) ->
  list_sum (map (fun k => List.length
                            (filter (fun x => (key x =? k)%string && p x) rows)) keys)
  = List.length (filter p rows).
Proof.
  intros Hnd. induction rows as [|x rows IH]; intros Hkeys; simpl.
  - apply list_sum_zero.
  - rewrite (map_ext _ (fun k =>
      ((if (key x =? k)%string && p x then 1 else 0)
       + List.length (filter (fun y => (key y =? k)%string && p y) rows))%nat)).
    + rewrite list_sum_plus, IH by (intros y Hy; apply Hkeys; now right).
      rewrite list_sum_indicator by (auto; apply Hkeys; now left).
      destruct (p x); reflexivity.
    + intros k. destruct ((key x =? k)%string && p x); reflexivity.
Qed.

(** X13. The dashboard is consistent with itself: the available counts of the
    language breakdown add up to the count of available interpreters, the
    breakdown has one entry for each language an interpreter has and no
    language twice, and the count of languages is the length of the
    breakdown. *)
Theorem dashboard_breakdown_adds_up (db : DB) :
  exists stats,
    get_dashboard_stats db = (Ok stats, db)
    /\ list_sum (map AvailabilityStats.available_count
                     (DashboardStats.availability_by_language stats))
       = DashboardStats.available_interpreters stats
    /\ DashboardStats.total_languages stats
       = List.length (DashboardStats.availability_by_language stats)
    /\ NoDup (map AvailabilityStats.language
                  (DashboardStats.availability_by_language stats))
    /\ (forall language,
          In language (map AvailabilityStats.language
                           (DashboardStats.availability_by_language stats))
          <-> exists i, In i (interpreter_data db)
                        /\ InterpreterData.language i = language).
Proof.
  eexists. split; [reflexivity|]. simpl.
  rewrite !map_map. simpl. rewrite map_id. repeat apply conj.
  - unfold available_in. apply count_by_key.
    + apply NoDup_nodup.
    + intros i Hi. apply nodup_In. now apply in_map.
  - now rewrite length_map.
  - apply NoDup_nodup.
  - intros language. unfold distinct_languages. rewrite nodup_In, in_map_iff.
    split; intros (i & H1 & H2); exists i; tauto.
Qed.

Lemma length_filter_replace {A} (p : A -> bool) (before after : list A) (r r' : A) :
  (List.length (filter p (before ++ r' :: after)) + (if p r then 1 else 0)
   = List.length (filter p (before ++ r :: after)) + (if p r' then 1 else 0))%nat.
Proof.
  rewrite !filter_app, !length_app. simpl.
  destruct (p r), (p r'); simpl; lia.
Qed.

(** X14. With distinct ids in the request and interpreter tables, an accept call
    that answers lowers the dashboard's pending requests by one and its
    available interpreters by one; a create call that answers raises the
    pending requests by one and leaves the available interpreters. *)
Theorem dashboard_follows_the_engine (db : DB)
    (Hrequests : NoDup (map InterpreterRequest.id (interpreter_requests db)))
    (Hinterpreters : NoDup (map InterpreterData.id (interpreter_data db))) :
  forall stats, fst (get_dashboard_stats db) = Ok stats ->
  (forall request_id now current_user response stats',
      fst (accept_request request_id now current_user db) = Ok response ->
      fst (get_dashboard_stats (snd (accept_request request_id now current_user db)))
      = Ok stats' ->
      (DashboardStats.pending_requests stats' + 1
       = DashboardStats.pending_requests stats)%nat
      /\ (DashboardStats.available_interpreters stats' + 1
          = DashboardStats.available_interpreters stats)%nat)
  /\ (forall request new_id now current_user created stats',
        fst (create_request request new_id now current_user db) = Ok created ->
        fst (get_dashboard_stats (snd (create_request request new_id now current_user db)))
        = Ok stats' ->
        DashboardStats.pending_requests stats'
        = (DashboardStats.pending_requests stats + 1)%nat
        /\ DashboardStats.available_interpreters stats'
           = DashboardStats.available_interpreters stats).
Proof.
  intros stats [= <-]. split.
  - intros request_id now current_user response stats' Hok [= <-]. simpl.
    destruct (accept_request request_id now current_user db) as [res db1] eqn:Hacc.
    simpl in Hok. subst res. simpl.
    apply accept_request_inv in Hacc as (i & r & Hi & Hav & Hr & Hst & _ & _ & ->).
    destruct (request_by_id_some _ _ _ Hr) as [Hin _].
    assert (Hini : In i (interpreter_data db))
      by (unfold interpreter_by_login in Hi; now apply find_some in Hi).
    rewrite accept_changes_requests, accept_changes_interpreters.
    destruct (update_where_keyed InterpreterRequest.id
                (accept_fields (InterpreterData.id i) now)
                (interpreter_requests db) r Hrequests Hin)
      as (rb & ra & -> & ->).
    destruct (update_where_keyed InterpreterData.id
                (InterpreterData.set_availability_status BUSY)
                (interpreter_data db) i Hinterpreters Hini)
      as (ib & ia & -> & ->).
    pose proof (length_filter_replace is_pending rb ra r
                  (accept_fields (InterpreterData.id i) now r)) as Hp.
    pose proof (length_filter_replace is_available ib ia i
                  (InterpreterData.set_availability_status BUSY i)) as Ha.
    assert (Hpr : is_pending r = true)
      by (unfold is_pending; now rewrite Hst).
    assert (Hai : is_available i = true) by (now apply is_available_spec).
    assert (Hpa : is_pending (accept_fields (InterpreterData.id i) now r) = false)
      by reflexivity.
    assert (Hab : is_available (InterpreterData.set_availability_status BUSY i) = false)
      by reflexivity.
    rewrite Hpr, Hpa in Hp. rewrite Hai, Hab in Ha.
    split; lia.
  - intros request new_id now current_user created stats' Hok [= <-]. simpl.
    destruct (create_request request new_id now current_user db) as [res db1] eqn:Hc.
    simpl in Hok. subst res. simpl.
    apply create_request_inv in Hc as (-> & -> & _ & _). simpl.
    rewrite filter_app, length_app. simpl. split; reflexivity.
Qed.

Lemma dashboard_follows_the_engine_witness :
  exists before after,
    fst (get_dashboard_stats sample_db) = Ok before
    /\ fst (get_dashboard_stats
              (snd (accept_request "R2" (clock 10 30) "login-arabic1" sample_db)))
       = Ok after
    /\ (DashboardStats.pending_requests after + 1
        = DashboardStats.pending_requests before)%nat
    /\ (DashboardStats.available_interpreters after + 1
        = DashboardStats.available_interpreters before)%nat.
Proof.
  assert (Hrequests : NoDup (map InterpreterRequest.id (interpreter_requests sample_db)))
    by (repeat constructor; simpl; intuition discriminate).
  assert (Hinterpreters : NoDup (map InterpreterData.id (interpreter_data sample_db)))
    by (repeat constructor; simpl; intuition discriminate).
  eexists _, _. split; [reflexivity|split; [reflexivity|]].
  exact (proj1 (dashboard_follows_the_engine sample_db Hrequests Hinterpreters
                  _ eq_refl)
           "R2" (clock 10 30) "login-arabic1"
           (accept_fields "interp-arabic1" (clock 10 30) R2) _ eq_refl eq_refl).
Defined.

(** ** Reading back what was written *)

Lemma find_some_of_in {A} (p : A -> bool) (rows : list A) (x : A) :
  In x rows -> p x = true -> exists y, find p rows = Some y.
Proof.
  intros Hin Hp. destruct (find p rows) as [y|] eqn:Hfind; [eauto|].
  rewrite (find_none p rows Hfind x Hin) in Hp. discriminate.
Qed.

(** X15. Reading one request: an id that no request has raises RequestNotFound.
    The request that a create call answered with is read back at once, with
    the patient it names and no interpreter. The request that an accept call
    answered with is read back with its patient and with the row of the
    accepting interpreter, which shows BUSY. *)
Theorem get_request_reads_back :
  (forall request_id db,
      request_by_id request_id db = None ->
      get_request request_id db = (Raised RequestNotFound, db))
  /\ (forall request new_id now current_user db created,
        fst (create_request request new_id now current_user db) = Ok created ->
        exists patient,
          patient_by_id (RequestCreate.patient_id request) db = Some patient
          /\ get_request new_id (snd (create_request request new_id now current_user db))
             = (Ok (RequestWithDetails.mk created patient None),
                snd (create_request request new_id now current_user db)))
  /\ (forall request_id now current_user db response interpreter patient,
        fst (accept_request request_id now current_user db) = Ok response ->
        interpreter_by_login current_user db = Some interpreter ->
        InterpreterData.id interpreter <> "" ->
        patient_by_id (InterpreterRequest.patient_id response) db = Some patient ->
        exists shown,
          get_request request_id (snd (accept_request request_id now current_user db))
          = (Ok (RequestWithDetails.mk response patient (Some shown)),
             snd (accept_request request_id now current_user db))
          /\ InterpreterData.id shown = InterpreterData.id interpreter
          /\ InterpreterData.availability_status shown = BUSY).
Proof.
  split; [|split].
  - intros request_id db Hnone. unfold get_request, bind, first_or_raise.
    now rewrite Hnone.
  - intros request new_id now current_user db created Hok.
    destruct (create_request request new_id now current_user db) as [res db1] eqn:Hc.
    simpl in Hok. subst res. simpl.
    apply create_request_inv in Hc as (-> & -> & Hfresh & patient & Hpatient).
    exists patient. split; [assumption|].
    unfold get_request, bind, first_or_raise.
    assert (Hstored :
      request_by_id new_id
        (set_requests
           (fun rows => rows ++ [new_interpreter_request request new_id now current_user])%list
           db)
      = Some (new_interpreter_request request new_id now current_user)).
    { unfold request_by_id in *. simpl.
      apply find_app_new; [exact Hfresh|]. simpl. apply String.eqb_refl. }
    rewrite Hstored. unfold with_details, patient_by_id in *. simpl.
    now rewrite Hpatient.
  - intros request_id now current_user db response interpreter patient
           Hok Hprofile Hid Hpatient.
    destruct (accept_request request_id now current_user db) as [res db1] eqn:Hacc.
    simpl in Hok. subst res. simpl.
    apply accept_request_inv in Hacc as (i & r & Hi & _ & Hr & _ & _ & -> & ->).
    assert (i = interpreter) by congruence. subst i.
    assert (Hini : In interpreter (interpreter_data db))
      by (unfold interpreter_by_login in Hi; now apply find_some in Hi).
    destruct (find_some_of_in
                (fun x => InterpreterData.id x =? InterpreterData.id interpreter)%string
                (interpreter_data db) interpreter Hini (String.eqb_refl _))
      as (first & Hfirst).
    assert (Hfirst_id : InterpreterData.id first = InterpreterData.id interpreter)
      by (apply find_some in Hfirst as [_ H]; now apply String.eqb_eq).
    exists (InterpreterData.set_availability_status BUSY first).
    repeat apply conj; auto.
    unfold get_request, bind, first_or_raise.
    rewrite (accept_changes_request now db interpreter r request_id Hr).
    unfold with_details.
    assert (Hpatient1 :
      patient_by_id
        (InterpreterRequest.patient_id (accept_fields (InterpreterData.id interpreter) now r))
        (accept_changes now interpreter r db) = Some patient)
      by exact Hpatient.
    rewrite Hpatient1. do 3 f_equal.
    unfold assigned_interpreter, accept_fields. simpl.
    destruct (InterpreterData.id interpreter) as [|c s] eqn:Hidv; [congruence|].
    unfold interpreter_by_id. rewrite accept_changes_interpreters.
    rewrite find_update_where by reflexivity.
    rewrite Hfirst. simpl. now rewrite Hfirst_id, Hidv, String.eqb_refl.
Qed.

Lemma get_request_reads_back_witness :
  exists shown,
    get_request "R2" (snd (accept_request "R2" (clock 10 30) "login-arabic1" sample_db))
    = (Ok (RequestWithDetails.mk (accept_fields "interp-arabic1" (clock 10 30) R2)
             mohammed (Some shown)),
       snd (accept_request "R2" (clock 10 30) "login-arabic1" sample_db))
    /\ InterpreterData.availability_status shown = BUSY.
Proof.
  destruct get_request_reads_back as (_ & _ & Haccept).
  assert (Hid : InterpreterData.id ahmed <> "") by discriminate.
  destruct (Haccept "R2" (clock 10 30) "login-arabic1" sample_db
              (accept_fields "interp-arabic1" (clock 10 30) R2) ahmed mohammed
              eq_refl eq_refl Hid eq_refl)
    as (shown & Hread & _ & Hbusy).
  exists shown. split; [exact Hread|exact Hbusy].
Defined.

(** X16. The patient that a sync answered with is a row of the patient table,
    can be read by its id, and can be named by a request: a create call for
    that patient with an unused request id answers. *)
Theorem synced_patient_can_be_referenced
    (directory : string -> option ParsedPatient.t) (fhir_id new_id : string)
    (db : DB) (synced : PatientData.t)
    (Hsynced : fst (sync_patient_from_fhir directory fhir_id new_id db) = Ok synced) :
  let db' := snd (sync_patient_from_fhir directory fhir_id new_id db) in
  In synced (patient_data db')
  /\ (exists found,
        get_patient (PatientData.id synced) db' = (Ok found, db')
        /\ PatientData.id found = PatientData.id synced)
  /\ (forall request request_id now current_user,
        RequestCreate.patient_id request = PatientData.id synced ->
        request_by_id request_id db' = None ->
        fst (create_request request request_id now current_user db')
        = Ok (new_interpreter_request request request_id now current_user)).
Proof.
  intros db'. subst db'.
  assert (Hin : In synced
                  (patient_data (snd (sync_patient_from_fhir directory fhir_id new_id db)))).
  { destruct (sync_patient_cases directory fhir_id new_id db)
      as [(existing & Hex & Heq)|[(_ & e & Heq)|(_ & created & Heq & _)]];
      rewrite Heq in *; simpl in *.
    - injection Hsynced as <-. unfold patient_by_fhir_id in Hex.
      now apply find_some in Hex.
    - discriminate.
    - injection Hsynced as <-. apply in_or_app. right. simpl. auto. }
  set (db' := snd (sync_patient_from_fhir directory fhir_id new_id db)) in *.
  destruct (find_some_of_in (fun p => PatientData.id p =? PatientData.id synced)%string
              (patient_data db') synced Hin (String.eqb_refl _))
    as (found & Hfound).
  repeat apply conj.
  - exact Hin.
  - exists found. split.
    + unfold get_patient, first_or_raise, patient_by_id. now rewrite Hfound.
    + apply find_some in Hfound as [_ H]. now apply String.eqb_eq.
  - intros request request_id now current_user Hpatient Hfresh.
    unfold create_request, bind, first_or_raise, ret, patient_by_id.
    rewrite Hpatient, Hfound. now rewrite add_request_fresh.
Qed.

Lemma synced_patient_can_be_referenced_witness :
  fst (sync_patient_from_fhir hapi_directory "patient-007" "pat-7" sample_db)
  = Ok tran
  /\ fst (create_request vietnamese_body "R7" (clock 12 0) "staff-1"
            (snd (sync_patient_from_fhir hapi_directory "patient-007" "pat-7" sample_db)))
     = Ok (new_interpreter_request vietnamese_body "R7" (clock 12 0) "staff-1").
Proof.
  pose proof (synced_patient_can_be_referenced hapi_directory "patient-007" "pat-7"
                sample_db tran eq_refl) as H.
  cbv zeta in H. destruct H as (_ & _ & Hcreate).
  split; [reflexivity|].
  apply Hcreate; reflexivity.
Defined.

(** ** Accounts *)

Section AccountFacts.

Variable get_password_hash : string -> string -> string.
Variable verify_password : string -> string -> bool.
Variable create_access_token : string -> datetime -> string.

Lemma login_row_allowed_spec row accounts :
  login_row_allowed row accounts = true ->
  ~ In (LoginInformation.id row)
       (map LoginInformation.id (login_information accounts))
  /\ ~ In (LoginInformation.username row)
          (map LoginInformation.username (login_information accounts)).
Proof.
  unfold login_row_allowed. rewrite negb_true_iff. intros Hnone.
  split; intros Hin; apply in_map_iff in Hin as (u & Heq & Hu);
    (assert (Hex : existsb
               (fun u => (LoginInformation.id u =? LoginInformation.id row)%string
                         || (LoginInformation.username u
                             =? LoginInformation.username row)%string)
               (login_information accounts) = true);
     [apply existsb_exists; exists u; split; [assumption|];
      rewrite Heq, String.eqb_refl; auto using orb_true_r|congruence]).
Qed.

Lemma interpreter_row_allowed_spec row db :
  interpreter_row_allowed row db = true ->
  ~ In (InterpreterData.id row) (map InterpreterData.id (interpreter_data db))
  /\ ~ In (InterpreterData.login_id row)
          (map InterpreterData.login_id (interpreter_data db)).
Proof.
  unfold interpreter_row_allowed. rewrite negb_true_iff. intros Hnone.
  split; intros Hin; apply in_map_iff in Hin as (u & Heq & Hu);
    (assert (Hex : existsb
               (fun i => (InterpreterData.id i =? InterpreterData.id row)%string
                         || (InterpreterData.login_id i
                             =? InterpreterData.login_id row)%string)
               (interpreter_data db) = true);
     [apply existsb_exists; exists u; split; [assumption|];
      rewrite Heq, String.eqb_refl; auto using orb_true_r|congruence]).
Qed.

Lemma register_cases user new_id salt accounts :
  (exists e, register get_password_hash user new_id salt accounts = (Raised e, accounts))
  \/ (user_by_username (UserCreate.username user) accounts = None
      /\ login_row_allowed
           (LoginInformation.mk new_id (UserCreate.username user)
              (get_password_hash salt (UserCreate.password user))
              (UserCreate.user_type user)) accounts = true
      /\ register get_password_hash user new_id salt accounts
         = (Ok (LoginInformation.mk new_id (UserCreate.username user)
                  (get_password_hash salt (UserCreate.password user))
                  (UserCreate.user_type user)),
            mkAccounts
              (login_information accounts
               ++ [LoginInformation.mk new_id (UserCreate.username user)
                     (get_password_hash salt (UserCreate.password user))
                     (UserCreate.user_type user)])%list
              (tables accounts))).
Proof.
  unfold register.
  destruct (user_by_username (UserCreate.username user) accounts); [left; eauto|].
  destruct (login_row_allowed _ accounts) eqn:Hallowed; [right; auto|left; eauto].
Qed.

End AccountFacts.

(** X17. Registration refuses a username that an account has, with the 400
    "Username already exists", and changes nothing. Otherwise, with an
    unused id, it stores one new account and answers with it: the username
    and user type of the call, and as password the hash, not the password
    itself being stored by the endpoint. Whatever the outcome, the
    usernames of the table stay distinct and the engine's tables are
    untouched. *)
Theorem register_contract
    (get_password_hash : string -> string -> string)
    (user : UserCreate.t) (new_id salt : string) (accounts : Accounts) :
  let outcome := register get_password_hash user new_id salt accounts in
  (forall existing,
      user_by_username (UserCreate.username user) accounts = Some existing ->
      outcome = (Raised UsernameExists, accounts))
  /\ (user_by_username (UserCreate.username user) accounts = None ->
      ~ In new_id (map LoginInformation.id (login_information accounts)) ->
      exists created,
        fst outcome = Ok created
        /\ LoginInformation.id created = new_id
        /\ LoginInformation.username created = UserCreate.username user
        /\ LoginInformation.user_type created = UserCreate.user_type user
        /\ LoginInformation.password created
           = get_password_hash salt (UserCreate.password user)
        /\ login_information (snd outcome)
           = (login_information accounts ++ [created])%list
        /\ user_by_username (UserCreate.username user) (snd outcome) = Some created)
  /\ (NoDup (map LoginInformation.username (login_information accounts)) ->
      NoDup (map LoginInformation.username (login_information (snd outcome))))
  /\ tables (snd outcome) = tables accounts.
Proof.
  intros outcome. subst outcome. repeat apply conj.
  - intros existing Hex. unfold register. now rewrite Hex.
  - intros Hnone Hfresh.
    set (created := LoginInformation.mk new_id (UserCreate.username user)
                      (get_password_hash salt (UserCreate.password user))
                      (UserCreate.user_type user)).
    assert (Hallowed : login_row_allowed created accounts = true).
    { unfold login_row_allowed. rewrite negb_true_iff.
      destruct (existsb _ (login_information accounts)) eqn:Hex; [|reflexivity].
      apply existsb_exists in Hex as (u & Hu & Hmatch).
      apply orb_true_iff in Hmatch as [Hid|Hname].
      - apply String.eqb_eq in Hid. exfalso. apply Hfresh.
        simpl in Hid. rewrite <- Hid. now apply in_map.
      - unfold user_by_username in Hnone. simpl in Hname.
        rewrite (find_none _ _ Hnone u Hu) in Hname. discriminate. }
    exists created. unfold register. rewrite Hnone. fold created. rewrite Hallowed.
    simpl. repeat apply conj; auto.
    unfold user_by_username in *. simpl.
    apply find_app_new; [exact Hnone|]. simpl. apply String.eqb_refl.
  - intros Hnames.
    destruct (register_cases get_password_hash user new_id salt accounts)
      as [(e & ->)|(_ & Hallowed & ->)]; simpl; [assumption|].
    apply login_row_allowed_spec in Hallowed as [_ Hname].
    rewrite map_app. simpl.
    apply NoDup_app; [assumption|repeat constructor; simpl; tauto|].
    intros x Hx [<-|[]]. contradiction.
  - destruct (register_cases get_password_hash user new_id salt accounts)
      as [(e & ->)|(_ & _ & ->)]; reflexivity.
Qed.

Lemma register_contract_witness :
  register sample_hash (UserCreate.mk "staff1" "another" STAFF) "login-9" "s9"
    sample_accounts
  = (Raised UsernameExists, sample_accounts)
  /\ exists created,
       fst (register sample_hash (UserCreate.mk "admin1" "password123" ADMIN)
              "login-admin1" "s2" sample_accounts) = Ok created
       /\ LoginInformation.password created = "s2$password123".
Proof.
  pose proof (register_contract sample_hash (UserCreate.mk "staff1" "another" STAFF)
                "login-9" "s9" sample_accounts) as Htaken.
  pose proof (register_contract sample_hash (UserCreate.mk "admin1" "password123" ADMIN)
                "login-admin1" "s2" sample_accounts) as Hnew.
  cbv zeta in Htaken, Hnew.
  destruct Htaken as (Htaken & _). destruct Hnew as (_ & Hnew & _).
  split; [exact (Htaken staff1 eq_refl)|].
  assert (Hfresh : ~ In "login-admin1"
                       (map LoginInformation.id (login_information sample_accounts)))
    by (simpl; intuition discriminate).
  destruct (Hnew eq_refl Hfresh) as (created & Hanswer & _ & _ & _ & Hhash & _).
  exists created. split; [exact Hanswer|exact Hhash].
Defined.

(** X18. Login answers exactly when an account has the username and the password
    verifies against its stored hash; the answer carries that account's id
    and user type and the token type "bearer". An unknown username and a
    wrong password raise the same 401 "Incorrect username or password", and
    no login changes anything. *)
Theorem login_contract
    (verify_password : string -> string -> bool)
    (create_access_token : string -> datetime -> string)
    (credentials : LoginRequest.t) (now : datetime) (accounts : Accounts) :
  let outcome := login verify_password create_access_token credentials now accounts in
  snd outcome = accounts
  /\ ((exists response, fst outcome = Ok response)
      <-> exists user,
            user_by_username (LoginRequest.username credentials) accounts = Some user
            /\ verify_password (LoginRequest.password credentials)
                               (LoginInformation.password user) = true)
  /\ (forall response, fst outcome = Ok response ->
        exists user,
          user_by_username (LoginRequest.username credentials) accounts = Some user
          /\ LoginResponse.user_id response = LoginInformation.id user
          /\ LoginResponse.user_type response = LoginInformation.user_type user
          /\ LoginResponse.token_type response = "bearer"
          /\ LoginResponse.access_token response
             = create_access_token (LoginInformation.id user) now)
  /\ ((forall response, fst outcome <> Ok response) ->
        fst outcome = Raised IncorrectCredentials).
Proof.
  intros outcome. subst outcome. unfold login.
  destruct (user_by_username (LoginRequest.username credentials) accounts)
    as [user|] eqn:Huser.
  - destruct (verify_password (LoginRequest.password credentials)
                (LoginInformation.password user)) eqn:Hverify; simpl.
    + split; [reflexivity|split; [|split]].
      * split; [intros _; exists user; auto|intros _; eauto].
      * intros response [= <-]. exists user. simpl. repeat apply conj; auto.
      * intros Hnever. exfalso. eapply Hnever. reflexivity.
    + split; [reflexivity|split; [|split]].
      * split; [intros [response H]; discriminate|].
        intros (user' & [= <-] & Hok). congruence.
      * intros response H. discriminate.
      * reflexivity.
  - simpl. split; [reflexivity|split; [|split]].
    + split; [intros [response H]; discriminate|].
      intros (user' & H & _). discriminate.
    + intros response H. discriminate.
    + reflexivity.
Qed.

(** X19. An account that registration answered with can log in at once with the
    password it registered, given that the hash of that password verifies:
    the login answers with the id and user type of the new account. *)
Theorem register_then_login
    (get_password_hash : string -> string -> string)
    (verify_password : string -> string -> bool)
    (create_access_token : string -> datetime -> string)
    (user : UserCreate.t) (new_id salt : string) (now : datetime)
    (accounts : Accounts) (created : LoginInformation.t)
    (Hverifies : verify_password (UserCreate.password user)
                   (get_password_hash salt (UserCreate.password user)) = true)
    (Hregistered :
       fst (register get_password_hash user new_id salt accounts) = Ok created) :
  let accounts' := snd (register get_password_hash user new_id salt accounts) in
  login verify_password create_access_token
    (LoginRequest.mk (UserCreate.username user) (UserCreate.password user))
    now accounts'
  = (Ok (LoginResponse.mk (create_access_token new_id now) "bearer"
           (UserCreate.user_type user) new_id),
     accounts').
Proof.
  intros accounts'. subst accounts'.
  destruct (register_cases get_password_hash user new_id salt accounts)
    as [(e & Heq)|(Hnone & _ & Heq)]; rewrite Heq in *; [discriminate|].
  simpl in *. unfold login. simpl.
  assert (Hfound :
    user_by_username (UserCreate.username user)
      (mkAccounts
         (login_information accounts
          ++ [LoginInformation.mk new_id (UserCreate.username user)
                (get_password_hash salt (UserCreate.password user))
                (UserCreate.user_type user)])%list
         (tables accounts))
    = Some (LoginInformation.mk new_id (UserCreate.username user)
              (get_password_hash salt (UserCreate.password user))
              (UserCreate.user_type user))).
  { unfold user_by_username in *. simpl.
    apply find_app_new; [exact Hnone|]. simpl. apply String.eqb_refl. }
  rewrite Hfound. simpl. now rewrite Hverifies.
Qed.

Lemma register_then_login_witness :
  fst (login sample_verify sample_token (LoginRequest.mk "admin1" "password123")
         (clock 8 0)
         (snd (register sample_hash (UserCreate.mk "admin1" "password123" ADMIN)
                 "login-admin1" "s2" sample_accounts)))
  = Ok (LoginResponse.mk "token-for-login-admin1" "bearer" ADMIN "login-admin1").
Proof.
  pose proof (register_then_login sample_hash sample_verify sample_token
                (UserCreate.mk "admin1" "password123" ADMIN) "login-admin1" "s2"
                (clock 8 0) sample_accounts
                (LoginInformation.mk "login-admin1" "admin1" "s2$password123" ADMIN)
                eq_refl eq_refl) as H.
  cbv zeta in H. exact (f_equal fst H).
Defined.

Lemma login_contract_witness :
  fst (login sample_verify sample_token (LoginRequest.mk "staff1" "password123")
         (clock 8 0) sample_accounts)
  = Ok (LoginResponse.mk "token-for-login-staff1" "bearer" STAFF "login-staff1")
  /\ fst (login sample_verify sample_token (LoginRequest.mk "staff1" "guess")
            (clock 8 0) sample_accounts)
     = Raised IncorrectCredentials
  /\ fst (login sample_verify sample_token (LoginRequest.mk "nobody" "password123")
            (clock 8 0) sample_accounts)
     = Raised IncorrectCredentials.
Proof.
  pose proof (login_contract sample_verify sample_token
                (LoginRequest.mk "staff1" "guess") (clock 8 0) sample_accounts)
    as Hwrong.
  pose proof (login_contract sample_verify sample_token
                (LoginRequest.mk "nobody" "password123") (clock 8 0) sample_accounts)
    as Hunknown.
  cbv zeta in Hwrong, Hunknown.
  destruct Hwrong as (_ & _ & _ & Hwrong).
  destruct Hunknown as (_ & _ & _ & Hunknown).
  split; [reflexivity|split].
  - apply Hwrong. intros response H. discriminate H.
  - apply Hunknown. intros response H. discriminate H.
Defined.

Lemma create_interpreter_cases
    (get_password_hash : string -> string -> string)
    interpreter new_login_id new_interpreter_id salt accounts :
  (exists e,
      create_interpreter get_password_hash interpreter new_login_id new_interpreter_id
        salt accounts = (Raised e, accounts))
  \/ (user_by_username (InterpreterCreate.username interpreter) accounts = None
      /\ login_row_allowed
           (interpreter_login get_password_hash interpreter new_login_id salt)
           accounts = true
      /\ interpreter_row_allowed
           (interpreter_profile interpreter new_login_id new_interpreter_id)
           (tables accounts) = true
      /\ create_interpreter get_password_hash interpreter new_login_id
           new_interpreter_id salt accounts
         = (Ok (InterpreterWithLogin.mk
                  (interpreter_profile interpreter new_login_id new_interpreter_id)
                  (InterpreterCreate.username interpreter)),
            mkAccounts
              (login_information accounts
               ++ [interpreter_login get_password_hash interpreter new_login_id salt])%list
              (set_interpreters
                 (fun rows =>
                    rows ++ [interpreter_profile interpreter new_login_id
                               new_interpreter_id])%list
                 (tables accounts)))).
Proof.
  unfold create_interpreter.
  destruct (user_by_username (InterpreterCreate.username interpreter) accounts);
    [left; eauto|].
  cbv zeta.
  destruct (login_row_allowed _ accounts) eqn:Hlogin; [|left; simpl; eauto].
  destruct (interpreter_row_allowed _ (tables accounts)) eqn:Hrow;
    [|left; simpl; eauto].
  right. simpl. auto.
Qed.

(** X20. Creating an interpreter refuses a username that an account has, with the
    400 "Username already exists". When it answers, it has stored an account
    of type INTERPRETER and a profile that is AVAILABLE, with the name,
    language and contact columns of the call, linked to that account: the
    profile is the one found for the new account's id, and the account is
    the one found for the username. When it does not answer, nothing is
    stored: there is no account without its profile. Patients and requests
    are never touched. *)
Theorem create_interpreter_contract
    (get_password_hash : string -> string -> string)
    (interpreter : InterpreterCreate.t)
    (new_login_id new_interpreter_id salt : string) (accounts : Accounts) :
  let outcome := create_interpreter get_password_hash interpreter new_login_id
                   new_interpreter_id salt accounts in
  (forall existing,
      user_by_username (InterpreterCreate.username interpreter) accounts
      = Some existing ->
      outcome = (Raised UsernameExists, accounts))
  /\ (forall e, fst outcome = Raised e -> snd outcome = accounts)
  /\ (forall response, fst outcome = Ok response ->
        let profile := InterpreterWithLogin.interpreter response in
        InterpreterData.id profile = new_interpreter_id
        /\ InterpreterData.login_id profile = new_login_id
        /\ InterpreterData.availability_status profile = AVAILABLE
        /\ InterpreterData.name profile = InterpreterCreate.name interpreter
        /\ InterpreterData.language profile = InterpreterCreate.language interpreter
        /\ InterpreterWithLogin.username response
           = InterpreterCreate.username interpreter
        /\ interpreter_by_login new_login_id (tables (snd outcome)) = Some profile
        /\ (exists account,
              user_by_username (InterpreterCreate.username interpreter) (snd outcome)
              = Some account
              /\ LoginInformation.id account = new_login_id
              /\ LoginInformation.user_type account = INTERPRETER
              /\ LoginInformation.password account
                 = get_password_hash salt (InterpreterCreate.password interpreter)))
  /\ patient_data (tables (snd outcome)) = patient_data (tables accounts)
  /\ interpreter_requests (tables (snd outcome))
     = interpreter_requests (tables accounts).
Proof.
  intros outcome. subst outcome.
  pose proof (create_interpreter_cases get_password_hash interpreter new_login_id
                new_interpreter_id salt accounts) as Hcases.
  split; [|split; [|split; [|split]]].
  - intros existing Hex. unfold create_interpreter. now rewrite Hex.
  - intros e He. destruct Hcases as [(e' & Heq)|(_ & _ & _ & Heq)];
      rewrite Heq in *; [reflexivity|discriminate].
  - intros response Hok.
    destruct Hcases as [(e' & Heq)|(Hnone & _ & Hrow & Heq)];
      rewrite Heq in *; [discriminate|].
    simpl in Hok. injection Hok as <-. simpl.
    apply interpreter_row_allowed_spec in Hrow as [_ Hlogin_id].
    repeat apply conj; auto.
    + unfold interpreter_by_login. simpl.
      apply find_app_new; [|simpl; apply String.eqb_refl].
      apply find_none_iff. intros i Hi. apply String.eqb_neq. intros Heqid.
      apply Hlogin_id. simpl. rewrite <- Heqid. now apply in_map.
    + eexists. split.
      * unfold user_by_username in *. simpl.
        apply find_app_new; [exact Hnone|]. simpl. apply String.eqb_refl.
      * simpl. auto.
  - destruct Hcases as [(e' & ->)|(_ & _ & _ & ->)]; reflexivity.
  - destruct Hcases as [(e' & ->)|(_ & _ & _ & ->)]; reflexivity.
Qed.

Lemma create_interpreter_contract_witness :
  exists response,
    fst (create_interpreter sample_hash new_mandarin_interpreter
           "login-mandarin2" "interp-mandarin2" "s3" sample_accounts) = Ok response
    /\ interpreter_by_login "login-mandarin2"
         (tables (snd (create_interpreter sample_hash new_mandarin_interpreter
                         "login-mandarin2" "interp-mandarin2" "s3" sample_accounts)))
       = Some (InterpreterWithLogin.interpreter response)
    /\ InterpreterData.availability_status (InterpreterWithLogin.interpreter response)
       = AVAILABLE.
Proof.
  pose proof (create_interpreter_contract sample_hash new_mandarin_interpreter
                "login-mandarin2" "interp-mandarin2" "s3" sample_accounts) as H.
  cbv zeta in H. destruct H as (_ & _ & Hanswer & _).
  eexists. split; [reflexivity|].
  destruct (Hanswer _ eq_refl) as (_ & _ & Havailable & _ & _ & _ & Hprofile & _).
  split; [exact Hprofile|exact Havailable].
Defined.

Lemma created_interpreter_is_found row db :
  interpreter_row_allowed row db = true ->
  interpreter_by_login (InterpreterData.login_id row)
    (set_interpreters (fun rows => rows ++ [row])%list db) = Some row.
Proof.
  intros Hrow. apply interpreter_row_allowed_spec in Hrow as [_ Hlogin_id].
  unfold interpreter_by_login. simpl.
  apply find_app_new; [|apply String.eqb_refl].
  apply find_none_iff. intros i Hi. apply String.eqb_neq. intros Heqid.
  apply Hlogin_id. rewrite <- Heqid. now apply in_map.
Qed.

(** X21. An interpreter account is usable at once: with the account that creating
    an interpreter stored, the accept endpoint behind its interpreter guard
    answers for any PENDING request in the new interpreter's language. *)
Theorem new_interpreter_can_accept
    (get_password_hash : string -> string -> string)
    (interpreter : InterpreterCreate.t)
    (new_login_id new_interpreter_id salt : string) (accounts : Accounts)
    (response : InterpreterWithLogin.t) (account : LoginInformation.t)
    (request_id : string) (now : datetime) (request : InterpreterRequest.t)
    (Hcreated :
       fst (create_interpreter get_password_hash interpreter new_login_id
              new_interpreter_id salt accounts) = Ok response)
    (Haccount :
       user_by_username (InterpreterCreate.username interpreter)
         (snd (create_interpreter get_password_hash interpreter new_login_id
                 new_interpreter_id salt accounts)) = Some account)
    (Hrequest : request_by_id request_id (tables accounts) = Some request)
    (Hpending : InterpreterRequest.status request = PENDING)
    (Hlanguage : InterpreterRequest.language request
                 = InterpreterCreate.language interpreter) :
  fst (depends require_interpreter (accept_request request_id now) account
         (tables (snd (create_interpreter get_password_hash interpreter new_login_id
                         new_interpreter_id salt accounts))))
  = Ok (accept_fields new_interpreter_id now request).
Proof.
  destruct (create_interpreter_cases get_password_hash interpreter new_login_id
              new_interpreter_id salt accounts)
    as [(e & Heq)|(Hnone & _ & Hrow & Heq)]; rewrite Heq in *; [discriminate|].
  simpl in Hcreated, Haccount |- *. clear Heq Hcreated.
  set (profile := interpreter_profile interpreter new_login_id new_interpreter_id) in *.
  set (db1 := set_interpreters (fun rows => rows ++ [profile])%list (tables accounts)).
  assert (Haccount' : account
                      = interpreter_login get_password_hash interpreter new_login_id salt).
  { unfold user_by_username in *. simpl in Haccount.
    rewrite (find_app_new _ _ _ Hnone) in Haccount by (simpl; apply String.eqb_refl).
    congruence. }
  subst account.
  assert (Hprofile : interpreter_by_login new_login_id db1 = Some profile)
    by (apply (created_interpreter_is_found profile (tables accounts) Hrow)).
  assert (Hrequest' : request_by_id request_id db1 = Some request) by exact Hrequest.
  unfold depends, require_interpreter. simpl.
  rewrite (accept_answers request_id new_login_id now db1 profile Hprofile eq_refl
             request Hrequest' Hpending Hlanguage).
  reflexivity.
Qed.

Lemma new_interpreter_can_accept_witness :
  fst (depends require_interpreter (accept_request "R6" (clock 9 40))
         (LoginInformation.mk "login-mandarin2" "interpreter_mandarin2"
            "s3$password123" INTERPRETER)
         (tables (snd (create_interpreter sample_hash new_mandarin_interpreter
                         "login-mandarin2" "interp-mandarin2" "s3"
                         (mkAccounts [staff1] mandarin_ward_db)))))
  = Ok (accept_fields "interp-mandarin2" (clock 9 40) R6).
Proof.
  eapply (new_interpreter_can_accept sample_hash new_mandarin_interpreter
            "login-mandarin2" "interp-mandarin2" "s3"
            (mkAccounts [staff1] mandarin_ward_db));
    reflexivity.
Defined.

(** X22. The guards separate the roles: every account passes exactly one of the
    staff guard and the interpreter guard, and the admin guard lets through
    only accounts the staff guard lets through. So the accept and complete
    endpoints raise the 403 "Interpreter access required" for staff and
    admins, the create and list-all endpoints raise the 403 "Staff access
    required" for interpreters, in each case before the store is read, and
    for the accounts they let through the endpoints run with that account's
    id. *)
Theorem guards_separate_roles (user : LoginInformation.t) :
  (require_staff user = Ok user
   <-> LoginInformation.user_type user <> INTERPRETER)
  /\ (require_interpreter user = Ok user
      <-> LoginInformation.user_type user = INTERPRETER)
  /\ (require_admin user = Ok user -> require_staff user = Ok user)
  /\ (LoginInformation.user_type user <> INTERPRETER ->
      forall request_id updates now db,
        depends require_interpreter (accept_request request_id now) user db
        = (Raised InterpreterRequired, db)
        /\ depends require_interpreter (complete_request request_id updates now) user db
           = (Raised InterpreterRequired, db)
        /\ forall request new_id,
             depends require_staff (create_request request new_id now) user db
             = create_request request new_id now (LoginInformation.id user) db)
  /\ (LoginInformation.user_type user = INTERPRETER ->
      forall request new_id now skip limit status_filter db,
        depends require_staff (create_request request new_id now) user db
        = (Raised StaffRequired, db)
        /\ depends require_staff (fun _ => get_all_requests skip limit status_filter)
             user db
           = (Raised StaffRequired, db)
        /\ forall request_id,
             depends require_interpreter (accept_request request_id now) user db
             = accept_request request_id now (LoginInformation.id user) db).
Proof.
  unfold depends, require_staff, require_interpreter, require_admin.
  destruct (LoginInformation.user_type user) eqn:Htype;
    (split; [|split; [|split; [|split]]]);
    try (split; intros; congruence);
    try (intros; congruence);
    try (intros H; congruence);
    try (intros _; intros; repeat apply conj; intros; reflexivity).
Qed.

Lemma guards_separate_roles_witness :
  depends require_interpreter (accept_request "R2" (clock 10 30)) staff1 sample_db
  = (Raised InterpreterRequired, sample_db).
Proof.
  assert (Hstaff : LoginInformation.user_type staff1 <> INTERPRETER) by discriminate.
  destruct (guards_separate_roles staff1) as (_ & _ & _ & Hrefused & _).
  exact (proj1 (Hrefused Hstaff "R2" no_notes (clock 10 30) sample_db)).
Defined.

(** ** The directory client *)

Lemma append_assoc (a b c : string) : ((a ++ b) ++ c = a ++ (b ++ c))%string.
Proof. induction a as [|x a IH]; simpl; [reflexivity|now rewrite IH]. Qed.

Lemma append_nonempty (a b : string) : b <> "" -> (a ++ b)%string <> "".
Proof. destruct a; simpl; [auto|discriminate]. Qed.

Lemma append_empty (a : string) : (a ++ "")%string = a.
Proof. induction a as [|x a IH]; simpl; [reflexivity|now rewrite IH]. Qed.

Lemma all_chars_app test (a b : string) :
  all_chars test (a ++ b) = all_chars test a && all_chars test b.
Proof.
  induction a as [|x a IH]; simpl; [reflexivity|]. now rewrite IH, andb_assoc.
Qed.

Lemma split_from_words (s word : string) :
  word = "" \/ is_word word -> Forall is_word (split_from word s).
Proof.
  revert word. induction s as [|c rest IH]; intros word Hword; simpl.
  - destruct word; [constructor|].
    destruct Hword as [Hempty|Hw]; [discriminate|].
    apply Forall_cons; [assumption|apply Forall_nil].
  - destruct (isspace c) eqn:Hc.
    + destruct word as [|x word'].
      * apply IH. now left.
      * destruct Hword as [Hempty|Hw]; [discriminate|].
        constructor; [assumption|]. apply IH. now left.
    + apply IH. right. split.
      * apply append_nonempty. discriminate.
      * rewrite all_chars_app. simpl. rewrite Hc. simpl.
        destruct Hword as [->|[_ Hw]]; [reflexivity|]. now rewrite Hw.
Qed.

Lemma split_words (s : string) : Forall is_word (split s).
Proof. apply split_from_words. now left. Qed.

Lemma lstrip_word (w rest : string) :
  is_word w -> lstrip isspace (w ++ rest) = (w ++ rest)%string.
Proof.
  intros [Hne Hchars]. destruct w as [|c w']; [congruence|]. simpl in *.
  apply andb_true_iff in Hchars as [Hc _]. apply negb_true_iff in Hc.
  now rewrite Hc.
Qed.

Lemma rstrip_word (w : string) : is_word w -> rstrip isspace w = w.
Proof.
  intros [Hne Hchars]. clear Hne. induction w as [|c w' IH]; [reflexivity|].
  simpl in *. apply andb_true_iff in Hchars as [Hc Hrest].
  apply negb_true_iff in Hc. rewrite (IH Hrest), Hc. now destruct w'.
Qed.

Lemma rstrip_app_word (a w : string) :
  is_word w -> rstrip isspace (a ++ w) = (a ++ w)%string.
Proof.
  intros Hw. induction a as [|x a IH]; simpl; [now apply rstrip_word|].
  rewrite IH. destruct (a ++ w)%string eqn:Happ; [|reflexivity].
  exfalso. apply (append_nonempty a w (proj1 Hw)). exact Happ.
Qed.

Lemma concat_snoc (ws : list string) (w : string) :
  ws <> [] ->
  String.concat " " (ws ++ [w]) = (String.concat " " ws ++ " " ++ w)%string.
Proof.
  induction ws as [|x ws IH]; [congruence|]. intros _.
  destruct ws as [|y ws']; simpl; [reflexivity|].
  simpl in IH. rewrite IH by discriminate. now rewrite !append_assoc.
Qed.

(** The name that the parser reads from the name that the builder wrote. *)
Lemma name_of_words (words : list string) :
  words <> [] -> Forall is_word words ->
  strip isspace (String.concat " " (removelast words) ++ " " ++ last words "")
  = String.concat " " words.
Proof.
  intros Hne Hwords.
  rewrite (app_removelast_last "" Hne) in Hwords.
  apply Forall_app in Hwords as [Hgiven Hfamily].
  inversion Hfamily as [|? ? Hw _]; subst.
  rewrite (app_removelast_last "" Hne) at 3.
  set (given := removelast words) in *. set (family := last words "") in *.
  unfold strip.
  rewrite <- append_assoc, rstrip_app_word by assumption.
  destruct given as [|w0 given'].
  - simpl. pose proof (lstrip_word family "" Hw) as Hl.
    rewrite append_empty in Hl. exact Hl.
  - rewrite concat_snoc by discriminate.
    inversion Hgiven as [|? ? Hw0 _]; subst.
    rewrite append_assoc.
    destruct given' as [|w1 given'']; simpl.
    + now apply lstrip_word.
    + rewrite !append_assoc. now apply lstrip_word.
Qed.

Lemma split_from_nil (s word : string) :
  split_from word s = [] <-> word = "" /\ all_chars isspace s = true.
Proof.
  revert word. induction s as [|c rest IH]; intros word; simpl.
  - destruct word; split; intros H; try tauto; try discriminate.
    destruct H. discriminate.
  - destruct (isspace c) eqn:Hc; simpl.
    + destruct word as [|x word'].
      * rewrite IH. tauto.
      * split; [discriminate|intros [H _]; discriminate].
    + rewrite IH. split; [|intros [_ H]; discriminate].
      intros [H _]. destruct word; discriminate.
Qed.

Lemma built_name patient_data resource fhir_id :
  build_patient_resource patient_data = Some resource ->
  _get_patient_name (stored_as fhir_id resource)
  = String.concat " " (split (PatientCreate.name patient_data)).
Proof.
  unfold build_patient_resource.
  destruct (nonempty (PatientCreate.name patient_data)) eqn:Hname.
  - destruct (split (PatientCreate.name patient_data)) as [|w words] eqn:Hsplit;
      [discriminate|].
    intros [= <-]. unfold _get_patient_name, stored_as. cbn [Patient.name HumanName.given
      HumanName.family get_or].
    assert (Hwords : Forall is_word (w :: words))
      by (rewrite <- Hsplit; apply split_words).
    exact (name_of_words (w :: words) ltac:(discriminate) Hwords).
  - destruct (PatientCreate.name patient_data); [|discriminate].
    intros [= <-]. reflexivity.
Qed.

Lemma blank_name_is_not_built patient_data :
  nonempty (PatientCreate.name patient_data) = true ->
  all_chars isspace (PatientCreate.name patient_data) = true ->
  build_patient_resource patient_data = None.
Proof.
  intros Hname Hblank. unfold build_patient_resource. rewrite Hname.
  assert (Hnil : split (PatientCreate.name patient_data) = [])
    by (apply split_from_nil; auto).
  now rewrite Hnil.
Qed.

(** X23. The builder fails exactly on a name that is not empty and is only
    whitespace. From the resource it builds, once the server has stored it
    under an id, the parser reads back: the id; the name with its words
    joined by single spaces; the gender and the birth date; the phone number
    and the email, or nothing for one that is absent or empty; the language,
    or "English" for an empty one; and, for an address that was given, the
    empty string: the address text is not read back. *)
Theorem parse_of_built_resource (patient_data : PatientCreate.t) :
  (build_patient_resource patient_data = None
   <-> nonempty (PatientCreate.name patient_data) = true
       /\ all_chars isspace (PatientCreate.name patient_data) = true)
  /\ (forall resource fhir_id,
        build_patient_resource patient_data = Some resource ->
        parse_patient_resource (stored_as fhir_id resource)
        = ParsedPatient.mk (Some fhir_id)
            (String.concat " " (split (PatientCreate.name patient_data)))
            (Some (PatientCreate.gender patient_data))
            (Some (PatientCreate.birthdate patient_data))
            (if truthy (PatientCreate.phone_number patient_data)
             then PatientCreate.phone_number patient_data else None)
            (if truthy (PatientCreate.email patient_data)
             then PatientCreate.email patient_data else None)
            (if truthy (PatientCreate.address patient_data) then Some "" else None)
            (if nonempty (PatientCreate.language patient_data)
             then PatientCreate.language patient_data else "English")).
Proof.
  split.
  - unfold build_patient_resource.
    destruct (nonempty (PatientCreate.name patient_data)) eqn:Hname.
    + destruct (split (PatientCreate.name patient_data)) as [|w words] eqn:Hsplit.
      * apply split_from_nil in Hsplit as [_ Hblank]. tauto.
      * split; [discriminate|]. intros [_ Hblank].
        assert (Hnil : split (PatientCreate.name patient_data) = [])
          by (apply split_from_nil; auto).
        congruence.
    + split; [discriminate|intros [H _]; discriminate].
  - intros resource fhir_id Hbuilt.
    pose proof (built_name patient_data resource fhir_id Hbuilt) as Hname.
    unfold parse_patient_resource. rewrite Hname. clear Hname.
    unfold build_patient_resource in Hbuilt.
    destruct (if nonempty (PatientCreate.name patient_data)
              then match split (PatientCreate.name patient_data) with
                   | [] => None
                   | _ :: _ =>
                       Some (last (split (PatientCreate.name patient_data)) "",
                             removelast (split (PatientCreate.name patient_data)))
                   end
              else Some ("", [])) as [[family given]|]; [|discriminate].
    injection Hbuilt as <-.
    unfold _get_telecom, _get_address, _get_language, stored_as.
    cbn [Patient.id Patient.gender Patient.birthDate Patient.telecom Patient.address
         Patient.communication].
    f_equal.
    + destruct (truthy (PatientCreate.phone_number patient_data));
        destruct (truthy (PatientCreate.email patient_data)); reflexivity.
    + destruct (truthy (PatientCreate.phone_number patient_data));
        destruct (truthy (PatientCreate.email patient_data)); reflexivity.
    + destruct (truthy (PatientCreate.address patient_data)); reflexivity.
    + destruct (nonempty (PatientCreate.language patient_data)); reflexivity.
Qed.

Lemma parse_of_built_resource_witness :
  build_patient_resource blank_name_body = None
  /\ exists resource,
       build_patient_resource new_patient_body = Some resource
       /\ parse_patient_resource (stored_as "patient-100" resource)
          = ParsedPatient.mk (Some "patient-100") "Nguyen Van An" (Some "male")
              (Some "1984-02-11") (Some "+1-555-0111") None (Some "") "Vietnamese".
Proof.
  destruct (parse_of_built_resource blank_name_body) as [Hblank _].
  destruct (parse_of_built_resource new_patient_body) as [_ Hparsed].
  split.
  - apply Hblank. split; reflexivity.
  - eexists. split; [reflexivity|].
    rewrite (Hparsed _ "patient-100" eq_refl). reflexivity.
Defined.

Lemma find_none_passes {A} (test : A -> bool) (l : list A) :
  none_passes test l -> find test l = None.
Proof. intros H. now apply find_none_iff. Qed.

Lemma find_first_passing {A} (test : A -> bool) (before after : list A) (x : A) :
  none_passes test before -> test x = true ->
  find test (before ++ x :: after) = Some x.
Proof.
  intros Hbefore Hx. induction before as [|y before IH]; simpl.
  - now rewrite Hx.
  - rewrite (Hbefore y (or_introl eq_refl)). apply IH.
    intros z Hz. apply Hbefore. now right.
Qed.

Lemma preferred_language_skips (before rest : list Communication.t) :
  none_passes decides_language before ->
  preferred_language (before ++ rest) = preferred_language rest.
Proof.
  intros Hbefore. induction before as [|c before IH]; simpl; [reflexivity|].
  pose proof (Hbefore c (or_introl eq_refl)) as Hc. unfold decides_language in Hc.
  rewrite IH by (intros z Hz; apply Hbefore; now right).
  destruct (Communication.preferred c); [|reflexivity].
  destruct (Communication.coding c); [reflexivity|discriminate].
Qed.

(** X24. What the parser chooses from a Patient resource. The name of a resource
    without names is "Unknown". A contact value is the value of the first
    contact point of the asked system, and absent when no contact point has
    that system. The language is the display of the first coding of the first
    communication that is preferred and has a coding, "English" when that
    coding has no display, and "English" when no communication is preferred
    with a coding, whatever languages the resource lists. The address is
    absent exactly when the resource has no address. *)
Theorem parse_patient_resource_choices (patient : Patient.t) :
  (Patient.name patient = [] ->
     ParsedPatient.name (parse_patient_resource patient) = "Unknown")
  /\ (forall system,
        none_passes (fun t => option_string_eqb (ContactPoint.system t) system)
                    (Patient.telecom patient) ->
        _get_telecom patient system = None)
  /\ (forall system before contact after,
        Patient.telecom patient = (before ++ contact :: after)%list ->
        none_passes (fun t => option_string_eqb (ContactPoint.system t) system) before ->
        ContactPoint.system contact = Some system ->
        _get_telecom patient system = ContactPoint.value contact)
  /\ (none_passes decides_language (Patient.communication patient) ->
        ParsedPatient.language (parse_patient_resource patient) = "English")
  /\ (forall before comm after coding codings,
        Patient.communication patient = (before ++ comm :: after)%list ->
        none_passes decides_language before ->
        Communication.preferred comm = true ->
        Communication.coding comm = coding :: codings ->
        ParsedPatient.language (parse_patient_resource patient)
        = get_or "English" (Coding.display coding))
  /\ (Patient.address patient = []
      <-> ParsedPatient.address (parse_patient_resource patient) = None).
Proof.
  split; [|split; [|split; [|split; [|split]]]].
  - intros Hname. simpl. unfold _get_patient_name. now rewrite Hname.
  - intros system Hnone. unfold _get_telecom. now rewrite find_none_passes.
  - intros system before contact after Htelecom Hnone Hsystem.
    unfold _get_telecom. rewrite Htelecom.
    rewrite find_first_passing; auto.
    rewrite Hsystem. simpl. apply String.eqb_refl.
  - intros Hnone. simpl. unfold _get_language.
    rewrite <- (app_nil_r (Patient.communication patient)).
    now rewrite preferred_language_skips.
  - intros before comm after coding codings Hcomms Hnone Hpreferred Hcoding.
    simpl. unfold _get_language. rewrite Hcomms, preferred_language_skips by assumption.
    simpl. now rewrite Hpreferred, Hcoding.
  - simpl. unfold _get_address.
    destruct (Patient.address patient); split; intros H; congruence.
Qed.

Lemma parse_patient_resource_choices_witness :
  ParsedPatient.language
    (parse_patient_resource
       (Patient.mk (Some "patient-3") [] None None []
          []
          [Communication.mk [Coding.mk None (Some "Arabic")] None false;
           Communication.mk [Coding.mk None (Some "Tagalog")] None true]))
  = "Tagalog".
Proof.
  destruct (parse_patient_resource_choices
              (Patient.mk (Some "patient-3") [] None None [] []
                 [Communication.mk [Coding.mk None (Some "Arabic")] None false;
                  Communication.mk [Coding.mk None (Some "Tagalog")] None true]))
    as (_ & _ & _ & _ & Hlanguage & _).
  apply (Hlanguage [Communication.mk [Coding.mk None (Some "Arabic")] None false]
           (Communication.mk [Coding.mk None (Some "Tagalog")] None true) []
           (Coding.mk None (Some "Tagalog")) []); try reflexivity.
  intros x [<-|[]]. reflexivity.
Defined.

(** ** Creating a patient *)

Section CreatePatientFacts.

Variable post_patient : Patient.t -> option Patient.t.
Variable describe : CreateFailure -> string.

Lemma create_patient_cases body new_id db :
  (exists cause,
      create_patient post_patient describe body new_id db
      = (Raised (CreatePatientFailed describe cause), db))
  \/ (exists resource reply created,
        build_patient_resource body = Some resource
        /\ post_patient resource = Some reply
        /\ patient_row new_id
             (if truthy (PatientCreate.location body)
              then PatientCreate.location body else None)
             (parse_patient_resource reply) = Some created
        /\ ~ In (PatientData.fhir_id created)
                (map PatientData.fhir_id (patient_data db))
        /\ create_patient post_patient describe body new_id db
           = (Ok created, set_patients (fun rows => rows ++ [created])%list db)).
Proof.
  unfold create_patient.
  destruct (build_patient_resource body) as [resource|]; [|left; eauto].
  destruct (post_patient resource) as [reply|] eqn:Hpost; [|left; eauto].
  destruct (patient_row new_id _ (parse_patient_resource reply)) as [created|] eqn:Hrow;
    [|left; eauto].
  destruct (add_patient created db) as [[[]|e] db'] eqn:Hadd; [|left; eauto].
  right. exists resource, reply, created.
  apply add_patient_fhir_ids in Hadd as [-> Hnew].
  repeat apply conj; auto.
Qed.

End CreatePatientFacts.

(** X25. Creating a patient either fails with a 500 and leaves the local store as
    it was, or stores exactly one row: the patient parsed from the server's
    reply, with the location of the call when it is not empty. A name that
    is only whitespace fails whatever the directory server would answer. The
    stored row is found under its external identifier, so that a later sync
    of that identifier answers with it and changes nothing. *)
Theorem create_patient_contract
    (post_patient : Patient.t -> option Patient.t)
    (describe : CreateFailure -> string)
    (body : PatientCreate.t) (new_id : string) (db : DB) :
  let outcome := create_patient post_patient describe body new_id db in
  (forall e, fst outcome = Raised e -> status_code e = 500 /\ snd outcome = db)
  /\ (nonempty (PatientCreate.name body) = true ->
      all_chars isspace (PatientCreate.name body) = true ->
      forall post_patient',
        create_patient post_patient' describe body new_id db
        = (Raised (CreatePatientFailed describe IndexError), db))
  /\ (forall created, fst outcome = Ok created ->
        (exists resource reply,
            build_patient_resource body = Some resource
            /\ post_patient resource = Some reply
            /\ patient_row new_id
                 (if truthy (PatientCreate.location body)
                  then PatientCreate.location body else None)
                 (parse_patient_resource reply) = Some created)
        /\ patient_data (snd outcome) = (patient_data db ++ [created])%list
        /\ interpreter_data (snd outcome) = interpreter_data db
        /\ interpreter_requests (snd outcome) = interpreter_requests db
        /\ patient_by_fhir_id (PatientData.fhir_id created) (snd outcome) = Some created
        /\ forall directory new_id',
             sync_patient_from_fhir directory (PatientData.fhir_id created) new_id'
               (snd outcome)
             = (Ok created, snd outcome)).
Proof.
  intros outcome. subst outcome.
  split; [|split].
  - intros e He.
    destruct (create_patient_cases post_patient describe body new_id db)
      as [(cause & Heq)|(resource & reply & created & _ & _ & _ & _ & Heq)];
      rewrite Heq in *; [|discriminate].
    simpl in *. injection He as <-. split; reflexivity.
  - intros Hname Hblank post_patient'.
    assert (Hbuild : build_patient_resource body = None)
      by (apply (blank_name_is_not_built body); auto).
    unfold create_patient. now rewrite Hbuild.
  - intros created Hok.
    destruct (create_patient_cases post_patient describe body new_id db)
      as [(cause & Heq)|(resource & reply & created' & Hbuild & Hpost & Hrow & Hnew & Heq)];
      rewrite Heq in *; [discriminate|].
    simpl in Hok. injection Hok as ->. simpl.
    assert (Hfound :
      patient_by_fhir_id (PatientData.fhir_id created)
        (set_patients (fun rows => rows ++ [created])%list db) = Some created).
    { unfold patient_by_fhir_id. simpl.
      apply find_app_new; [|apply String.eqb_refl].
      apply find_none_iff. intros p Hp. apply String.eqb_neq. intros Hsame.
      apply Hnew. rewrite <- Hsame. now apply in_map. }
    repeat apply conj; auto.
    + eauto.
    + intros directory new_id'.
      unfold sync_patient_from_fhir, bind, query, ret. now rewrite Hfound.
Qed.

Lemma create_patient_contract_witness :
  create_patient echo_server sample_describe blank_name_body "pat-8" sample_db
  = (Raised (mkHTTP 500 "Failed to create patient: list index out of range"), sample_db)
  /\ exists created,
       fst (create_patient echo_server sample_describe new_patient_body "pat-8"
              sample_db) = Ok created
       /\ PatientData.name created = "Nguyen Van An"
       /\ PatientData.address created = Some ""
       /\ patient_by_fhir_id "patient-100"
            (snd (create_patient echo_server sample_describe new_patient_body "pat-8"
                    sample_db)) = Some created.
Proof.
  pose proof (create_patient_contract echo_server sample_describe blank_name_body
                "pat-8" sample_db) as Hblank.
  pose proof (create_patient_contract echo_server sample_describe new_patient_body
                "pat-8" sample_db) as Hnew.
  cbv zeta in Hblank, Hnew.
  destruct Hblank as (_ & Hblank & _). destruct Hnew as (_ & _ & Hnew).
  split.
  - exact (Hblank eq_refl eq_refl echo_server).
  - eexists. split; [reflexivity|].
    destruct (Hnew _ eq_refl) as (_ & _ & _ & _ & Hfound & _).
    split; [reflexivity|split; [reflexivity|exact Hfound]].
Defined.
